(** * Simulated absorbance sensors (main.ino): a shallow embedding

    The sketch runs on an Arduino Uno (AVR).  On that target [float] and
    [double] are both IEEE-754 binary32, [int] and [size_t] are 16 bits wide,
    [long] is 32 bits wide and [uint8_t] is a byte.  Floating-point values are
    modelled with the Standard Library's [spec_float] at precision 24 and
    maximal exponent 128, so that every arithmetic step of the sketch can be
    evaluated; integers are [Z] with the narrowing written out.

    What the sketch takes from outside its own text is kept apart:
    - the function-like macros [min], [max], [abs] and [round] of Arduino.h,
      reproduced below with their textual expansion;
    - [log10f] and [pow] of the C library, a record [Libm] of two functions;
    - [rand], [analogRead] and [millis], oracles stored in the [World].

    The file has three parts: the sketch and the notions the properties
    use; a theory of binary32 rounding (the operations of [spec_float] as
    the rounding of an exact quotient of integers, monotone in that
    quotient); the properties of the sketch, each stated on the functions of
    the first part. *)

From Stdlib Require Import ZArith List Bool Lia.
From Stdlib Require Import Floats.SpecFloat.
Import ListNotations.

Local Open Scope Z_scope.

(** ** Binary32 arithmetic *)

Module F32.

Definition prec : Z := 24.
Definition emax : Z := 128.

Definition float : Type := spec_float.

Definition add : float -> float -> float := SFadd prec emax.
Definition sub : float -> float -> float := SFsub prec emax.
Definition mul : float -> float -> float := SFmul prec emax.
Definition div : float -> float -> float := SFdiv prec emax.
Definition opp : float -> float := SFopp.
Definition ltb : float -> float -> bool := SFltb.
Definition leb : float -> float -> bool := SFleb.
Definition eqb : float -> float -> bool := SFeqb.

(** [a > b] and [a >= b] of C are [b < a] and [b <= a]. *)
Definition gtb (a b : float) : bool := ltb b a.
Definition geb (a b : float) : bool := leb b a.

(** A member of the binary32 format (canonical mantissa and exponent). *)
Definition valid (x : float) : bool := valid_binary prec emax x.

(** Conversion of an integer to [float], round to nearest even. *)
Definition of_Z (z : Z) : float := binary_normalize prec emax z 0 false.

Definition pzero : float := S754_zero false.
Definition nzero : float := S754_zero true.
Definition pinf : float := S754_infinity false.
Definition ninf : float := S754_infinity true.
Definition nan : float := S754_nan.

(** The literal [0.5]. *)
Definition half : float := Eval vm_compute in div (of_Z 1) (of_Z 2).

(** A decimal literal [n / d], correctly rounded. *)
Definition lit (n d : Z) : float := div (of_Z n) (of_Z d).

Definition is_nan (x : float) : bool :=
  match x with S754_nan => true | _ => false end.

Definition is_finite (x : float) : bool :=
  match x with S754_zero _ | S754_finite _ _ _ => true | _ => false end.

(** Finite and not below zero (a zero of either sign included). *)
Definition finite_nonneg (x : float) : bool := is_finite x && leb pzero x.

Definition LONG_MIN : Z := - 2 ^ 31.
Definition LONG_MAX : Z := 2 ^ 31 - 1.

(** Integer part of a finite value, rounded toward zero. *)
Definition trunc (x : float) : Z :=
  match x with
  | S754_finite s m e =>
      let a := match e with
               | Zneg p => Z.shiftr (Zpos m) (Zpos p)
               | _ => Z.shiftl (Zpos m) e
               end in
      if s then - a else a
  | _ => 0
  end.

(** The cast [(long) x].  C leaves it undefined for NaN, for the
    infinities and when the integer part does not fit; these give [None]. *)
Definition to_long (x : float) : option Z :=
  if is_finite x then
    let z := trunc x in
    if (LONG_MIN <=? z) && (z <=? LONG_MAX) then Some z else None
  else None.

End F32.

Abbreviation float := F32.float.

(** ** Integer narrowing *)

Definition UINT8_MAX : Z := 255.

(** Conversion to [uint8_t]. *)
Definition to_uint8 (z : Z) : Z := z mod 256.

(** Conversion to [size_t] (16 bits on AVR). *)
Definition to_size_t (z : Z) : Z := z mod 65536.

(** Conversion to [int] (16 bits, two's complement). *)
Definition to_int16 (z : Z) : Z := (z + 32768) mod 65536 - 32768.

(** ** The macros of Arduino.h

    [#define min(a,b) ((a)<(b)?(a):(b))]
    [#define max(a,b) ((a)>(b)?(a):(b))]
    [#define abs(x) ((x)>0?(x):-(x))]
    [#define round(x) ((x)>=0?(long)((x)+0.5):(long)((x)-0.5))]

    They are textual: an argument with a side effect is evaluated once per
    occurrence in the expansion.  For pure arguments they are the functions
    below; [abs(uniform(sigma))] is expanded where it is used. *)

Module Arduino.

Definition min (a b : float) : float := if F32.ltb a b then a else b.
Definition max (a b : float) : float := if F32.gtb a b then a else b.

Definition round (x : float) : option Z :=
  if F32.geb x F32.pzero
  then F32.to_long (F32.add x F32.half)
  else F32.to_long (F32.sub x F32.half).

(** [min] on [size_t] operands. *)
Definition min_size (a b : Z) : Z := if a <? b then a else b.

End Arduino.

(** ** The C library

    [log10f] and [pow] are not part of the sketch.  On AVR [pow] works on
    32-bit values like [powf]. *)

Record Libm : Type := {
  log10f : float -> float;
  pow : float -> float -> float
}.

(** [RAND_MAX] of avr-libc. *)
Definition RAND_MAX : Z := 32767.

(** ** Build-time configuration

    The constants a build of the sketch fixes.  [sketch] further down holds
    the values of the source. *)

Record Config : Type := {
  POWER_LAW_CORRECTOR_GAMMA : float;
  POWER_LAW_CORRECTOR_C : float;
  OUTPUT_CALIBRATED_A : bool
}.

(** [constexpr float MAX_A = 2;] *)
Definition MAX_A : float := F32.of_Z 2.

(** [constexpr float to_byte = UINT8_MAX / MAX_A;] *)
Definition to_byte : float := F32.div (F32.of_Z UINT8_MAX) MAX_A.

(** [constexpr unsigned long simulation_dt_ms = 25;] *)
Definition simulation_dt_ms : Z := 25.

(** [constexpr size_t MAX_MEMORY_SIZE = 50;] *)
Definition MAX_MEMORY_SIZE : Z := 50.

(** ** Simulated sensors: data *)

Record SimulatedSensor : Type := {
  memory_size : Z;
  background : float;
  alpha : float;
  gamma : float;
  sigma : float;
  memory : list Z
}.

Definition set_memory (s : SimulatedSensor) (m : list Z) : SimulatedSensor :=
  {| memory_size := memory_size s; background := background s;
     alpha := alpha s; gamma := gamma s; sigma := sigma s; memory := m |}.

(** [uint8_t memory[MAX_MEMORY_SIZE] = { 0 };] *)
Definition zero_memory : list Z := repeat 0 (Z.to_nat MAX_MEMORY_SIZE).

(** The constructor.  [None] when the cast inside [round] is undefined. *)
Definition SimulatedSensor_new
    (response_time_ms background alpha gamma sigma : float)
    : option SimulatedSensor :=
  match Arduino.round (F32.div response_time_ms (F32.of_Z simulation_dt_ms)) with
  | Some r =>
      Some {| memory_size := Arduino.min_size (to_size_t r) MAX_MEMORY_SIZE;
              background := background; alpha := alpha; gamma := gamma;
              sigma := sigma; memory := zero_memory |}
  | None => None
  end.

(** ** The state of the running sketch *)

Record World : Type := {
  rand_stream : nat -> Z;
  rand_calls : nat;
  adc_stream : nat -> Z;
  adc_calls : nat;
  physical_dark : float;
  physical_full : float;
  accumulated_reads_value : float;
  accumulated_reads_count : Z;
  sensors : list SimulatedSensor;
  nextTick : Z;
  serial : list Z
}.

(** A computation that reads and writes the [World]; [None] marks behaviour
    the C standard leaves undefined. *)
Definition M (A : Type) : Type := World -> option (A * World).

Definition ret {A : Type} (a : A) : M A := fun w => Some (a, w).

Definition bind {A B : Type} (m : M A) (k : A -> M B) : M B :=
  fun w => match m w with
           | Some (a, w') => k a w'
           | None => None
           end.

Definition lift {A : Type} (o : option A) : M A :=
  fun w => match o with Some a => Some (a, w) | None => None end.

Declare Scope sketch_scope.
Delimit Scope sketch_scope with sketch.
Notation "x <- m ;; k" := (bind m (fun x => k))
  (at level 61, m at next level, right associativity) : sketch_scope.
Notation "m ;;; k" := (bind m (fun _ => k))
  (at level 61, right associativity) : sketch_scope.
Local Open Scope sketch_scope.

(** [rand()]: the next element of the pseudo-random stream, in
    [0 .. RAND_MAX]. *)
Definition rand : M Z := fun w =>
  Some (rand_stream w (rand_calls w) mod (RAND_MAX + 1),
        {| rand_stream := rand_stream w; rand_calls := S (rand_calls w);
           adc_stream := adc_stream w; adc_calls := adc_calls w;
           physical_dark := physical_dark w; physical_full := physical_full w;
           accumulated_reads_value := accumulated_reads_value w;
           accumulated_reads_count := accumulated_reads_count w;
           sensors := sensors w; nextTick := nextTick w; serial := serial w |}).

(** [analogRead(PHYSICAL_SENSOR_PIN)]: the next conversion of the 10-bit
    ADC. *)
Definition analogRead : M Z := fun w =>
  Some (adc_stream w (adc_calls w) mod 1024,
        {| rand_stream := rand_stream w; rand_calls := rand_calls w;
           adc_stream := adc_stream w; adc_calls := S (adc_calls w);
           physical_dark := physical_dark w; physical_full := physical_full w;
           accumulated_reads_value := accumulated_reads_value w;
           accumulated_reads_count := accumulated_reads_count w;
           sensors := sensors w; nextTick := nextTick w; serial := serial w |}).

Definition set_accumulated (v : float) (c : Z) : M unit := fun w =>
  Some (tt,
        {| rand_stream := rand_stream w; rand_calls := rand_calls w;
           adc_stream := adc_stream w; adc_calls := adc_calls w;
           physical_dark := physical_dark w; physical_full := physical_full w;
           accumulated_reads_value := v;
           accumulated_reads_count := c;
           sensors := sensors w; nextTick := nextTick w; serial := serial w |}).

Definition set_sensors (l : list SimulatedSensor) : M unit := fun w =>
  Some (tt,
        {| rand_stream := rand_stream w; rand_calls := rand_calls w;
           adc_stream := adc_stream w; adc_calls := adc_calls w;
           physical_dark := physical_dark w; physical_full := physical_full w;
           accumulated_reads_value := accumulated_reads_value w;
           accumulated_reads_count := accumulated_reads_count w;
           sensors := l; nextTick := nextTick w; serial := serial w |}).

Definition set_nextTick (t : Z) : M unit := fun w =>
  Some (tt,
        {| rand_stream := rand_stream w; rand_calls := rand_calls w;
           adc_stream := adc_stream w; adc_calls := adc_calls w;
           physical_dark := physical_dark w; physical_full := physical_full w;
           accumulated_reads_value := accumulated_reads_value w;
           accumulated_reads_count := accumulated_reads_count w;
           sensors := sensors w; nextTick := t; serial := serial w |}).

(** [Serial.write(b)]: one byte appended to the stream. *)
Definition Serial_write (b : Z) : M unit := fun w =>
  Some (tt,
        {| rand_stream := rand_stream w; rand_calls := rand_calls w;
           adc_stream := adc_stream w; adc_calls := adc_calls w;
           physical_dark := physical_dark w; physical_full := physical_full w;
           accumulated_reads_value := accumulated_reads_value w;
           accumulated_reads_count := accumulated_reads_count w;
           sensors := sensors w; nextTick := nextTick w;
           serial := serial w ++ [to_uint8 b] |}).

Definition get {A : Type} (f : World -> A) : M A := fun w => Some (f w, w).

Definition set_physical_dark (v : float) : M unit := fun w =>
  Some (tt,
        {| rand_stream := rand_stream w; rand_calls := rand_calls w;
           adc_stream := adc_stream w; adc_calls := adc_calls w;
           physical_dark := v; physical_full := physical_full w;
           accumulated_reads_value := accumulated_reads_value w;
           accumulated_reads_count := accumulated_reads_count w;
           sensors := sensors w; nextTick := nextTick w; serial := serial w |}).

Definition set_physical_full (v : float) : M unit := fun w =>
  Some (tt,
        {| rand_stream := rand_stream w; rand_calls := rand_calls w;
           adc_stream := adc_stream w; adc_calls := adc_calls w;
           physical_dark := physical_dark w; physical_full := v;
           accumulated_reads_value := accumulated_reads_value w;
           accumulated_reads_count := accumulated_reads_count w;
           sensors := sensors w; nextTick := nextTick w; serial := serial w |}).

(** ** Physical sensor reading and calibration *)

(** [float read_physical_sensor()] *)
Definition read_physical_sensor : M float :=
  r <- analogRead ;; ret (F32.of_Z r).

(** The value [physical_to_A] computes when the global [physical_full]
    holds [full]. *)
Definition physical_to_A_of (lm : Libm) (cfg : Config) (full : float)
    (physical_value : float) : float :=
  pow lm
    (Arduino.max (F32.of_Z 0)
       (F32.div (log10f lm (F32.div full physical_value))
                (POWER_LAW_CORRECTOR_C cfg)))
    (POWER_LAW_CORRECTOR_GAMMA cfg).

(** [float physical_to_A(const float physical_value)] *)
Definition physical_to_A (lm : Libm) (cfg : Config) (physical_value : float)
    : M float :=
  full <- get physical_full ;;
  ret (physical_to_A_of lm cfg full physical_value).

(** ** Utility functions *)

(** The value [uniform] computes from the result [r] of its call of
    [rand]: [(((float) r / RAND_MAX) - 0.5) * sigma]. *)
Definition uniform_of (sigma : float) (r : Z) : float :=
  F32.mul (F32.sub (F32.div (F32.of_Z r) (F32.of_Z RAND_MAX)) F32.half) sigma.

(** [float uniform(float sigma)] *)
Definition uniform (sigma : float) : M float :=
  r <- rand ;; ret (uniform_of sigma r).

(** [void accumulate_read_physical_sensor()] *)
Definition accumulate_read_physical_sensor : M unit :=
  x <- read_physical_sensor ;;
  v <- get accumulated_reads_value ;;
  c <- get accumulated_reads_count ;;
  set_accumulated (F32.add v x) (to_int16 (c + 1)).

(** [float get_and_reset_accumulated_reads()] *)
Definition get_and_reset_accumulated_reads : M float :=
  v <- get accumulated_reads_value ;;
  c <- get accumulated_reads_count ;;
  let result := F32.div v (F32.of_Z c) in
  set_accumulated (F32.of_Z 0) 0 ;;;
  ret result.

(** ** Simulated sensors: [update] *)

(** [memory[i] = v]; an index outside the array leaves it as it is (the
    sketch never writes there, see [memory_size_le_MAX]). *)
Fixpoint store (m : list Z) (i : nat) (v : Z) : list Z :=
  match m, i with
  | [], _ => []
  | _ :: tl, O => v :: tl
  | x :: tl, S i' => x :: store tl i' v
  end.

(** [pow(real_A, gamma) * alpha] *)
Definition base_value (lm : Libm) (s : SimulatedSensor) (real_A : float) : float :=
  F32.mul (pow lm real_A (gamma s)) (alpha s).

(** [for (i ...; i < memory_size; i++) acc += (float) memory[i]/to_byte;]
    with [n] iterations left, starting at index [i]. *)
Fixpoint accumulate_memory (m : list Z) (i n : nat) (acc : float) : float :=
  match n with
  | O => acc
  | S n' =>
      accumulate_memory m (S i) n'
        (F32.add acc (F32.div (F32.of_Z (nth i m 0)) to_byte))
  end.

(** The response-time smoothing. *)
Definition smooth (s : SimulatedSensor) (simulated_output : float) : float :=
  if 1 <=? memory_size s then
    let acc := accumulate_memory (memory s) 0 (Z.to_nat (memory_size s))
                 (F32.of_Z 0) in
    F32.div (F32.add acc simulated_output)
            (F32.of_Z (to_size_t (memory_size s + 1)))
  else simulated_output.

(** The background floor. *)
Definition floor_background (s : SimulatedSensor) (simulated_output : float) : float :=
  if F32.ltb simulated_output (background s) then background s
  else simulated_output.

(** [abs(uniform(sigma))] after macro expansion:
    [((uniform(sigma))>0?(uniform(sigma)):-(uniform(sigma)))]. *)
Definition abs_uniform (sigma : float) : M float :=
  x <- uniform sigma ;;
  if F32.gtb x (F32.of_Z 0)
  then uniform sigma
  else (y <- uniform sigma ;; ret (F32.opp y)).

(** [round(max(0, min(simulated_output*to_byte, UINT8_MAX)))] as a [long]. *)
Definition clamp_round (simulated_output : float) : option Z :=
  Arduino.round
    (Arduino.max (F32.of_Z 0)
       (Arduino.min (F32.mul simulated_output to_byte) (F32.of_Z UINT8_MAX))).

(** [for (i ...; i < memory_size-1; i++) memory[i] = memory[i+1];]
    with [n] iterations left, starting at index [i]. *)
Fixpoint shift_memory (m : list Z) (i n : nat) : list Z :=
  match n with
  | O => m
  | S n' => shift_memory (store m i (nth (S i) m 0)) (S i) n'
  end.

(** The memory after the shift and the store of the new output. *)
Definition push_memory (s : SimulatedSensor) (simulated_byte_output : Z) : list Z :=
  if 1 <=? memory_size s then
    store (shift_memory (memory s) 0 (Z.to_nat (memory_size s - 1)))
          (Z.to_nat (memory_size s - 1)) simulated_byte_output
  else memory s.

(** [uint8_t update(const float real_A)]: the byte returned and the sensor
    after the call. *)
Definition update (lm : Libm) (s : SimulatedSensor) (real_A : float)
    : M (Z * SimulatedSensor) :=
  let simulated_output := base_value lm s real_A in
  let simulated_output := smooth s simulated_output in
  let simulated_output := floor_background s simulated_output in
  noise <- abs_uniform (sigma s) ;;
  let simulated_output := F32.add simulated_output noise in
  r <- lift (clamp_round simulated_output) ;;
  let simulated_byte_output := to_uint8 r in
  ret (simulated_byte_output,
       set_memory s (push_memory s simulated_byte_output)).

(** ** Setup and loop *)

Definition b2z (b : bool) : Z := if b then 1 else 0.

(** [for (i ...; i < n_sensors; i++) { ... update ...; Serial.write ...; }]
    over the sensors still to visit; the result is the array after the
    loop. *)
Fixpoint update_sensors (lm : Libm) (real_A : float) (ss : list SimulatedSensor)
    : M (list SimulatedSensor) :=
  match ss with
  | [] => ret []
  | s :: tl =>
      r <- update lm s real_A ;;
      Serial_write (fst r) ;;;
      tl' <- update_sensors lm real_A tl ;;
      ret (snd r :: tl')
  end.

(** The part of [loop] after the timing test: one sampling tick. *)
Definition tick (lm : Libm) (cfg : Config) : M unit :=
  t <- get nextTick ;;
  set_nextTick ((t + simulation_dt_ms) mod 2 ^ 32) ;;;
  avg <- get_and_reset_accumulated_reads ;;
  real_A <- physical_to_A lm cfg avg ;;
  (if OUTPUT_CALIBRATED_A cfg
   then (r <- lift (clamp_round real_A) ;; Serial_write r)
   else ret tt) ;;;
  ss <- get sensors ;;
  ss' <- update_sensors lm real_A ss ;;
  set_sensors ss' ;;;
  Serial_write (b2z (OUTPUT_CALIBRATED_A cfg) + Z.of_nat (length ss)) ;;;
  Serial_write 10.

(** [void loop()], entered when [millis()] returns [now]. *)
Definition loop (lm : Libm) (cfg : Config) (now : Z) : M unit :=
  t <- get nextTick ;;
  if now <? t then accumulate_read_physical_sensor
  else tick lm cfg.

(** [n] calls of [accumulate_read_physical_sensor]. *)
Fixpoint accumulate_n (n : nat) : M unit :=
  match n with
  | O => ret tt
  | S n' => accumulate_read_physical_sensor ;;; accumulate_n n'
  end.

(** [void setup()], entered when [millis()] returns [now].  The first
    [analogRead] is the argument of [randomSeed]; the seed it gives and the
    pin and serial set-up calls have no counterpart in the [World]. *)
Definition setup (now : Z) : M unit :=
  analogRead ;;;
  accumulate_n 256 ;;;
  d <- get_and_reset_accumulated_reads ;;
  set_physical_dark d ;;;
  accumulate_n 256 ;;;
  f <- get_and_reset_accumulated_reads ;;
  set_physical_full f ;;;
  set_nextTick now.

(** ** The configuration of the source *)

Definition sketch : Config := {|
  POWER_LAW_CORRECTOR_GAMMA := F32.lit 666 1000;
  POWER_LAW_CORRECTOR_C := F32.of_Z 1;
  OUTPUT_CALIBRATED_A := false
|}.

(** [SimulatedSensor sensors[] = { ... };] *)
Definition sketch_sensors : list (option SimulatedSensor) :=
  [ SimulatedSensor_new (F32.of_Z 3) (F32.lit 4 100) (F32.of_Z 3) (F32.of_Z 1) (F32.lit 20 100);
    SimulatedSensor_new (F32.of_Z 400) (F32.lit 2 100) (F32.lit 75 100) (F32.of_Z 1) (F32.lit 3 100);
    SimulatedSensor_new (F32.of_Z 0) (F32.lit 3 100) (F32.lit 50 100) (F32.of_Z 1) (F32.lit 3 100);
    SimulatedSensor_new (F32.of_Z 100) (F32.lit 33 100) (F32.lit 75 100) (F32.of_Z 2) (F32.lit 1 100) ].

(** ** Notions used by the properties *)

(** The slots [update] reads and writes: the first [memory_size] ones. *)
Definition history (s : SimulatedSensor) : list Z :=
  firstn (Z.to_nat (memory_size s)) (memory s).

(** The sum the smoothing loop of [update] accumulates over the entries
    [h], oldest first: [acc = 0; acc += (float) h[i] / to_byte]. *)
Definition history_sum (h : list Z) : float :=
  fold_left (fun acc v => F32.add acc (F32.div (F32.of_Z v) to_byte)) h
            (F32.of_Z 0).

(** What the constructor establishes and [update] keeps. *)
Definition sensor_ok (s : SimulatedSensor) : Prop :=
  0 <= memory_size s <= MAX_MEMORY_SIZE /\
  length (memory s) = Z.to_nat MAX_MEMORY_SIZE.

(** Successive calls of [update] on one sensor, one per element of [inputs];
    the bytes returned, oldest first, and the sensor after the last call. *)
Fixpoint update_many (lm : Libm) (s : SimulatedSensor) (inputs : list float)
    : M (list Z * SimulatedSensor) :=
  match inputs with
  | [] => ret ([], s)
  | a :: tl =>
      r <- update lm s a ;;
      r' <- update_many lm (snd r) tl ;;
      ret (fst r :: fst r', snd r')
  end.

(** ** A sample environment

    One C library and one family of initial states, used to run the sketch on
    concrete inputs.  [Sample.log10f] and [Sample.pow] return what Annex F of
    the C standard fixes (zeros, infinities, NaN, [log10f(1)], [pow(1, y)],
    [pow(x, 1)]) and are exact on the powers of ten; elsewhere they are a
    coarse monotone stand-in (the integer part of the logarithm; the exponent
    taken as one, or as two when it is two). *)

Module Sample.

Definition one : float := F32.of_Z 1.

(** [10 ^ k <= m * 2 ^ e], both sides scaled by [2 ^ 149]. *)
Definition le_pow10 (k : Z) (m : positive) (e : Z) : bool :=
  10 ^ Z.max k 0 * 2 ^ 149 <=? Zpos m * 2 ^ (e + 149) * 10 ^ Z.max (- k) 0.

(** The largest [k] in [-46 .. 39] with [10 ^ k <= m * 2 ^ e]. *)
Definition floor_log10 (m : positive) (e : Z) : Z :=
  Z.of_nat
    (length (filter (fun k => le_pow10 k m e)
                    (map (fun i => Z.of_nat i - 46) (seq 0 86)))) - 47.

Definition log10f (x : float) : float :=
  match x with
  | S754_nan => F32.nan
  | S754_zero _ => F32.ninf
  | S754_infinity false => F32.pinf
  | S754_infinity true => F32.nan
  | S754_finite true _ _ => F32.nan
  | S754_finite false m e => F32.of_Z (floor_log10 m e)
  end.

Definition is_zero (x : float) : bool :=
  match x with S754_zero _ => true | _ => false end.

(** [x ^ y] for [x > 0] and [y > 0]. *)
Definition pos_pow (x y : float) : float :=
  if F32.eqb y (F32.of_Z 2) then F32.mul x x else x.

Definition pow (x y : float) : float :=
  if is_zero y then one
  else if F32.eqb x one then one
  else if F32.is_nan x || F32.is_nan y then F32.nan
  else if is_zero x then (if F32.ltb F32.pzero y then F32.pzero else F32.pinf)
  else if F32.ltb x F32.pzero then F32.nan
  else if F32.eqb y one then x
  else if F32.ltb y F32.pzero then F32.div one (pos_pow x (F32.opp y))
  else pos_pow x y.

Definition libm : Libm := Build_Libm log10f pow.

End Sample.

(** The state before [setup]: nothing accumulated, nothing sent; [rands]
    and [reads] are what [rand] and [analogRead] will return, then zeros. *)
Definition initial_world (rands reads : list Z) (full : float)
    (ss : list SimulatedSensor) : World := {|
  rand_stream := fun n => nth n rands 0;
  rand_calls := 0;
  adc_stream := fun n => nth n reads 0;
  adc_calls := 0;
  physical_dark := F32.of_Z 0;
  physical_full := full;
  accumulated_reads_value := F32.of_Z 0;
  accumulated_reads_count := 0;
  sensors := ss;
  nextTick := 0;
  serial := []
|}.

(** The result of a computation that is known to be defined. *)
Definition run {A : Type} (m : M A) (w : World) (d : A) : A * World :=
  match m w with
  | Some r => r
  | None => (d, w)
  end.

(** The second sensor of the source: response time 400 ms, 16 slots. *)
Definition slow_sensor : SimulatedSensor :=
  match SimulatedSensor_new (F32.of_Z 400) (F32.lit 2 100) (F32.lit 75 100)
          (F32.of_Z 1) (F32.lit 3 100) with
  | Some s => s
  | None => {| memory_size := 0; background := F32.pzero; alpha := F32.pzero;
               gamma := F32.pzero; sigma := F32.pzero; memory := [] |}
  end.

(** The next [n] results of [analogRead] in the state [w]. *)
Definition next_reads (w : World) (n : nat) : list Z :=
  map (fun i => adc_stream w (adc_calls w + i) mod 1024) (seq 0 n).

(** The running sum [accumulated_reads_value] holds after the readings [l],
    starting from [v]. *)
Definition sum_reads (v : float) (l : list Z) : float :=
  fold_left (fun acc r => F32.add acc (F32.of_Z r)) l v.

(** [each_updated lm a ss bs ss']: position by position, [update] with
    input [a] on the sensor of [ss] returned the byte of [bs] and left the
    sensor of [ss']. *)
Inductive each_updated (lm : Libm) (a : float)
    : list SimulatedSensor -> list Z -> list SimulatedSensor -> Prop :=
| each_updated_nil : each_updated lm a [] [] []
| each_updated_cons (s : SimulatedSensor) (b : Z) (s' : SimulatedSensor)
    (ss : list SimulatedSensor) (bs : list Z) (ss' : list SimulatedSensor) :
    (exists w w', update lm s a w = Some ((b, s'), w')) ->
    each_updated lm a ss bs ss' ->
    each_updated lm a (s :: ss) (b :: bs) (s' :: ss').

(** The sensors of the source, ready to run. *)
Definition sketch_sensor_list : list SimulatedSensor :=
  flat_map (fun o => match o with Some s => [s] | None => [] end) sketch_sensors.

(** A state in the middle of a sampling interval: three readings of 90
    accumulated against a full level of 900. *)
Definition running_world (rands : list Z) : World := {|
  rand_stream := fun n => nth n rands 0;
  rand_calls := 0;
  adc_stream := fun _ => 90;
  adc_calls := 3;
  physical_dark := F32.of_Z 100;
  physical_full := F32.of_Z 900;
  accumulated_reads_value := F32.of_Z 270;
  accumulated_reads_count := 3;
  sensors := sketch_sensor_list;
  nextTick := 25;
  serial := []
|}.

(** The third sensor of the source: response time 0, no memory. *)
Definition fast_sensor : SimulatedSensor :=
  match SimulatedSensor_new (F32.of_Z 0) (F32.lit 3 100) (F32.lit 50 100)
          (F32.of_Z 1) (F32.lit 3 100) with
  | Some s => s
  | None => slow_sensor
  end.

(** ** What the C standard fixes about [log10f] and [pow]

    The special values of Annex F (F.10.3.8 and F.10.4.4) that the sketch
    can meet. *)

Record AnnexF (lm : Libm) : Prop := {
  log10f_zero : forall s : bool, log10f lm (S754_zero s) = F32.ninf;
  log10f_one : log10f lm (F32.of_Z 1) = F32.pzero;
  log10f_negative : forall x : float,
    F32.ltb x F32.pzero = true -> log10f lm x = F32.nan;
  log10f_pinf : log10f lm F32.pinf = F32.pinf;
  log10f_nan : log10f lm F32.nan = F32.nan;
  pow_one : forall y : float, pow lm (F32.of_Z 1) y = F32.of_Z 1;
  pow_pinf : forall y : float,
    F32.ltb F32.pzero y = true -> pow lm F32.pinf y = F32.pinf;
  pow_nan : forall y : float,
    F32.ltb F32.pzero y = true -> pow lm F32.nan y = F32.nan;
  pow_zero : forall (s : bool) (y : float),
    F32.ltb F32.pzero y = true -> F32.ltb y (F32.of_Z 1) = true ->
    pow lm (S754_zero s) y = F32.pzero
}.

(** ** Rounding, as arithmetic on integers

    The value of a finite binary32 number is counted in units of
    [2 ^ (- 298)], small enough for every exponent the operations meet. *)

Module Rnd.

Definition K : Z := 298.

Definition fexp (e : Z) : Z := SpecFloat.fexp F32.prec F32.emax e.

(** The value of a binary32 number [S754_finite _ m e] in units of
    [2 ^ (- 149)], the smallest positive one. *)
Definition U (m : positive) (e : Z) : Z := Zpos m * 2 ^ (e + 149).

(** Where the fraction [r / b] lies in the unit interval. *)
Definition loc_of (r b : Z) : location :=
  if r =? 0 then loc_Exact else loc_Inexact (Z.compare (2 * r) b).

(** A shift record that stands for the rational [a / b]. *)
Definition Rep (mrs : shr_record) (a b : Z) : Prop :=
  shr_m mrs = a / b /\ loc_of_shr_record mrs = loc_of (a mod b) b.

(** [a / b] rounded to the nearest integer, ties to even. *)
Definition RNE (a b : Z) : Z :=
  round_nearest_even (a / b) (loc_of (a mod b) b).

(** The float with sign [s] and value [r * 2 ^ E], renormalised. *)
Definition normalize (s : bool) (r E : Z) : float :=
  let n := Z.max 0 (fexp (Zdigits2 r + E) - E) in
  match r / 2 ^ n with
  | Z0 => S754_zero s
  | Zpos m =>
      if E + n <=? F32.emax - F32.prec then S754_finite s m (E + n)
      else S754_infinity s
  | Zneg _ => S754_nan
  end.

(** The float nearest to [A / B] units, with sign [s]. *)
Definition Round (s : bool) (A B : Z) : float :=
  let E := fexp (Zdigits2 (A / B) - K) in
  normalize s (RNE A (B * 2 ^ (E + K))) E.

(** The exponent and the mantissa of [Round s A B], the mantissa [0]
    standing for a zero. *)
Definition key (A B : Z) : Z * Z :=
  let E := fexp (Zdigits2 (A / B) - K) in
  let r := RNE A (B * 2 ^ (E + K)) in
  if r =? 2 ^ 24 then (E + 1, 2 ^ 23) else (E, r).

Definition of_key (s : bool) (k : Z * Z) : float :=
  match snd k with
  | Z0 => S754_zero s
  | Zpos m =>
      if fst k <=? F32.emax - F32.prec then S754_finite s m (fst k)
      else S754_infinity s
  | Zneg _ => S754_nan
  end.

(** Exponent first, then mantissa. *)
Definition key_le (k1 k2 : Z * Z) : Prop :=
  fst k1 < fst k2 \/ (fst k1 = fst k2 /\ snd k1 <= snd k2).

(** What every key satisfies: a mantissa of at most 24 bits, of exactly 24
    bits above the smallest exponent. *)
Definition key_ok (k : Z * Z) : Prop :=
  -149 <= fst k /\ 0 <= snd k < 2 ^ 24 /\ (-149 < fst k -> 2 ^ 23 <= snd k).

End Rnd.

(** The value [update] quantizes: the floored, smoothed response plus the
    noise term. *)
Definition pre_quantization (lm : Libm) (s : SimulatedSensor) (real_A : float)
    (noise : float) : float :=
  F32.add (floor_background s (smooth s (base_value lm s real_A))) noise.

(** Zero, positive and finite, or plus infinity. *)
Inductive nonneg : float -> Prop :=
| nonneg_zero (s : bool) : nonneg (S754_zero s)
| nonneg_finite (m : positive) (e : Z) :
    F32.valid (S754_finite false m e) = true -> nonneg (S754_finite false m e)
| nonneg_inf : nonneg F32.pinf.

(** ** What the monotonicity of the calibration asks of the C library

    For the exponent [g]: on positive binary32 numbers [log10f] returns
    finite binary32 numbers and preserves the order, and [pow] with
    exponent [g] preserves the order of bases that are not negative. *)

Definition positive_finite (x : float) : Prop :=
  exists (m : positive) (e : Z),
    x = S754_finite false m e /\ F32.valid x = true.

Record LibmMonotone (lm : Libm) (g : float) : Prop := {
  log10f_finite : forall r : float,
    positive_finite r ->
    F32.is_finite (log10f lm r) = true /\ F32.valid (log10f lm r) = true;
  log10f_mono : forall r1 r2 : float,
    positive_finite r1 -> positive_finite r2 ->
    F32.leb r1 r2 = true ->
    F32.leb (log10f lm r1) (log10f lm r2) = true;
  pow_mono : forall b1 b2 : float,
    F32.valid b1 = true -> F32.valid b2 = true ->
    F32.leb F32.pzero b1 = true -> F32.leb b1 b2 = true ->
    F32.leb (pow lm b1 g) (pow lm b2 g) = true
}.

(** The integers [Sample.floor_log10] can return, each with its
    conversion to [float]. *)
Definition small_table : list (Z * float) :=
  map (fun i => (Z.of_nat i - 47, F32.of_Z (Z.of_nat i - 47))) (seq 0 87).

Definition small_table_ok : bool :=
  forallb (fun a =>
             F32.is_finite (snd a) && F32.valid (snd a) &&
             forallb (fun b => negb (fst a <=? fst b) || F32.leb (snd a) (snd b))
                     small_table)
          small_table.

(** [- 1 / 2 <= x <= 1 / 2]: within half of the amplitude 1. *)
Definition within_half_of_one (x : float) : bool :=
  F32.leb (F32.opp F32.half) x && F32.leb x F32.half.

(** ** Notions used by the further properties *)

(** The state [w] after [k] more calls of [rand] and the bytes [out] sent. *)
Definition after_rand_serial (w : World) (k : nat) (out : list Z) : World := {|
  rand_stream := rand_stream w;
  rand_calls := (k + rand_calls w)%nat;
  adc_stream := adc_stream w;
  adc_calls := adc_calls w;
  physical_dark := physical_dark w;
  physical_full := physical_full w;
  accumulated_reads_value := accumulated_reads_value w;
  accumulated_reads_count := accumulated_reads_count w;
  sensors := sensors w;
  nextTick := nextTick w;
  serial := serial w ++ out
|}.

(** The [n] results of [analogRead] that follow the next [k] ones. *)
Definition reads_from (w : World) (k n : nat) : list Z :=
  map (fun i => adc_stream w (adc_calls w + k + i) mod 1024) (seq 0 n).

(** A byte. *)
Definition is_byte (z : Z) : Prop := 0 <= z <= UINT8_MAX.

(** A stream made of whole frames of [k] value bytes, each followed by the
    count byte [k] and the newline. *)
Inductive framed (k : nat) : list Z -> Prop :=
| framed_nil : framed k []
| framed_snoc (l body : list Z) :
    framed k l -> length body = k -> Forall is_byte body ->
    framed k (l ++ body ++ [Z.of_nat k; 10]).

(** Successive calls of [loop], one per element of [times], the values
    [millis()] returns. *)
Fixpoint loops (lm : Libm) (cfg : Config) (times : list Z) : M unit :=
  match times with
  | [] => ret tt
  | t :: tl => loop lm cfg t ;;; loops lm cfg tl
  end.

(** Two sensors with the same configuration. *)
Definition same_config (s1 s2 : SimulatedSensor) : Prop :=
  memory_size s1 = memory_size s2 /\ background s1 = background s2 /\
  alpha s1 = alpha s2 /\ gamma s1 = gamma s2 /\ sigma s1 = sigma s2.


(** The sum of a list of readings, as an integer. *)
Definition total (l : list Z) : Z := fold_right Z.add 0 l.

(** The state after [k] more calls of [analogRead] that left the
    accumulator at [v] and [c]. *)
Definition after_reads (w : World) (k : nat) (v : float) (c : Z) : World := {|
  rand_stream := rand_stream w; rand_calls := rand_calls w;
  adc_stream := adc_stream w; adc_calls := (k + adc_calls w)%nat;
  physical_dark := physical_dark w; physical_full := physical_full w;
  accumulated_reads_value := v;
  accumulated_reads_count := c;
  sensors := sensors w; nextTick := nextTick w; serial := serial w |}.

(** The buffer [1; 2; ...; n], to tell the slots apart. *)
Definition seq_bytes (n : nat) : list Z := map Z.of_nat (seq 1 n).

(** The slot count the constructor computes before the cap, for a response
    time of [t] milliseconds: [round(response_time_ms / simulation_dt_ms)]. *)
Definition slots_of (t : Z) : option Z :=
  Arduino.round (F32.div (F32.of_Z t) (F32.of_Z simulation_dt_ms)).

(** [slots_of] returns [k] at both ends of the interval of the response
    times nearest to [k] periods. *)
Definition slots_ends_ok (k : Z) : bool :=
  match slots_of (Z.max 0 (simulation_dt_ms * k - 12)),
        slots_of (simulation_dt_ms * k + 12) with
  | Some a, Some b => (a =? k) && (b =? k)
  | _, _ => false
  end.

Definition slots_table_ok : bool :=
  forallb slots_ends_ok (map Z.of_nat (seq 0 50)).

(** [- (0.5 * sigma) <= x <= 0.5 * sigma], the products rounded. *)
Definition within_half_sigma (sigma x : float) : bool :=
  F32.leb (F32.opp (F32.mul F32.half sigma)) x &&
  F32.leb x (F32.mul F32.half sigma).

(** A zero, or a finite number of magnitude at most [b]. *)
Inductive small (b : float) : float -> Prop :=
| small_zero (s : bool) : small b (S754_zero s)
| small_finite (s : bool) (m : positive) (e : Z) :
    F32.valid (S754_finite false m e) = true ->
    F32.leb (S754_finite false m e) b = true ->
    small b (S754_finite s m e).
(** * Properties *)

(** [lia] after the powers of two are made opaque. *)
Ltac hide_pow :=
  repeat match goal with
         | |- context [2 ^ ?e] =>
             let p := fresh "pw" in set (p := 2 ^ e) in *; clearbody p
         | H : context [2 ^ ?e] |- _ =>
             let p := fresh "pw" in set (p := 2 ^ e) in *; clearbody p
         end.
Ltac plia := hide_pow; lia.


(** ** The memory buffer *)

Section Memory.

Lemma store_length (m : list Z) (i : nat) (v : Z) :
  length (store m i v) = length m.
Proof.
  revert i; induction m as [|x m IH]; intros [|i]; simpl; auto.
Qed.

Lemma store_app (pre : list Z) (x : Z) (post : list Z) (v : Z) :
  store (pre ++ x :: post) (length pre) v = pre ++ v :: post.
Proof.
  induction pre as [|y pre IH]; simpl; [reflexivity|].
  now rewrite IH.
Qed.

Lemma nth_app_length (pre : list Z) (x : Z) (post : list Z) :
  nth (length pre) (pre ++ x :: post) 0 = x.
Proof.
  induction pre as [|y pre IH]; simpl; auto.
Qed.

(** The shifting loop copies each slot from its right neighbour. *)
Lemma shift_memory_app (n : nat) :
  forall (pre : list Z) (x : Z) (rest : list Z),
    (n <= length rest)%nat ->
    shift_memory (pre ++ x :: rest) (length pre) n =
    pre ++ firstn n rest ++ skipn n (x :: rest).
Proof.
  induction n as [|n IH]; intros pre x rest Hn.
  - reflexivity.
  - destruct rest as [|y rest]; [simpl in Hn; lia|].
    cbn [shift_memory].
    replace (nth (S (length pre)) (pre ++ x :: y :: rest) 0) with y.
    2:{ change (pre ++ x :: y :: rest) with (pre ++ [x] ++ y :: rest).
        rewrite app_assoc.
        replace (S (length pre)) with (length (pre ++ [x]))
          by (rewrite length_app; simpl; lia).
        now rewrite nth_app_length. }
    rewrite store_app.
    change (pre ++ y :: y :: rest) with (pre ++ [y] ++ y :: rest).
    rewrite app_assoc.
    replace (S (length pre)) with (length (pre ++ [y]))
      by (rewrite length_app; simpl; lia).
    rewrite IH by (simpl in Hn; lia).
    rewrite <- app_assoc. reflexivity.
Qed.

Lemma shift_memory_length (n : nat) :
  forall (m : list Z) (i : nat), length (shift_memory m i n) = length m.
Proof.
  induction n as [|n IH]; intros m i; simpl; [reflexivity|].
  now rewrite IH, store_length.
Qed.

Lemma push_memory_length (s : SimulatedSensor) (b : Z) :
  length (push_memory s b) = length (memory s).
Proof.
  unfold push_memory. destruct (1 <=? memory_size s); [|reflexivity].
  now rewrite store_length, shift_memory_length.
Qed.

Lemma skipn_cons_split (k : nat) :
  forall (x : Z) (rest : list Z),
    (k <= length rest)%nat ->
    exists y post, skipn k (x :: rest) = y :: post /\ skipn k rest = post.
Proof.
  induction k as [|k IH]; intros x rest Hk.
  - exists x, rest. split; reflexivity.
  - destruct rest as [|y rest]; [simpl in Hk; lia|].
    destruct (IH y rest ltac:(simpl in Hk; lia)) as (z & post & E1 & E2).
    exists z, post. split; [exact E1|exact E2].
Qed.

(** The buffer after [update] stored the byte [b]: the live slots lose
    their first element and gain [b] at the end; the slots behind them are
    untouched. *)
Lemma push_memory_spec (s : SimulatedSensor) (b : Z) :
  sensor_ok s -> 1 <= memory_size s ->
  push_memory s b =
    tl (history s) ++ b :: skipn (Z.to_nat (memory_size s)) (memory s).
Proof.
  intros [[_ Hle] Hlen] H1. unfold push_memory, history.
  apply Z.leb_le in H1 as H1'. rewrite H1'.
  remember (memory s) as m eqn:Em. clear Em.
  replace (Z.to_nat (memory_size s)) with (S (Z.to_nat (memory_size s - 1)))
    by lia.
  assert (Hk : (S (Z.to_nat (memory_size s - 1)) <= length m)%nat)
    by (rewrite Hlen; unfold MAX_MEMORY_SIZE in *; lia).
  remember (Z.to_nat (memory_size s - 1)) as k eqn:Ek. clear Ek H1 H1' Hle Hlen.
  destruct m as [|x rest]; [simpl in Hk; lia|].
  simpl in Hk.
  change (x :: rest) with ([] ++ x :: rest) at 1.
  change 0%nat with (length (@nil Z)).
  rewrite shift_memory_app by lia.
  cbn [app firstn tl skipn].
  destruct (skipn_cons_split k x rest ltac:(lia)) as (y & post & E1 & E2).
  rewrite E1, E2.
  assert (El : length (firstn k rest) = k) by (apply firstn_length_le; lia).
  rewrite <- El at 2. apply store_app.
Qed.

End Memory.

(** ** Running the state monad *)

Lemma bind_Some {A B : Type} (m : M A) (k : A -> M B) (w : World) (r : B * World) :
  bind m k w = Some r ->
  exists a w1, m w = Some (a, w1) /\ k a w1 = Some r.
Proof.
  unfold bind. destruct (m w) as [[a w1]|]; [|discriminate].
  intros H. now exists a, w1.
Qed.

Lemma lift_Some {A : Type} (o : option A) (w : World) (r : A * World) :
  lift o w = Some r -> o = Some (fst r) /\ snd r = w.
Proof.
  unfold lift. destruct o; [|discriminate].
  intros H; inversion H; subst; auto.
Qed.

Lemma ret_Some {A : Type} (a : A) (w : World) (r : A * World) :
  ret a w = Some r -> r = (a, w).
Proof. unfold ret. intros H; now inversion H. Qed.

(** ** The constructor and [update] on the memory buffer *)

Lemma to_size_t_range (z : Z) : 0 <= to_size_t z < 65536.
Proof. unfold to_size_t. apply Z.mod_pos_bound. lia. Qed.

Lemma to_uint8_range (z : Z) : 0 <= to_uint8 z <= UINT8_MAX.
Proof.
  unfold to_uint8, UINT8_MAX.
  pose proof (Z.mod_pos_bound z 256 ltac:(lia)). lia.
Qed.

Lemma SimulatedSensor_new_ok (rt bg al ga si : float) (s : SimulatedSensor) :
  SimulatedSensor_new rt bg al ga si = Some s ->
  sensor_ok s /\ memory s = zero_memory /\
  exists r, Arduino.round (F32.div rt (F32.of_Z simulation_dt_ms)) = Some r /\
            memory_size s = Z.min (to_size_t r) MAX_MEMORY_SIZE.
Proof.
  unfold SimulatedSensor_new.
  destruct (Arduino.round _) as [r|]; [|discriminate].
  intros H; inversion H; subst; clear H.
  unfold sensor_ok. cbn [memory_size memory].
  pose proof (to_size_t_range r) as Hr.
  assert (E : Arduino.min_size (to_size_t r) MAX_MEMORY_SIZE
              = Z.min (to_size_t r) MAX_MEMORY_SIZE).
  { unfold Arduino.min_size. destruct (Z.ltb_spec (to_size_t r) MAX_MEMORY_SIZE); lia. }
  rewrite E. split; [split|split].
  - unfold MAX_MEMORY_SIZE. lia.
  - unfold zero_memory. apply repeat_length.
  - reflexivity.
  - exists r. split; reflexivity.
Qed.

Lemma update_result (lm : Libm) (s : SimulatedSensor) (a : float) (w : World)
    (b : Z) (s' : SimulatedSensor) (w' : World) :
  update lm s a w = Some ((b, s'), w') ->
  s' = set_memory s (push_memory s b) /\ 0 <= b <= UINT8_MAX.
Proof.
  unfold update. intros H.
  apply bind_Some in H as (noise & w1 & _ & H).
  apply bind_Some in H as (r & w2 & _ & H).
  apply ret_Some in H. inversion H; subst. split; [reflexivity|].
  apply to_uint8_range.
Qed.

Lemma firstn_length_app {A : Type} (l1 l2 : list A) :
  firstn (length l1) (l1 ++ l2) = l1.
Proof.
  induction l1 as [|x l1 IH]; simpl; [reflexivity|now rewrite IH].
Qed.

Lemma history_length (s : SimulatedSensor) :
  sensor_ok s -> length (history s) = Z.to_nat (memory_size s).
Proof.
  intros [[H0 H1] Hl]. unfold history. apply firstn_length_le.
  rewrite Hl. lia.
Qed.

Lemma update_step (lm : Libm) (s : SimulatedSensor) (a : float) (w : World)
    (b : Z) (s' : SimulatedSensor) (w' : World) :
  sensor_ok s ->
  update lm s a w = Some ((b, s'), w') ->
  sensor_ok s' /\ memory_size s' = memory_size s /\
  (1 <= memory_size s -> history s' = tl (history s) ++ [b]) /\
  (memory_size s < 1 -> memory s' = memory s).
Proof.
  intros Hok H. apply update_result in H as [-> _].
  split; [|split; [reflexivity|split]].
  - unfold sensor_ok. cbn [set_memory memory_size memory].
    rewrite push_memory_length. exact Hok.
  - intros H1. unfold history at 1. cbn [set_memory memory_size memory].
    rewrite (push_memory_spec s b Hok H1).
    pose proof (history_length s Hok) as Hl.
    assert (Ht : Z.to_nat (memory_size s) = length (tl (history s) ++ [b])).
    { rewrite length_app. destruct (history s); simpl in *; lia. }
    remember (skipn (Z.to_nat (memory_size s)) (memory s)) as rest.
    remember (tl (history s)) as h.
    rewrite Ht. change (h ++ b :: rest) with (h ++ [b] ++ rest).
    rewrite app_assoc. apply firstn_length_app.
  - intros H1. cbn [set_memory memory]. unfold push_memory.
    destruct (Z.leb_spec 1 (memory_size s)); [lia|reflexivity].
Qed.

Lemma update_many_steps (lm : Libm) (inputs : list float) :
  forall (s : SimulatedSensor) (w : World) (outs : list Z)
         (s' : SimulatedSensor) (w' : World),
    sensor_ok s ->
    update_many lm s inputs w = Some ((outs, s'), w') ->
    sensor_ok s' /\ memory_size s' = memory_size s /\
    length outs = length inputs /\
    (1 <= memory_size s -> history s' = skipn (length outs) (history s ++ outs)) /\
    (memory_size s < 1 -> memory s' = memory s).
Proof.
  induction inputs as [|a tl IH]; intros s w outs s' w' Hok H.
  - apply ret_Some in H. inversion H; subst. simpl.
    rewrite app_nil_r. repeat split; auto; apply Hok.
  - cbn [update_many] in H.
    apply bind_Some in H as ([b s1] & w1 & Hu & H).
    apply bind_Some in H as ([outs1 s2] & w2 & Hm & H).
    apply ret_Some in H. inversion H; subst; clear H. cbn [fst snd] in *.
    destruct (update_step _ _ _ _ _ _ _ Hok Hu) as (Hok1 & Hms1 & Hh1 & Hz1).
    destruct (IH _ _ _ _ _ Hok1 Hm) as (Hok2 & Hms2 & Hlen & Hh2 & Hz2).
    repeat split; try apply Hok2.
    + congruence.
    + simpl. congruence.
    + intros H1. rewrite Hh2 by lia. rewrite Hh1 by exact H1.
      pose proof (history_length s Hok) as Hl.
      destruct (history s) as [|x h]; [simpl in Hl; lia|].
      simpl. now rewrite <- app_assoc.
    + intros H1. rewrite Hz2 by lia. now apply Hz1.
Qed.


(** ** The first smoothing step *)

Lemma accumulate_memory_zero (n : nat) :
  forall i : nat,
    accumulate_memory zero_memory i n F32.pzero = F32.pzero.
Proof.
  induction n as [|n IH]; intros i; [reflexivity|].
  cbn [accumulate_memory]. unfold zero_memory at 2. rewrite nth_repeat.
  change (F32.add F32.pzero (F32.div (F32.of_Z 0) to_byte)) with F32.pzero.
  apply IH.
Qed.

Lemma firstn_repeat_le {A : Type} (x : A) (n m : nat) :
  (n <= m)%nat -> firstn n (repeat x m) = repeat x n.
Proof.
  revert m; induction n as [|n IH]; intros [|m] H; simpl; try reflexivity;
    [lia|]. f_equal. apply IH. lia.
Qed.

Lemma add_pzero_l (x : float) :
  x <> F32.nzero -> F32.add F32.pzero x = x.
Proof.
  destruct x as [[|]| | |]; intros H; try reflexivity.
  now contradiction H.
Qed.

(** ** The accumulator *)

Lemma next_reads_S (w w1 : World) (n : nat) :
  adc_stream w1 = adc_stream w -> adc_calls w1 = S (adc_calls w) ->
  next_reads w (S n) =
    (adc_stream w (adc_calls w) mod 1024) :: next_reads w1 n.
Proof.
  intros Hs Hc. unfold next_reads. cbn [seq map].
  rewrite Nat.add_0_r. f_equal.
  rewrite <- seq_shift, map_map. apply map_ext. intros i.
  rewrite Hs, Hc. f_equal. f_equal. lia.
Qed.

Lemma to_int16_small (z : Z) : -32768 <= z <= 32767 -> to_int16 z = z.
Proof.
  intros H. unfold to_int16. rewrite Z.mod_small; lia.
Qed.

Lemma accumulate_n_spec (n : nat) :
  forall w : World,
    0 <= accumulated_reads_count w ->
    accumulated_reads_count w + Z.of_nat n <= 32767 ->
    exists w',
      accumulate_n n w = Some (tt, w') /\
      accumulated_reads_value w' =
        sum_reads (accumulated_reads_value w) (next_reads w n) /\
      accumulated_reads_count w' = accumulated_reads_count w + Z.of_nat n /\
      adc_stream w' = adc_stream w /\
      adc_calls w' = (adc_calls w + n)%nat.
Proof.
  induction n as [|n IH]; intros w H0 Hn.
  - exists w. cbn. repeat split; try reflexivity; lia.
  - cbn [accumulate_n].
    unfold bind at 1.
    unfold accumulate_read_physical_sensor, read_physical_sensor, bind,
      analogRead, get, set_accumulated, ret.
    cbn [rand_stream rand_calls adc_stream adc_calls physical_dark
         physical_full accumulated_reads_value accumulated_reads_count
         sensors nextTick serial].
    match goal with
    | |- exists w', accumulate_n n ?x = _ /\ _ => set (w1 := x)
    end.
    destruct (IH w1) as (w' & Hrun & Hv & Hc & Hs & Hk).
    + subst w1. cbn [accumulated_reads_count]. rewrite to_int16_small; lia.
    + subst w1. cbn [accumulated_reads_count]. rewrite to_int16_small; lia.
    + exists w'. split; [exact Hrun|].
      rewrite (next_reads_S w w1 n) by reflexivity.
      rewrite Hv, Hc, Hs, Hk. subst w1.
      cbn [accumulated_reads_value accumulated_reads_count adc_stream
           adc_calls sum_reads fold_left].
      rewrite to_int16_small by lia.
      repeat split; try reflexivity; lia.
Qed.


(** ** What a call leaves untouched *)




Lemma to_uint8_small (z : Z) : 0 <= z <= UINT8_MAX -> to_uint8 z = z.
Proof.
  unfold to_uint8, UINT8_MAX. intros H. apply Z.mod_small. lia.
Qed.



(** ** The sample C library *)

Lemma Sample_AnnexF : AnnexF Sample.libm.
Proof.
  constructor; cbn [log10f pow Sample.libm].
  - reflexivity.
  - reflexivity.
  - intros [[|]|[|]| |[|] m e] H; try reflexivity; discriminate H.
  - reflexivity.
  - reflexivity.
  - intros y. unfold Sample.pow.
    destruct (Sample.is_zero y); reflexivity.
  - intros [[|]|[|]| |[|] m e] H; try discriminate H; try reflexivity.
    unfold Sample.pow, Sample.pos_pow. cbn [Sample.is_zero F32.is_nan orb].
    change (F32.eqb F32.pinf Sample.one) with false.
    change (F32.ltb F32.pinf F32.pzero) with false.
    change (F32.ltb (S754_finite false m e) F32.pzero) with false.
    cbv iota.
    destruct (F32.eqb (S754_finite false m e) Sample.one); [reflexivity|].
    destruct (F32.eqb (S754_finite false m e) (F32.of_Z 2)); reflexivity.
  - intros [[|]|[|]| |[|] m e] H; try discriminate H; reflexivity.
  - intros s [[|]|[|]| |[|] m e] H H1; try discriminate H; try discriminate H1.
    unfold Sample.pow. cbn [Sample.is_zero F32.is_nan orb].
    change (F32.eqb (S754_zero s) Sample.one) with false.
    rewrite H. reflexivity.
Qed.

Lemma abs_uniform_total (sg : float) (w : World) :
  exists noise w1, abs_uniform sg w = Some (noise, w1).
Proof.
  unfold abs_uniform, uniform, bind, rand, ret.
  match goal with
  | |- context [if ?c then _ else _] => destruct c
  end; eexists; eexists; reflexivity.
Qed.

(** ** The smoothing sum *)

Lemma accumulate_memory_fold (n : nat) :
  forall (pre l : list Z) (acc : float),
    (n <= length l)%nat ->
    accumulate_memory (pre ++ l) (length pre) n acc =
      fold_left (fun a v => F32.add a (F32.div (F32.of_Z v) to_byte))
                (firstn n l) acc.
Proof.
  induction n as [|n IH]; intros pre l acc Hn; [reflexivity|].
  destruct l as [|x l]; [simpl in Hn; lia|].
  cbn [accumulate_memory firstn fold_left].
  rewrite nth_app_length.
  replace (pre ++ x :: l) with ((pre ++ [x]) ++ l)
    by (rewrite <- app_assoc; reflexivity).
  replace (S (length pre)) with (length (pre ++ [x]))
    by (rewrite length_app; simpl; lia).
  apply IH. simpl in Hn. lia.
Qed.

(** The smoothing step reads exactly the [memory_size] live slots, and
    divides by one more than their number. *)
Lemma smooth_history_sum (s : SimulatedSensor) (x : float) :
  sensor_ok s -> 1 <= memory_size s ->
  smooth s x =
    F32.div (F32.add (history_sum (history s)) x)
            (F32.of_Z (memory_size s + 1)).
Proof.
  intros [[H0 H1] Hl] Hd. unfold smooth, history_sum, history.
  assert (Hb : (1 <=? memory_size s) = true) by (apply Z.leb_le; exact Hd).
  rewrite Hb.
  rewrite <- (accumulate_memory_fold (Z.to_nat (memory_size s)) [] (memory s))
    by (rewrite Hl; lia).
  unfold to_size_t, MAX_MEMORY_SIZE in *. rewrite Z.mod_small by lia.
  reflexivity.
Qed.

Lemma history_sum_zeros (k : nat) (l : list Z) :
  history_sum (repeat 0 k ++ l) = history_sum l.
Proof.
  unfold history_sum. rewrite fold_left_app. f_equal.
  induction k as [|k IH]; [reflexivity|].
  cbn [repeat fold_left].
  change (F32.add (F32.of_Z 0) (F32.div (F32.of_Z 0) to_byte))
    with (F32.of_Z 0).
  exact IH.
Qed.

(** The byte [update] returns is the quantized sum of the floored,
    smoothed response and the noise it drew, and it is the byte the call
    stores. *)
Lemma update_quantizes (lm : Libm) (s : SimulatedSensor) (a : float)
    (w : World) (b : Z) (s' : SimulatedSensor) (w' : World) :
  update lm s a w = Some ((b, s'), w') ->
  exists (noise : float) (r : Z),
    abs_uniform (sigma s) w = Some (noise, w') /\
    clamp_round (F32.add (floor_background s (smooth s (base_value lm s a)))
                         noise) = Some r /\
    b = to_uint8 r /\
    s' = set_memory s (push_memory s b).
Proof.
  unfold update. intros H.
  apply bind_Some in H as (noise & w1 & Hn & H).
  apply bind_Some in H as (r & w2 & Hr & H).
  apply lift_Some in Hr as [Hr E]. cbn [snd] in E. subst w2.
  apply ret_Some in H. inversion H; subst.
  exists noise, r. repeat split; assumption.
Qed.

Lemma set_memory_ok (s : SimulatedSensor) (m : list Z) :
  sensor_ok s -> length m = Z.to_nat MAX_MEMORY_SIZE ->
  sensor_ok (set_memory s m).
Proof. intros [H _] Hm. split; [exact H|exact Hm]. Qed.

(** [update] never writes the slots from [memory_size] on. *)
Lemma update_tail (lm : Libm) (s : SimulatedSensor) (a : float) (w : World)
    (b : Z) (s' : SimulatedSensor) (w' : World) :
  sensor_ok s ->
  update lm s a w = Some ((b, s'), w') ->
  skipn (Z.to_nat (memory_size s)) (memory s')
    = skipn (Z.to_nat (memory_size s)) (memory s).
Proof.
  intros Hok Hu.
  destruct (update_step _ _ _ _ _ _ _ Hok Hu) as (_ & _ & _ & Hz).
  destruct (Z.le_gt_cases 1 (memory_size s)) as [H1|H1].
  - pose proof (update_result _ _ _ _ _ _ _ Hu) as [-> _].
    cbn [set_memory memory].
    rewrite (push_memory_spec s b Hok H1).
    pose proof (history_length s Hok) as Hl.
    assert (Ht : Z.to_nat (memory_size s) = length (tl (history s) ++ [b])).
    { rewrite length_app. destruct (history s); simpl in *; lia. }
    change (tl (history s) ++ b :: skipn (Z.to_nat (memory_size s)) (memory s))
      with (tl (history s) ++ [b] ++ skipn (Z.to_nat (memory_size s)) (memory s)).
    rewrite app_assoc, Ht at 1.
    rewrite skipn_app, skipn_all, Nat.sub_diag. reflexivity.
  - now rewrite Hz by lia.
Qed.

Lemma update_many_tail (lm : Libm) (inputs : list float) :
  forall (s : SimulatedSensor) (w : World) (outs : list Z)
         (s' : SimulatedSensor) (w' : World),
    sensor_ok s ->
    update_many lm s inputs w = Some ((outs, s'), w') ->
    skipn (Z.to_nat (memory_size s)) (memory s')
      = skipn (Z.to_nat (memory_size s)) (memory s).
Proof.
  induction inputs as [|a tl IH]; intros s w outs s' w' Hok H.
  - apply ret_Some in H. inversion H; subst. reflexivity.
  - cbn [update_many] in H.
    apply bind_Some in H as ([b s1] & w1 & Hu & H).
    apply bind_Some in H as ([outs1 s2] & w2 & Hm & H).
    apply ret_Some in H. inversion H; subst; clear H. cbn [fst snd] in *.
    destruct (update_step _ _ _ _ _ _ _ Hok Hu) as (Hok1 & Hms1 & _).
    rewrite <- (update_tail _ _ _ _ _ _ _ Hok Hu).
    rewrite <- Hms1. now apply (IH _ _ _ _ _ Hok1 Hm).
Qed.


(** * Binary32 rounding *)

(** ** Bit lengths *)

Lemma digits2_pos_bounds (m : positive) :
  2 ^ (Zpos (digits2_pos m) - 1) <= Zpos m < 2 ^ Zpos (digits2_pos m).
Proof.
  induction m as [m IH|m IH|]; cbn [digits2_pos].
  - rewrite Pos2Z.inj_succ. change (Z.pos m~1) with (2 * Z.pos m + 1).
    replace (Z.succ (Zpos (digits2_pos m)) - 1) with (Z.succ (Zpos (digits2_pos m) - 1)) by lia.
    rewrite !Z.pow_succ_r by lia. plia.
  - rewrite Pos2Z.inj_succ. change (Z.pos m~0) with (2 * Z.pos m).
    replace (Z.succ (Zpos (digits2_pos m)) - 1) with (Z.succ (Zpos (digits2_pos m) - 1)) by lia.
    rewrite !Z.pow_succ_r by lia. plia.
  - split; [discriminate|reflexivity].
Qed.

Lemma Zdigits2_nonneg (z : Z) : 0 <= Zdigits2 z.
Proof. destruct z; cbn; lia. Qed.

Lemma Zdigits2_bounds (z : Z) :
  0 < z -> 2 ^ (Zdigits2 z - 1) <= z < 2 ^ Zdigits2 z.
Proof.
  destruct z as [|m|m]; try lia. intros _. apply digits2_pos_bounds.
Qed.

Lemma Zdigits2_unique (z d : Z) :
  2 ^ (d - 1) <= z < 2 ^ d -> 0 < z -> Zdigits2 z = d.
Proof.
  intros [H1 H2] Hz. pose proof (Zdigits2_bounds z Hz) as [B1 B2].
  pose proof (Zdigits2_nonneg z) as Hn.
  assert (Hd : 0 <= d).
  { destruct (Z.lt_ge_cases d 0) as [Hneg|]; [|assumption].
    rewrite (Z.pow_neg_r 2 d Hneg) in H2. lia. }
  destruct (Z.lt_trichotomy (Zdigits2 z) d) as [Hlt|[Heq|Hgt]]; [|assumption|].
  - assert (2 ^ Zdigits2 z <= 2 ^ (d - 1)) by (apply Z.pow_le_mono_r; lia). lia.
  - assert (2 ^ d <= 2 ^ (Zdigits2 z - 1)) by (apply Z.pow_le_mono_r; lia). lia.
Qed.

Lemma Zdigits2_mono (z1 z2 : Z) :
  0 <= z1 <= z2 -> Zdigits2 z1 <= Zdigits2 z2.
Proof.
  intros [H1 H2].
  destruct (Z.eq_dec z1 0) as [->|Hz]; [apply Zdigits2_nonneg|].
  pose proof (Zdigits2_bounds z1 ltac:(lia)) as [A1 A2].
  pose proof (Zdigits2_bounds z2 ltac:(lia)) as [B1 B2].
  destruct (Z.le_gt_cases (Zdigits2 z1) (Zdigits2 z2)) as [|Hgt]; [assumption|].
  assert (2 ^ Zdigits2 z2 <= 2 ^ (Zdigits2 z1 - 1)).
  { apply Z.pow_le_mono_r; [lia|]. lia. }
  lia.
Qed.

Lemma Zdigits2_lt_pow (z d : Z) :
  0 <= z < 2 ^ d -> 0 <= d -> Zdigits2 z <= d.
Proof.
  intros [H1 H2] Hd.
  destruct (Z.eq_dec z 0) as [->|Hz]; [cbn; lia|].
  pose proof (Zdigits2_bounds z ltac:(lia)) as [A1 A2].
  destruct (Z.le_gt_cases (Zdigits2 z) d) as [|Hgt]; [assumption|].
  assert (2 ^ d <= 2 ^ (Zdigits2 z - 1)) by (apply Z.pow_le_mono_r; lia).
  lia.
Qed.

Lemma Zdigits2_ge_pow (z d : Z) :
  2 ^ d <= z -> 0 <= d -> d + 1 <= Zdigits2 z.
Proof.
  intros H Hd.
  assert (0 < 2 ^ d) by (apply Z.pow_pos_nonneg; lia).
  pose proof (Zdigits2_bounds z ltac:(lia)) as [A1 A2].
  destruct (Z.le_gt_cases (d + 1) (Zdigits2 z)) as [|Hgt]; [assumption|].
  assert (2 ^ Zdigits2 z <= 2 ^ d).
  { apply Z.pow_le_mono_r; [lia|]. lia. }
  lia.
Qed.

(** ** Shifting a record to the right *)

Import Rnd.

Lemma record_of_loc_Rep (m : Z) (l : location) (a b : Z) :
  m = a / b -> l = loc_of (a mod b) b -> Rep (shr_record_of_loc m l) a b.
Proof.
  intros -> ->. unfold Rep.
  destruct (loc_of (a mod b) b) as [|[| |]]; split; reflexivity.
Qed.

Lemma shr_1_Rep (mrs : shr_record) (a b : Z) :
  0 <= a -> 0 < b -> Rep mrs a b -> Rep (shr_1 mrs) a (2 * b).
Proof.
  intros Ha Hb [Hm Hl].
  pose proof (Z.mod_pos_bound a b Hb) as Hr.
  pose proof (Z.div_pos a b Ha Hb) as Hq.
  assert (Hdiv : a / (2 * b) = a / b / 2).
  { rewrite (Z.mul_comm 2 b). rewrite Z.div_div; lia. }
  assert (Hmod : a mod (2 * b) = a mod b + b * ((a / b) mod 2)).
  { rewrite (Z.mul_comm 2 b). apply Z.rem_mul_r; lia. }
  unfold Rep. rewrite Hdiv, Hmod.
  destruct mrs as [m r s]. cbn [shr_m] in Hm. rewrite <- Hm in *.
  clear Hdiv Hmod Hm.
  remember (a mod b) as rr eqn:Err. clear Err.
  assert (Hz : (r || s = false <-> rr = 0) /\
               (r || s = true <-> rr <> 0)).
  { unfold loc_of in Hl. destruct (Z.eqb_spec rr 0) as [E|E];
      destruct r, s; cbn in Hl |- *; try discriminate Hl;
      split; split; intros; try lia; try reflexivity; try discriminate;
      try contradiction. }
  destruct Hz as [Hz1 Hz2].
  destruct m as [|[p|p|]|p]; try lia; cbn [shr_1 shr_m].
  - (* m = 0 *)
    change (0 / 2) with 0. change (0 mod 2) with 0.
    rewrite Z.mul_0_r, Z.add_0_r. split; [reflexivity|].
    unfold loc_of. cbn [loc_of_shr_record].
    destruct (Z.eqb_spec rr 0) as [E|E].
    + apply Hz1 in E. rewrite E. reflexivity.
    + apply Hz2 in E. rewrite E.
      destruct (Z.compare_spec (2 * rr) (2 * b)); try lia. reflexivity.
  - (* m = 2p + 1 *)
    change (Z.pos p~1) with (2 * Z.pos p + 1).
    replace ((2 * Z.pos p + 1) / 2) with (Z.pos p)
      by (apply Z.div_unique with 1; lia).
    replace ((2 * Z.pos p + 1) mod 2) with 1
      by (apply Z.mod_unique with (Z.pos p); lia).
    split; [reflexivity|].
    unfold loc_of. cbn [loc_of_shr_record].
    destruct (Z.eqb_spec (rr + b * 1) 0) as [E|E]; [lia|].
    destruct (Z.eq_dec rr 0) as [E0|E0].
    + rewrite (proj2 Hz1 E0).
      destruct (Z.compare_spec (2 * (rr + b * 1)) (2 * b)); try lia. reflexivity.
    + rewrite (proj2 Hz2 E0).
      destruct (Z.compare_spec (2 * (rr + b * 1)) (2 * b)); try lia. reflexivity.
  - (* m = 2p *)
    change (Z.pos p~0) with (2 * Z.pos p).
    replace (2 * Z.pos p / 2) with (Z.pos p)
      by (apply Z.div_unique with 0; lia).
    replace ((2 * Z.pos p) mod 2) with 0
      by (apply Z.mod_unique with (Z.pos p); lia).
    rewrite Z.mul_0_r, Z.add_0_r. split; [reflexivity|].
    unfold loc_of. cbn [loc_of_shr_record].
    destruct (Z.eqb_spec rr 0) as [E|E].
    + apply Hz1 in E. rewrite E. reflexivity.
    + apply Hz2 in E. rewrite E.
      destruct (Z.compare_spec (2 * rr) (2 * b)); try lia. reflexivity.
  - (* m = 1 *)
    change (1 / 2) with 0. change (1 mod 2) with 1.
    split; [reflexivity|].
    unfold loc_of. cbn [loc_of_shr_record].
    destruct (Z.eqb_spec (rr + b * 1) 0) as [E|E]; [lia|].
    destruct (Z.eq_dec rr 0) as [E0|E0].
    + rewrite (proj2 Hz1 E0).
      destruct (Z.compare_spec (2 * (rr + b * 1)) (2 * b)); try lia. reflexivity.
    + rewrite (proj2 Hz2 E0).
      destruct (Z.compare_spec (2 * (rr + b * 1)) (2 * b)); try lia. reflexivity.
Qed.

Lemma iter_shr_1_Rep (p : positive) :
  forall (mrs : shr_record) (a b : Z),
    0 <= a -> 0 < b -> Rep mrs a b ->
    Rep (iter_pos shr_1 p mrs) a (b * 2 ^ Zpos p).
Proof.
  induction p as [p IH|p IH|]; intros mrs a b Ha Hb H; cbn [iter_pos].
  - change (Z.pos p~1) with (2 * Z.pos p + 1).
    replace (b * 2 ^ (2 * Z.pos p + 1))
      with (2 * b * 2 ^ Z.pos p * 2 ^ Z.pos p).
    2:{ rewrite Z.pow_add_r, Z.pow_1_r by lia.
        replace (2 * Z.pos p) with (Z.pos p + Z.pos p) by lia.
        rewrite Z.pow_add_r by lia. ring. }
    assert (0 < 2 ^ Z.pos p) by (apply Z.pow_pos_nonneg; lia).
    apply IH; [lia|nia|]. apply IH; [lia|lia|]. now apply shr_1_Rep.
  - change (Z.pos p~0) with (2 * Z.pos p).
    replace (b * 2 ^ (2 * Z.pos p)) with (b * 2 ^ Z.pos p * 2 ^ Z.pos p).
    2:{ replace (2 * Z.pos p) with (Z.pos p + Z.pos p) by lia.
        rewrite Z.pow_add_r by lia. ring. }
    assert (0 < 2 ^ Z.pos p) by (apply Z.pow_pos_nonneg; lia).
    apply IH; [lia|nia|]. now apply IH.
  - change (2 ^ 1) with 2. rewrite Z.mul_comm. now apply shr_1_Rep.
Qed.

Lemma shr_Rep (mrs : shr_record) (e n a b : Z) :
  0 <= a -> 0 < b -> Rep mrs a b ->
  Rep (fst (shr mrs e n)) a (b * 2 ^ Z.max 0 n) /\
  snd (shr mrs e n) = e + Z.max 0 n.
Proof.
  intros Ha Hb H. destruct n as [|p|p]; cbn [shr fst snd].
  - cbn. rewrite Z.mul_1_r, Z.add_0_r. auto.
  - rewrite Z.max_r by lia. split; [now apply iter_shr_1_Rep|reflexivity].
  - rewrite Z.max_l by lia. cbn. rewrite Z.mul_1_r, Z.add_0_r. auto.
Qed.

(** ** Rounding to nearest, ties to even *)

Lemma RNE_bounds (a b : Z) :
  a / b <= RNE a b <= a / b + 1.
Proof.
  unfold RNE, round_nearest_even.
  destruct (loc_of (a mod b) b) as [|[| |]]; try lia.
  destruct (Z.even (a / b)); lia.
Qed.

Lemma binary_round_aux_eq (s : bool) (mx ex : Z) (lx : location) (a b : Z) :
  0 <= a -> 0 < b -> mx = a / b -> lx = loc_of (a mod b) b ->
  binary_round_aux F32.prec F32.emax s mx ex lx =
    normalize s (RNE a (b * 2 ^ Z.max 0 (fexp (Zdigits2 mx + ex) - ex)))
              (ex + Z.max 0 (fexp (Zdigits2 mx + ex) - ex)).
Proof.
  intros Ha Hb Hm Hl.
  unfold binary_round_aux, shr_fexp.
  pose proof (record_of_loc_Rep mx lx a b Hm Hl) as R0.
  pose proof (shr_Rep _ ex (SpecFloat.fexp F32.prec F32.emax (Zdigits2 mx + ex) - ex)
                a b Ha Hb R0) as [R1 E1].
  destruct (shr (shr_record_of_loc mx lx) ex
              (SpecFloat.fexp F32.prec F32.emax (Zdigits2 mx + ex) - ex))
    as [mrs' e'] eqn:S1.
  cbn [fst snd] in R1, E1. destruct R1 as [Rm Rl].
  rewrite Rm, Rl. fold (RNE a (b * 2 ^ Z.max 0
     (SpecFloat.fexp F32.prec F32.emax (Zdigits2 mx + ex) - ex))).
  fold (fexp (Zdigits2 mx + ex)) in *.
  set (n1 := Z.max 0 (fexp (Zdigits2 mx + ex) - ex)) in *.
  set (r := RNE a (b * 2 ^ n1)).
  assert (Hr : 0 <= r).
  { pose proof (RNE_bounds a (b * 2 ^ n1)).
    assert (0 < 2 ^ n1) by (apply Z.pow_pos_nonneg; lia).
    assert (0 <= a / (b * 2 ^ n1)) by (apply Z.div_pos; nia).
    subst r. lia. }
  assert (R2 : Rep (shr_record_of_loc r loc_Exact) r 1).
  { apply record_of_loc_Rep; [now rewrite Z.div_1_r|].
    now rewrite Z.mod_1_r. }
  pose proof (shr_Rep _ e' (SpecFloat.fexp F32.prec F32.emax (Zdigits2 r + e') - e')
                r 1 Hr ltac:(lia) R2) as [R3 E3].
  destruct (shr (shr_record_of_loc r loc_Exact) e'
              (SpecFloat.fexp F32.prec F32.emax (Zdigits2 r + e') - e'))
    as [mrs'' e''] eqn:S2.
  cbn [fst snd] in R3, E3. destruct R3 as [Rm3 _].
  rewrite Rm3, E3, E1. unfold normalize.
  fold (fexp (Zdigits2 r + (ex + n1))).
  rewrite Z.mul_1_l. reflexivity.
Qed.

Lemma fexp_eq (e : Z) : fexp e = Z.max (e - 24) (-149).
Proof. reflexivity. Qed.

Lemma loc_of_scale (r b c : Z) :
  0 < c -> loc_of (r * c) (b * c) = loc_of r b.
Proof.
  intros Hc. unfold loc_of.
  destruct (Z.eqb_spec (r * c) 0) as [E|E];
    destruct (Z.eqb_spec r 0) as [E'|E']; try nia; try reflexivity.
  f_equal.
  destruct (Z.compare_spec (2 * (r * c)) (b * c));
    destruct (Z.compare_spec (2 * r) b); try reflexivity; nia.
Qed.

Lemma RNE_scale (a b c : Z) :
  0 < b -> 0 < c -> RNE (a * c) (b * c) = RNE a b.
Proof.
  intros Hb Hc. unfold RNE.
  rewrite Z.div_mul_cancel_r by lia.
  rewrite Z.mul_mod_distr_r by lia.
  now rewrite loc_of_scale.
Qed.

(** The bit length of a quotient scaled by a power of two. *)
Lemma Zdigits2_scaled (a b k : Z) :
  0 <= a -> 0 < b -> 0 <= k -> 0 < a / b ->
  Zdigits2 (a * 2 ^ k / b) = Zdigits2 (a / b) + k.
Proof.
  intros Ha Hb Hk Hq.
  pose proof (Zdigits2_bounds (a / b) Hq) as [B1 B2].
  pose proof (Zdigits2_nonneg (a / b)) as Hd.
  assert (Hd1 : 1 <= Zdigits2 (a / b)).
  { destruct (a / b); cbn in *; lia. }
  assert (Hp : 0 < 2 ^ k) by (apply Z.pow_pos_nonneg; lia).
  pose proof (Z.mul_div_le a b Hb) as M1.
  pose proof (Z.mul_succ_div_gt a b Hb) as M2.
  assert (L : a / b * 2 ^ k <= a * 2 ^ k / b).
  { apply Z.div_le_lower_bound; [lia|]. nia. }
  assert (U : a * 2 ^ k / b < (a / b + 1) * 2 ^ k).
  { apply Z.div_lt_upper_bound; [lia|]. nia. }
  apply Zdigits2_unique; [|nia].
  replace (Zdigits2 (a / b) + k - 1) with ((Zdigits2 (a / b) - 1) + k) by lia.
  rewrite !Z.pow_add_r by lia. split; nia.
Qed.

Lemma round_aux_Round (s : bool) (mx ex : Z) (lx : location) (a b : Z) :
  0 <= a -> 0 < b -> mx = a / b -> lx = loc_of (a mod b) b ->
  0 <= ex + K ->
  ex <= fexp (Zdigits2 mx + ex) ->
  binary_round_aux F32.prec F32.emax s mx ex lx = Round s (a * 2 ^ (ex + K)) b.
Proof.
  intros Ha Hb Hm Hl HK Hpre.
  rewrite (binary_round_aux_eq s mx ex lx a b Ha Hb Hm Hl).
  unfold Round.
  assert (Hp : 0 < 2 ^ (ex + K)) by (apply Z.pow_pos_nonneg; lia).
  assert (HE : fexp (Zdigits2 (a * 2 ^ (ex + K) / b) - K)
               = fexp (Zdigits2 mx + ex)).
  { pose proof (Z.div_pos a b Ha Hb) as Hq.
    destruct (Z.eq_dec (a / b) 0) as [E0|E0].
    - rewrite Hm, E0 in *. cbn [Zdigits2] in *.
      assert (Hlt : a < b).
      { pose proof (Z.mul_succ_div_gt a b Hb). rewrite E0 in *. lia. }
      assert (Hu : a * 2 ^ (ex + K) / b < 2 ^ (ex + K)).
      { apply Z.div_lt_upper_bound; [lia|]. nia. }
      assert (Hl0 : 0 <= a * 2 ^ (ex + K) / b) by (apply Z.div_pos; nia).
      pose proof (Zdigits2_lt_pow _ (ex + K) (conj Hl0 Hu) HK) as Hd.
      rewrite fexp_eq in *. rewrite fexp_eq. lia.
    - rewrite Zdigits2_scaled by lia. rewrite Hm. f_equal. lia. }
  rewrite HE.
  set (E := fexp (Zdigits2 mx + ex)) in *.
  rewrite Z.max_r by lia.
  replace (ex + (E - ex)) with E by lia.
  f_equal.
  replace (b * 2 ^ (E + K)) with (b * 2 ^ (E - ex) * 2 ^ (ex + K)).
  2:{ rewrite <- Z.mul_assoc, <- Z.pow_add_r by lia. do 2 f_equal. lia. }
  assert (0 < 2 ^ (E - ex)) by (apply Z.pow_pos_nonneg; lia).
  symmetry. apply RNE_scale; nia.
Qed.

(** ** The shape of a rounded result *)

Lemma div_cross_le (a1 b1 a2 b2 : Z) :
  0 < b1 -> 0 < b2 -> a1 * b2 <= a2 * b1 -> a1 / b1 <= a2 / b2.
Proof.
  intros H1 H2 H.
  apply Z.div_le_lower_bound; [lia|].
  pose proof (Z.mul_div_le a1 b1 H1).
  destruct (Z.le_gt_cases (b2 * (a1 / b1)) a2) as [|Hgt]; [assumption|].
  exfalso. nia.
Qed.

Lemma RNE_mono (a1 b1 a2 b2 : Z) :
  0 < b1 -> 0 < b2 -> a1 * b2 <= a2 * b1 -> RNE a1 b1 <= RNE a2 b2.
Proof.
  intros H1 H2 H.
  pose proof (div_cross_le a1 b1 a2 b2 H1 H2 H) as Hq.
  pose proof (RNE_bounds a1 b1) as B1. pose proof (RNE_bounds a2 b2) as B2.
  destruct (Z.eq_dec (a1 / b1) (a2 / b2)) as [E|E]; [|lia].
  pose proof (Z.div_mod a1 b1 ltac:(lia)) as D1.
  pose proof (Z.div_mod a2 b2 ltac:(lia)) as D2.
  pose proof (Z.mod_pos_bound a1 b1 H1) as R1.
  pose proof (Z.mod_pos_bound a2 b2 H2) as R2.
  assert (Hr : (a1 mod b1) * b2 <= (a2 mod b2) * b1) by nia.
  unfold RNE, round_nearest_even, loc_of. rewrite <- E.
  destruct (Z.eqb_spec (a1 mod b1) 0) as [Z1|Z1];
    destruct (Z.eqb_spec (a2 mod b2) 0) as [Z2|Z2].
  - lia.
  - destruct (Z.compare_spec (2 * (a2 mod b2)) b2);
      try destruct (Z.even (a1 / b1)); lia.
  - exfalso. nia.
  - destruct (Z.compare_spec (2 * (a1 mod b1)) b1);
      destruct (Z.compare_spec (2 * (a2 mod b2)) b2);
      try destruct (Z.even (a1 / b1)); try lia; exfalso; nia.
Qed.

(** The exponent and the quotient [Round] works with. *)
Lemma Round_quotient (A B : Z) :
  0 <= A -> 0 < B ->
  let E := fexp (Zdigits2 (A / B) - K) in
  let q := A / (B * 2 ^ (E + K)) in
  -149 <= E /\ 0 <= q < 2 ^ 24 /\ (-149 < E -> 2 ^ 23 <= q).
Proof.
  intros HA HB E q.
  assert (HE : -149 <= E) by (subst E; rewrite fexp_eq; lia).
  assert (HK : 0 <= E + K) by (unfold K; lia).
  assert (Hp : 0 < 2 ^ (E + K)) by (apply Z.pow_pos_nonneg; lia).
  assert (Hq : q = A / B / 2 ^ (E + K)).
  { subst q. rewrite Z.div_div; lia. }
  pose proof (Z.div_pos A B HA HB) as Hn.
  pose proof (Zdigits2_nonneg (A / B)) as Hd.
  split; [exact HE|]. rewrite Hq. split; [split|].
  - apply Z.div_pos; lia.
  - apply Z.div_lt_upper_bound; [lia|].
    destruct (Z.eq_dec (A / B) 0) as [E0|E0]; [rewrite E0; lia|].
    pose proof (Zdigits2_bounds (A / B) ltac:(lia)) as [_ B2].
    rewrite <- Z.pow_add_r by lia.
    assert (2 ^ Zdigits2 (A / B) <= 2 ^ (E + K + 24)).
    { apply Z.pow_le_mono_r; [lia|]. subst E. rewrite fexp_eq. lia. }
    lia.
  - intros Hn1.
    assert (Ed : E = Zdigits2 (A / B) - K - 24).
    { subst E. rewrite fexp_eq in *. lia. }
    assert (Hpos : 0 < A / B).
    { destruct (Z.eq_dec (A / B) 0) as [E0|E0]; [|lia].
      rewrite E0 in Ed. cbn [Zdigits2] in Ed. unfold K in Ed. lia. }
    pose proof (Zdigits2_bounds (A / B) Hpos) as [B1 _].
    apply Z.div_le_lower_bound; [lia|].
    rewrite <- Z.pow_add_r by lia.
    replace (E + K + 23) with (Zdigits2 (A / B) - 1) by lia. exact B1.
Qed.

Lemma normalize_cases (s : bool) (r E : Z) :
  0 <= r <= 2 ^ 24 -> -149 <= E ->
  (r = 0 /\ normalize s r E = S754_zero s) \/
  (0 < r < 2 ^ 24 /\
   normalize s r E =
     if E <=? 104 then S754_finite s (Z.to_pos r) E else S754_infinity s) \/
  (r = 2 ^ 24 /\
   normalize s r E =
     if E + 1 <=? 104 then S754_finite s (Z.to_pos (2 ^ 23)) (E + 1)
     else S754_infinity s).
Proof.
  intros [H0 H1] HE. unfold normalize.
  destruct (Z.eq_dec r 0) as [->|Hz]; [left; split; reflexivity|].
  destruct (Z.eq_dec r (2 ^ 24)) as [->|Hm].
  - right; right. split; [reflexivity|].
    change (Zdigits2 (2 ^ 24)) with 25. rewrite fexp_eq.
    replace (Z.max 0 (Z.max (25 + E - 24) (-149) - E)) with 1 by lia.
    reflexivity.
  - right; left. split; [lia|].
    assert (Hd : Zdigits2 r <= 24) by (apply Zdigits2_lt_pow; lia).
    rewrite fexp_eq.
    replace (Z.max 0 (Z.max (Zdigits2 r + E - 24) (-149) - E)) with 0 by lia.
    rewrite Z.pow_0_r, Z.div_1_r, Z.add_0_r.
    destruct r as [|p|p]; try lia. reflexivity.
Qed.

(** ** Rounding is monotone *)

Lemma key_ok_key (A B : Z) : 0 <= A -> 0 < B -> key_ok (key A B).
Proof.
  intros HA HB. unfold key.
  pose proof (Round_quotient A B HA HB) as (HE & Hq & Hn).
  cbv zeta in HE, Hq, Hn.
  set (E := fexp (Zdigits2 (A / B) - K)) in *.
  pose proof (RNE_bounds A (B * 2 ^ (E + K))) as Hr.
  destruct (Z.eqb_spec (RNE A (B * 2 ^ (E + K))) (2 ^ 24)) as [E1|E1];
    unfold key_ok; cbn [fst snd].
  - split; [lia|]. split; [split; [apply Z.pow_nonneg; lia|]|intros _; lia].
    apply Z.pow_lt_mono_r; lia.
  - split; [lia|]. split; [lia|]. intros H. specialize (Hn H). lia.
Qed.

Lemma Round_of_key (s : bool) (A B : Z) :
  0 <= A -> 0 < B -> Round s A B = of_key s (key A B).
Proof.
  intros HA HB. unfold Round, key.
  pose proof (Round_quotient A B HA HB) as (HE & Hq & Hn).
  cbv zeta in HE, Hq, Hn.
  set (E := fexp (Zdigits2 (A / B) - K)) in *.
  pose proof (RNE_bounds A (B * 2 ^ (E + K))) as Hr.
  set (r := RNE A (B * 2 ^ (E + K))) in *.
  destruct (normalize_cases s r E ltac:(lia) HE)
    as [[H0 ->]|[[H1 ->]|[H2 ->]]].
  - rewrite H0. reflexivity.
  - destruct (Z.eqb_spec r (2 ^ 24)) as [E1|E1]; [lia|].
    unfold of_key. cbn [fst snd].
    destruct r as [|p|p]; try lia. reflexivity.
  - destruct (Z.eqb_spec r (2 ^ 24)) as [E1|E1]; [|lia].
    reflexivity.
Qed.

Lemma fexp_mono (e1 e2 : Z) : e1 <= e2 -> fexp e1 <= fexp e2.
Proof. intros H. rewrite !fexp_eq. lia. Qed.

Lemma key_mono (A1 B1 A2 B2 : Z) :
  0 <= A1 -> 0 < B1 -> 0 <= A2 -> 0 < B2 ->
  A1 * B2 <= A2 * B1 ->
  key_le (key A1 B1) (key A2 B2).
Proof.
  intros HA1 HB1 HA2 HB2 H.
  pose proof (key_ok_key A2 B2 HA2 HB2) as Hok2.
  pose proof (Round_quotient A1 B1 HA1 HB1) as (HE1 & Hq1 & Hn1).
  pose proof (Round_quotient A2 B2 HA2 HB2) as (HE2 & Hq2 & Hn2).
  cbv zeta in *.
  assert (HE : fexp (Zdigits2 (A1 / B1) - K) <= fexp (Zdigits2 (A2 / B2) - K)).
  { apply fexp_mono.
    assert (Zdigits2 (A1 / B1) <= Zdigits2 (A2 / B2)); [|lia].
    apply Zdigits2_mono. split; [apply Z.div_pos; lia|].
    now apply div_cross_le. }
  unfold key, key_ok in *.
  set (E1 := fexp (Zdigits2 (A1 / B1) - K)) in *.
  set (E2 := fexp (Zdigits2 (A2 / B2) - K)) in *.
  pose proof (RNE_bounds A1 (B1 * 2 ^ (E1 + K))) as Hr1.
  pose proof (RNE_bounds A2 (B2 * 2 ^ (E2 + K))) as Hr2.
  assert (P1 : 0 < 2 ^ (E1 + K)) by (apply Z.pow_pos_nonneg; unfold K; lia).
  assert (P2 : 0 < 2 ^ (E2 + K)) by (apply Z.pow_pos_nonneg; unfold K; lia).
  assert (P24 : 2 ^ 23 < 2 ^ 24) by (apply Z.pow_lt_mono_r; lia).
  destruct (Z.eq_dec E1 E2) as [Ee|Ee].
  - assert (Hr : RNE A1 (B1 * 2 ^ (E1 + K)) <= RNE A2 (B2 * 2 ^ (E2 + K))).
    { rewrite <- Ee. apply RNE_mono; nia. }
    unfold key_le.
    destruct (Z.eqb_spec (RNE A1 (B1 * 2 ^ (E1 + K))) (2 ^ 24));
      destruct (Z.eqb_spec (RNE A2 (B2 * 2 ^ (E2 + K))) (2 ^ 24));
      cbn [fst snd]; lia.
  - assert (Hn : 2 ^ 23 <= A2 / (B2 * 2 ^ (E2 + K))) by (apply Hn2; lia).
    unfold key_le.
    destruct (Z.eqb_spec (RNE A1 (B1 * 2 ^ (E1 + K))) (2 ^ 24));
      destruct (Z.eqb_spec (RNE A2 (B2 * 2 ^ (E2 + K))) (2 ^ 24));
      cbn [fst snd]; lia.
Qed.

Lemma of_key_leb (k1 k2 : Z * Z) :
  key_ok k1 -> key_ok k2 -> key_le k1 k2 ->
  F32.leb (of_key false k1) (of_key false k2) = true.
Proof.
  destruct k1 as [e1 m1], k2 as [e2 m2].
  unfold key_ok, key_le, of_key. cbn [fst snd].
  intros (A1 & A2 & A3) (B1 & B2 & B3) H.
  change (2 ^ 24) with 16777216 in *. change (2 ^ 23) with 8388608 in *.
  change (F32.emax - F32.prec) with 104.
  destruct m1 as [|p1|p1]; try lia; destruct m2 as [|p2|p2]; try lia.
  - reflexivity.
  - destruct (e2 <=? 104); reflexivity.
  - destruct (Z.leb_spec e1 104) as [L1|L1];
      destruct (Z.leb_spec e2 104) as [L2|L2]; try reflexivity; try lia.
    unfold F32.leb, SFleb, SFcompare.
    destruct (Z.compare_spec e1 e2) as [Ee|Ee|Ee]; try reflexivity; try lia.
    rewrite Pos.compare_cont_spec. cbn [Pos.switch_Eq].
    destruct (Pos.compare_spec p1 p2); try reflexivity; lia.
Qed.

(** [A1 / B1 <= A2 / B2] gives [Round A1 B1 <= Round A2 B2]. *)
Lemma Round_mono (A1 B1 A2 B2 : Z) :
  0 <= A1 -> 0 < B1 -> 0 <= A2 -> 0 < B2 ->
  A1 * B2 <= A2 * B1 ->
  F32.leb (Round false A1 B1) (Round false A2 B2) = true.
Proof.
  intros HA1 HB1 HA2 HB2 H.
  rewrite !Round_of_key by assumption.
  apply of_key_leb; try apply key_ok_key; try assumption.
  now apply key_mono.
Qed.

(** ** Members of the format *)

Lemma valid_finite (s : bool) (m : positive) (e : Z) :
  F32.valid (S754_finite s m e) = true ->
  e <= 104 /\ key_ok (e, Zpos m) /\ 0 < U m e.
Proof.
  unfold F32.valid, valid_binary, bounded, canonical_mantissa.
  intros H. apply andb_true_iff in H as [H1 H2].
  apply Z.eqb_eq in H1. apply Z.leb_le in H2.
  change (F32.emax - F32.prec) with 104 in H2.
  fold (fexp (Z.pos (digits2_pos m) + e)) in H1. rewrite fexp_eq in H1.
  pose proof (digits2_pos_bounds m) as [B1 B2].
  assert (Hd : Z.pos (digits2_pos m) <= 24) by lia.
  assert (Hu : 2 ^ Z.pos (digits2_pos m) <= 2 ^ 24)
    by (apply Z.pow_le_mono_r; lia).
  split; [exact H2|]. split.
  - unfold key_ok. cbn [fst snd]. split; [lia|]. split; [lia|].
    intros Hn. replace (Z.pos (digits2_pos m)) with 24 in B1 by lia.
    exact B1.
  - unfold U. assert (0 < 2 ^ (e + 149)) by (apply Z.pow_pos_nonneg; lia).
    nia.
Qed.

(** On members of the format the comparison is that of the values. *)
Lemma compare_U (m1 : positive) (e1 : Z) (m2 : positive) (e2 : Z) :
  key_ok (e1, Zpos m1) -> key_ok (e2, Zpos m2) ->
  SFcompare (S754_finite false m1 e1) (S754_finite false m2 e2) =
    Some (U m1 e1 ?= U m2 e2).
Proof.
  unfold key_ok, U. cbn [fst snd SFcompare].
  intros (A1 & A2 & A3) (B1 & B2 & B3). f_equal.
  assert (P1 : 0 < 2 ^ (e1 + 149)) by (apply Z.pow_pos_nonneg; lia).
  assert (P2 : 0 < 2 ^ (e2 + 149)) by (apply Z.pow_pos_nonneg; lia).
  destruct (Z.compare_spec e1 e2) as [Ee|Ee|Ee].
  - subst e2. rewrite Pos.compare_cont_spec. cbn [Pos.switch_Eq].
    change (m1 ?= m2)%positive with (Z.pos m1 ?= Z.pos m2).
    destruct (Z.compare_spec (Z.pos m1) (Z.pos m2));
      destruct (Z.compare_spec (Z.pos m1 * 2 ^ (e1 + 149))
                               (Z.pos m2 * 2 ^ (e1 + 149)));
      try reflexivity; exfalso; nia.
  - symmetry. apply Z.compare_lt_iff.
    specialize (B3 ltac:(lia)).
    replace (e2 + 149) with ((e2 - e1 - 1) + 1 + (e1 + 149)) by lia.
    rewrite (Z.pow_add_r 2 (e2 - e1 - 1 + 1) (e1 + 149)) by lia.
    rewrite (Z.pow_add_r 2 (e2 - e1 - 1) 1) by lia.
    assert (0 < 2 ^ (e2 - e1 - 1)) by (apply Z.pow_pos_nonneg; lia).
    change (2 ^ 1) with 2. change (2 ^ 24) with 16777216 in *.
    change (2 ^ 23) with 8388608 in *.
    assert (Z.pos m1 * 2 ^ (e1 + 149) < 2 * Z.pos m2 * 2 ^ (e1 + 149)) by nia.
    assert (2 * Z.pos m2 * 2 ^ (e1 + 149)
            <= Z.pos m2 * (2 ^ (e2 - e1 - 1) * 2 * 2 ^ (e1 + 149))) by nia.
    lia.
  - symmetry. apply Z.compare_gt_iff.
    specialize (A3 ltac:(lia)).
    replace (e1 + 149) with ((e1 - e2 - 1) + 1 + (e2 + 149)) by lia.
    rewrite (Z.pow_add_r 2 (e1 - e2 - 1 + 1) (e2 + 149)) by lia.
    rewrite (Z.pow_add_r 2 (e1 - e2 - 1) 1) by lia.
    assert (0 < 2 ^ (e1 - e2 - 1)) by (apply Z.pow_pos_nonneg; lia).
    change (2 ^ 1) with 2. change (2 ^ 24) with 16777216 in *.
    change (2 ^ 23) with 8388608 in *.
    assert (Z.pos m2 * 2 ^ (e2 + 149) < 2 * Z.pos m1 * 2 ^ (e2 + 149)) by nia.
    assert (2 * Z.pos m1 * 2 ^ (e2 + 149)
            <= Z.pos m1 * (2 ^ (e1 - e2 - 1) * 2 * 2 ^ (e2 + 149))) by nia.
    lia.
Qed.

Lemma leb_U (m1 : positive) (e1 : Z) (m2 : positive) (e2 : Z) :
  F32.valid (S754_finite false m1 e1) = true ->
  F32.valid (S754_finite false m2 e2) = true ->
  F32.leb (S754_finite false m1 e1) (S754_finite false m2 e2) = true <->
  U m1 e1 <= U m2 e2.
Proof.
  intros V1 V2.
  apply valid_finite in V1 as (_ & K1 & _).
  apply valid_finite in V2 as (_ & K2 & _).
  unfold F32.leb, SFleb. rewrite (compare_U _ _ _ _ K1 K2).
  destruct (Z.compare_spec (U m1 e1) (U m2 e2)); split; intros;
    try reflexivity; try lia; discriminate.
Qed.

Lemma ltb_U (m1 : positive) (e1 : Z) (m2 : positive) (e2 : Z) :
  F32.valid (S754_finite false m1 e1) = true ->
  F32.valid (S754_finite false m2 e2) = true ->
  F32.ltb (S754_finite false m1 e1) (S754_finite false m2 e2) = true <->
  U m1 e1 < U m2 e2.
Proof.
  intros V1 V2.
  apply valid_finite in V1 as (_ & K1 & _).
  apply valid_finite in V2 as (_ & K2 & _).
  unfold F32.ltb, SFltb. rewrite (compare_U _ _ _ _ K1 K2).
  destruct (Z.compare_spec (U m1 e1) (U m2 e2)); split; intros;
    try reflexivity; try lia; discriminate.
Qed.

(** ** The operations as roundings *)

Lemma Round_scale (s : bool) (A B c : Z) :
  0 < B -> 0 < c -> Round s (A * c) (B * c) = Round s A B.
Proof.
  intros HB Hc. unfold Round.
  rewrite Z.div_mul_cancel_r by lia.
  set (E := fexp (Zdigits2 (A / B) - K)).
  assert (HE : -149 <= E) by (subst E; rewrite fexp_eq; lia).
  assert (0 < 2 ^ (E + K)) by (apply Z.pow_pos_nonneg; unfold K; lia).
  replace (B * c * 2 ^ (E + K)) with (B * 2 ^ (E + K) * c) by ring.
  rewrite RNE_scale by nia. reflexivity.
Qed.

Lemma U_split (m1 : positive) (e1 : Z) (m2 : positive) (e2 : Z) :
  -149 <= e1 -> -149 <= e2 ->
  U m1 e1 * U m2 e2 = Z.pos (m1 * m2) * 2 ^ (e1 + e2 + K).
Proof.
  intros H1 H2. unfold U, K.
  replace (e1 + e2 + 298) with ((e1 + 149) + (e2 + 149)) by lia.
  rewrite (Z.pow_add_r 2 (e1 + 149) (e2 + 149)) by lia.
  rewrite Pos2Z.inj_mul. ring.
Qed.

Lemma mul_Round (s1 : bool) (m1 : positive) (e1 : Z)
    (s2 : bool) (m2 : positive) (e2 : Z) :
  F32.valid (S754_finite s1 m1 e1) = true ->
  F32.valid (S754_finite s2 m2 e2) = true ->
  F32.mul (S754_finite s1 m1 e1) (S754_finite s2 m2 e2) =
    Round (xorb s1 s2) (U m1 e1 * U m2 e2) 1.
Proof.
  intros V1 V2.
  apply valid_finite in V1 as (L1 & (A1 & A2 & A3) & _).
  apply valid_finite in V2 as (L2 & (B1 & B2 & B3) & _).
  cbn [fst snd] in *.
  unfold F32.mul, SFmul.
  rewrite (round_aux_Round _ _ _ _ (Z.pos (m1 * m2)) 1).
  - now rewrite U_split.
  - lia.
  - lia.
  - now rewrite Z.div_1_r.
  - now rewrite Z.mod_1_r.
  - unfold K. lia.
  - rewrite fexp_eq. rewrite Pos2Z.inj_mul.
    change (2 ^ 24) with 16777216 in *. change (2 ^ 23) with 8388608 in *.
    destruct (Z.eq_dec e1 (-149)) as [E1|E1];
      destruct (Z.eq_dec e2 (-149)) as [E2|E2]; try lia.
    + assert (2 ^ 23 <= Z.pos m1 * Z.pos m2)
        by (change (2 ^ 23) with 8388608; nia).
      pose proof (Zdigits2_ge_pow _ 23 H ltac:(lia)). lia.
    + assert (2 ^ 23 <= Z.pos m1 * Z.pos m2)
        by (change (2 ^ 23) with 8388608; nia).
      pose proof (Zdigits2_ge_pow _ 23 H ltac:(lia)). lia.
    + assert (2 ^ 46 <= Z.pos m1 * Z.pos m2)
        by (change (2 ^ 46) with (8388608 * 8388608); nia).
      pose proof (Zdigits2_ge_pow _ 46 H ltac:(lia)). lia.
Qed.

Lemma iter_xO (d m : positive) :
  Z.pos (Pos.iter xO m d) = Z.pos m * 2 ^ Z.pos d.
Proof.
  induction d as [|d IH] using Pos.peano_ind.
  - cbn [Pos.iter]. change (2 ^ 1) with 2. lia.
  - rewrite Pos.iter_succ, Pos2Z.inj_succ, Z.pow_succ_r by lia.
    change (Z.pos (Pos.iter xO m d)~0) with (2 * Z.pos (Pos.iter xO m d)).
    rewrite IH. ring.
Qed.

Lemma shl_align_spec (m : positive) (e e' : Z) :
  (e' < e /\ snd (shl_align m e e') = e' /\
   Z.pos (fst (shl_align m e e')) = Z.pos m * 2 ^ (e - e')) \/
  (e <= e' /\ shl_align m e e' = (m, e)).
Proof.
  unfold shl_align. destruct (e' - e) as [|d|d] eqn:Ed.
  - right. split; [lia|reflexivity].
  - right. split; [lia|reflexivity].
  - left. cbn [fst snd]. split; [lia|]. split; [reflexivity|].
    rewrite iter_xO. do 2 f_equal. lia.
Qed.

Lemma Zdigits2_mul_pow (z k : Z) :
  0 < z -> 0 <= k -> Zdigits2 (z * 2 ^ k) = Zdigits2 z + k.
Proof.
  intros Hz Hk. pose proof (Zdigits2_bounds z Hz) as [B1 B2].
  assert (Hd : 1 <= Zdigits2 z) by (destruct z; cbn in *; lia).
  assert (Hp : 0 < 2 ^ k) by (apply Z.pow_pos_nonneg; lia).
  apply Zdigits2_unique; [|nia].
  replace (Zdigits2 z + k - 1) with ((Zdigits2 z - 1) + k) by lia.
  rewrite (Z.pow_add_r 2 (Zdigits2 z - 1) k) by lia.
  rewrite (Z.pow_add_r 2 (Zdigits2 z) k) by lia.
  split; nia.
Qed.

Lemma binary_round_Round (s : bool) (m : positive) (e : Z) :
  -149 <= e ->
  binary_round F32.prec F32.emax s m e = Round s (Z.pos m * 2 ^ (e + K)) 1.
Proof.
  intros He. unfold binary_round.
  fold (fexp (Z.pos (digits2_pos m) + e)).
  set (e' := fexp (Z.pos (digits2_pos m) + e)).
  assert (He' : -149 <= e') by (subst e'; rewrite fexp_eq; lia).
  destruct (shl_align_spec m e e') as [(Hlt & Hs & Hf)|(Hle & Heq)].
  - destruct (shl_align m e e') as [mz ez]. cbn [fst snd] in Hs, Hf. subst ez.
    rewrite (round_aux_Round _ _ _ _ (Z.pos mz) 1).
    + f_equal. rewrite Hf, <- Z.mul_assoc. f_equal.
      rewrite <- Z.pow_add_r by (unfold K; lia). f_equal. lia.
    + lia.
    + lia.
    + now rewrite Z.div_1_r.
    + now rewrite Z.mod_1_r.
    + unfold K. lia.
    + rewrite Hf, Zdigits2_mul_pow by lia.
      change (Zdigits2 (Z.pos m)) with (Z.pos (digits2_pos m)).
      replace (Z.pos (digits2_pos m) + (e - e') + e')
        with (Z.pos (digits2_pos m) + e) by lia.
      fold e'. lia.
  - rewrite Heq.
    rewrite (round_aux_Round _ _ _ _ (Z.pos m) 1).
    + reflexivity.
    + lia.
    + lia.
    + now rewrite Z.div_1_r.
    + now rewrite Z.mod_1_r.
    + unfold K. lia.
    + exact Hle.
Qed.

Lemma of_Z_Round (z : positive) :
  F32.of_Z (Z.pos z) = Round false (Z.pos z * 2 ^ K) 1.
Proof.
  unfold F32.of_Z, binary_normalize.
  rewrite binary_round_Round by lia. reflexivity.
Qed.

Lemma add_Round (m1 : positive) (e1 : Z) (m2 : positive) (e2 : Z) :
  -149 <= e1 -> -149 <= e2 ->
  F32.add (S754_finite false m1 e1) (S754_finite false m2 e2) =
    Round false ((U m1 e1 + U m2 e2) * 2 ^ 149) 1.
Proof.
  intros H1 H2. unfold F32.add, SFadd. cbn [cond_Zopp].
  set (ez := Z.min e1 e2).
  assert (F1 : Z.pos (fst (shl_align m1 e1 ez)) = Z.pos m1 * 2 ^ (e1 - ez)).
  { destruct (shl_align_spec m1 e1 ez) as [(_ & _ & Hf)|(Hle & Heq)];
      [exact Hf|].
    rewrite Heq. cbn [fst]. replace (e1 - ez) with 0 by (subst ez; lia).
    lia. }
  assert (F2 : Z.pos (fst (shl_align m2 e2 ez)) = Z.pos m2 * 2 ^ (e2 - ez)).
  { destruct (shl_align_spec m2 e2 ez) as [(_ & _ & Hf)|(Hle & Heq)];
      [exact Hf|].
    rewrite Heq. cbn [fst]. replace (e2 - ez) with 0 by (subst ez; lia).
    lia. }
  rewrite F1, F2.
  assert (P1 : 0 < 2 ^ (e1 - ez)) by (apply Z.pow_pos_nonneg; subst ez; lia).
  assert (P2 : 0 < 2 ^ (e2 - ez)) by (apply Z.pow_pos_nonneg; subst ez; lia).
  destruct (Z.pos m1 * 2 ^ (e1 - ez) + Z.pos m2 * 2 ^ (e2 - ez))
    as [|p|p] eqn:Es; try nia.
  cbn [binary_normalize].
  rewrite binary_round_Round by (subst ez; lia).
  f_equal. rewrite <- Es. unfold U, K.
  replace (ez + 298) with ((ez + 149) + 149) by lia.
  rewrite (Z.pow_add_r 2 (ez + 149) 149) by (subst ez; lia).
  replace (e1 + 149) with ((e1 - ez) + (ez + 149)) by lia.
  replace (e2 + 149) with ((e2 - ez) + (ez + 149)) by lia.
  rewrite (Z.pow_add_r 2 (e1 - ez) (ez + 149)) by (subst ez; lia).
  rewrite (Z.pow_add_r 2 (e2 - ez) (ez + 149)) by (subst ez; lia).
  ring.
Qed.

Lemma new_location_loc (nb k : Z) :
  0 <= k < nb -> new_location nb k = loc_of k nb.
Proof.
  intros Hk. unfold new_location, new_location_even, new_location_odd, loc_of.
  destruct (Z.even nb) eqn:Ev; [reflexivity|].
  destruct (Z.eqb_spec k 0) as [E|E]; [reflexivity|]. f_equal.
  assert (Ho : Z.odd nb = true) by (rewrite <- Z.negb_even, Ev; reflexivity).
  apply Z.odd_spec in Ho as [j Hj].
  destruct (Z.compare_spec (2 * k + 1) nb);
    destruct (Z.compare_spec (2 * k) nb); try reflexivity; lia.
Qed.

Lemma div_Round (s1 : bool) (m1 : positive) (e1 : Z)
    (s2 : bool) (m2 : positive) (e2 : Z) :
  F32.valid (S754_finite s1 m1 e1) = true ->
  F32.valid (S754_finite s2 m2 e2) = true ->
  F32.div (S754_finite s1 m1 e1) (S754_finite s2 m2 e2) =
    Round (xorb s1 s2) (U m1 e1 * 2 ^ K) (U m2 e2).
Proof.
  intros V1 V2.
  apply valid_finite in V1 as (L1 & (A1 & A2 & A3) & _).
  apply valid_finite in V2 as (L2 & (B1 & B2 & B3) & _).
  cbn [fst snd] in *.
  unfold F32.div, SFdiv, SFdiv_core_binary.
  fold (fexp (Zdigits2 (Z.pos m1) + e1 - (Zdigits2 (Z.pos m2) + e2))).
  set (d1 := Zdigits2 (Z.pos m1)). set (d2 := Zdigits2 (Z.pos m2)).
  pose proof (Zdigits2_bounds (Z.pos m1) ltac:(lia)) as [D1 D1'].
  pose proof (Zdigits2_bounds (Z.pos m2) ltac:(lia)) as [D2 D2'].
  fold d1 in D1, D1'. fold d2 in D2, D2'.
  assert (Hd1 : 1 <= d1) by (subst d1; cbn; lia).
  assert (Hd2 : 1 <= d2) by (subst d2; cbn; lia).
  set (e' := Z.min (fexp (d1 + e1 - (d2 + e2))) (e1 - e2)).
  assert (Hs : 0 <= e1 - e2 - e') by (subst e'; lia).
  assert (He' : -253 <= e').
  { subst e'. rewrite fexp_eq. lia. }
  set (m' := match e1 - e2 - e' with
             | 0 => Z.pos m1
             | Z.pos _ => Z.shiftl (Z.pos m1) (e1 - e2 - e')
             | Z.neg _ => 0
             end).
  assert (Hm' : m' = Z.pos m1 * 2 ^ (e1 - e2 - e')).
  { subst m'. destruct (e1 - e2 - e') as [|p|p] eqn:Es.
    - cbn. lia.
    - rewrite Z.shiftl_mul_pow2 by lia. reflexivity.
    - lia. }
  assert (Ps : 0 < 2 ^ (e1 - e2 - e')) by (apply Z.pow_pos_nonneg; lia).
  destruct (Z.div_eucl m' (Z.pos m2)) as [q r] eqn:Eqr.
  assert (Hq : q = m' / Z.pos m2) by (unfold Z.div; now rewrite Eqr).
  assert (Hr : r = m' mod Z.pos m2) by (unfold Z.modulo; now rewrite Eqr).
  pose proof (Z.mod_pos_bound m' (Z.pos m2) ltac:(lia)) as Hrb.
  rewrite (round_aux_Round _ _ _ _ m' (Z.pos m2)).
  - rewrite Hm'.
    assert (Pc : 0 < 2 ^ (e2 + 149)) by (apply Z.pow_pos_nonneg; lia).
    rewrite <- (Round_scale _ (Z.pos m1 * 2 ^ (e1 - e2 - e') * 2 ^ (e' + K))
                  (Z.pos m2) (2 ^ (e2 + 149))) by lia.
    unfold U. f_equal.
    rewrite <- !Z.mul_assoc. f_equal.
    rewrite <- !Z.pow_add_r by (unfold K; lia). f_equal. unfold K. lia.
  - nia.
  - lia.
  - exact Hq.
  - rewrite Hr. apply new_location_loc. rewrite <- Hr. lia.
  - unfold K. lia.
  - rewrite fexp_eq.
    destruct (Z.le_gt_cases e' (-149)) as [Hsub|Hnorm]; [lia|].
    assert (Hdelta : e' <= d1 + e1 - (d2 + e2) - 24).
    { subst e'. rewrite fexp_eq in *. lia. }
    assert (H23 : 2 ^ 23 <= q).
    { rewrite Hq. apply Z.div_le_lower_bound; [lia|].
      rewrite Hm'.
      assert (Hpw : 2 ^ (d2 + 23) <= 2 ^ (d1 - 1 + (e1 - e2 - e')))
        by (apply Z.pow_le_mono_r; lia).
      rewrite (Z.pow_add_r 2 (d1 - 1) (e1 - e2 - e')) in Hpw by lia.
      rewrite (Z.pow_add_r 2 d2 23) in Hpw by lia.
      assert (0 < 2 ^ 23) by (apply Z.pow_pos_nonneg; lia).
      nia. }
    pose proof (Zdigits2_ge_pow q 23 H23 ltac:(lia)). lia.
Qed.

(** ** Results of roundings *)

Lemma key_ok_valid (s : bool) (m : positive) (e : Z) :
  key_ok (e, Z.pos m) -> e <= 104 -> F32.valid (S754_finite s m e) = true.
Proof.
  unfold key_ok. cbn [fst snd]. intros (A1 & A2 & A3) Le.
  unfold F32.valid, valid_binary, bounded, canonical_mantissa.
  apply andb_true_iff. split; [|apply Z.leb_le; exact Le].
  apply Z.eqb_eq. fold (fexp (Z.pos (digits2_pos m) + e)). rewrite fexp_eq.
  change (Z.pos (digits2_pos m)) with (Zdigits2 (Z.pos m)).
  pose proof (Zdigits2_lt_pow (Z.pos m) 24 ltac:(lia) ltac:(lia)) as Hd.
  destruct (Z.eq_dec e (-149)) as [->|Hn]; [lia|].
  pose proof (Zdigits2_ge_pow (Z.pos m) 23 ltac:(apply A3; lia) ltac:(lia)).
  lia.
Qed.

(** A rounded value is a zero, a member of the format or an infinity, with
    the sign asked for. *)
Lemma Round_cases (s : bool) (A B : Z) :
  0 <= A -> 0 < B ->
  Round s A B = S754_zero s \/
  Round s A B = S754_infinity s \/
  exists m e, Round s A B = S754_finite s m e /\
              F32.valid (S754_finite s m e) = true.
Proof.
  intros HA HB. rewrite (Round_of_key s A B HA HB).
  pose proof (key_ok_key A B HA HB) as Hok.
  destruct (key A B) as [e m]. unfold of_key. cbn [fst snd].
  destruct m as [|p|p].
  - now left.
  - change (F32.emax - F32.prec) with 104.
    destruct (Z.leb_spec e 104) as [Le|Le]; [|now right; left].
    right; right. exists p, e. split; [reflexivity|].
    now apply key_ok_valid.
  - exfalso. unfold key_ok in Hok. cbn [fst snd] in Hok. lia.
Qed.

(** ** The operations are monotone on positive members of the format *)

Lemma mul_mono_l (m1 : positive) (e1 : Z) (m2 : positive) (e2 : Z)
    (mc : positive) (ec : Z) :
  F32.valid (S754_finite false m1 e1) = true ->
  F32.valid (S754_finite false m2 e2) = true ->
  F32.valid (S754_finite false mc ec) = true ->
  F32.leb (S754_finite false m1 e1) (S754_finite false m2 e2) = true ->
  F32.leb (F32.mul (S754_finite false m1 e1) (S754_finite false mc ec))
          (F32.mul (S754_finite false m2 e2) (S754_finite false mc ec)) = true.
Proof.
  intros V1 V2 Vc H.
  apply (leb_U _ _ _ _ V1 V2) in H.
  rewrite (mul_Round _ _ _ _ _ _ V1 Vc), (mul_Round _ _ _ _ _ _ V2 Vc).
  apply valid_finite in V1 as (_ & _ & P1).
  apply valid_finite in V2 as (_ & _ & P2).
  apply valid_finite in Vc as (_ & _ & Pc).
  cbn [xorb]. apply Round_mono; nia.
Qed.

Lemma add_mono_l (m1 : positive) (e1 : Z) (m2 : positive) (e2 : Z)
    (mc : positive) (ec : Z) :
  F32.valid (S754_finite false m1 e1) = true ->
  F32.valid (S754_finite false m2 e2) = true ->
  F32.valid (S754_finite false mc ec) = true ->
  F32.leb (S754_finite false m1 e1) (S754_finite false m2 e2) = true ->
  F32.leb (F32.add (S754_finite false m1 e1) (S754_finite false mc ec))
          (F32.add (S754_finite false m2 e2) (S754_finite false mc ec)) = true.
Proof.
  intros V1 V2 Vc H.
  apply (leb_U _ _ _ _ V1 V2) in H.
  apply valid_finite in V1 as (_ & (E1 & _) & P1).
  apply valid_finite in V2 as (_ & (E2 & _) & P2).
  apply valid_finite in Vc as (_ & (Ec & _) & Pc).
  cbn [fst] in *.
  rewrite !add_Round by assumption.
  assert (0 < 2 ^ 149) by (apply Z.pow_pos_nonneg; lia).
  apply Round_mono; nia.
Qed.

Lemma div_mono_r (mf : positive) (ef : Z) (m1 : positive) (e1 : Z)
    (m2 : positive) (e2 : Z) :
  F32.valid (S754_finite false mf ef) = true ->
  F32.valid (S754_finite false m1 e1) = true ->
  F32.valid (S754_finite false m2 e2) = true ->
  F32.leb (S754_finite false m1 e1) (S754_finite false m2 e2) = true ->
  F32.leb (F32.div (S754_finite false mf ef) (S754_finite false m2 e2))
          (F32.div (S754_finite false mf ef) (S754_finite false m1 e1)) = true.
Proof.
  intros Vf V1 V2 H.
  apply (leb_U _ _ _ _ V1 V2) in H.
  rewrite (div_Round _ _ _ _ _ _ Vf V1), (div_Round _ _ _ _ _ _ Vf V2).
  apply valid_finite in V1 as (_ & _ & P1).
  apply valid_finite in V2 as (_ & _ & P2).
  apply valid_finite in Vf as (_ & _ & Pf).
  assert (0 < 2 ^ K) by (apply Z.pow_pos_nonneg; unfold K; lia).
  cbn [xorb]. apply Round_mono; nia.
Qed.

Lemma div_mono_l (m1 : positive) (e1 : Z) (m2 : positive) (e2 : Z)
    (mc : positive) (ec : Z) :
  F32.valid (S754_finite false m1 e1) = true ->
  F32.valid (S754_finite false m2 e2) = true ->
  F32.valid (S754_finite false mc ec) = true ->
  F32.leb (S754_finite false m1 e1) (S754_finite false m2 e2) = true ->
  F32.leb (F32.div (S754_finite false m1 e1) (S754_finite false mc ec))
          (F32.div (S754_finite false m2 e2) (S754_finite false mc ec)) = true.
Proof.
  intros V1 V2 Vc H.
  apply (leb_U _ _ _ _ V1 V2) in H.
  rewrite (div_Round _ _ _ _ _ _ V1 Vc), (div_Round _ _ _ _ _ _ V2 Vc).
  apply valid_finite in V1 as (_ & _ & P1).
  apply valid_finite in V2 as (_ & _ & P2).
  apply valid_finite in Vc as (_ & _ & Pc).
  assert (0 < 2 ^ K) by (apply Z.pow_pos_nonneg; unfold K; lia).
  cbn [xorb]. apply Round_mono; nia.
Qed.

(** The integer part of a positive member of the format. *)
Lemma trunc_U (m : positive) (e : Z) :
  -149 <= e -> F32.trunc (S754_finite false m e) = U m e / 2 ^ 149.
Proof.
  intros He. unfold F32.trunc, U.
  destruct e as [|p|p].
  - cbn [Z.shiftl]. rewrite Z.add_0_l, Z.div_mul; [reflexivity|].
    apply Z.pow_nonzero; lia.
  - rewrite Z.shiftl_mul_pow2 by lia.
    rewrite (Z.pow_add_r 2 (Z.pos p) 149) by lia.
    rewrite Z.mul_assoc, Z.div_mul; [reflexivity|].
    apply Z.pow_nonzero; lia.
  - rewrite Z.shiftr_div_pow2 by lia.
    replace (2 ^ 149) with (2 ^ Z.pos p * 2 ^ (Z.neg p + 149)).
    2:{ rewrite <- Z.pow_add_r by lia. f_equal. lia. }
    rewrite Z.div_mul_cancel_r; [reflexivity| |];
      apply Z.pow_nonzero; lia.
Qed.

(** ** Quantization *)

Lemma valid_of_Z_255 : F32.valid (F32.of_Z UINT8_MAX) = true.
Proof. reflexivity. Qed.

Lemma valid_half : F32.valid F32.half = true.
Proof. reflexivity. Qed.

Lemma valid_to_byte : F32.valid to_byte = true.
Proof. reflexivity. Qed.

Lemma valid_MAX_A : F32.valid MAX_A = true.
Proof. reflexivity. Qed.

(** Rounding a value between 0 and 255 to a [long]. *)
Lemma to_long_add_half (m : positive) (e : Z) :
  F32.valid (S754_finite false m e) = true ->
  F32.leb (S754_finite false m e) (F32.of_Z UINT8_MAX) = true ->
  exists z, F32.to_long (F32.add (S754_finite false m e) F32.half) = Some z /\
            0 <= z <= 255.
Proof.
  intros Vy Hle.
  pose proof (add_mono_l m e 16711680 (-16) 8388608 (-24) Vy
                valid_of_Z_255 valid_half Hle) as Hz.
  change (F32.add (S754_finite false 16711680 (-16))
                  (S754_finite false 8388608 (-24)))
    with (S754_finite false 16744448 (-16)) in Hz.
  change F32.half with (S754_finite false 8388608 (-24)).
  apply valid_finite in Vy as (_ & (Ey & _) & Py). cbn [fst] in Ey.
  rewrite add_Round in * by lia.
  assert (HA : 0 <= (U m e + U 8388608 (-24)) * 2 ^ 149).
  { assert (0 < 2 ^ 149) by (apply Z.pow_pos_nonneg; lia).
    assert (0 < U 8388608 (-24)) by reflexivity. nia. }
  destruct (Round_cases false _ 1 HA ltac:(lia))
    as [Ez|[Ei|(mz & ez & Ef & Vz)]].
  - rewrite Ez. exists 0. split; [reflexivity|lia].
  - rewrite Ei in Hz. discriminate Hz.
  - rewrite Ef in *.
    assert (Vc : F32.valid (S754_finite false 16744448 (-16)) = true)
      by reflexivity.
    apply (leb_U _ _ _ _ Vz Vc) in Hz.
    apply valid_finite in Vz as (_ & (Ez & _) & Pz). cbn [fst] in Ez.
    unfold F32.to_long. cbn [F32.is_finite].
    rewrite trunc_U by exact Ez.
    assert (Hq : 0 <= U mz ez / 2 ^ 149 <= 255).
    { split; [apply Z.div_pos; [lia|reflexivity]|].
      change 255 with (U 16744448 (-16) / 2 ^ 149).
      apply Z.div_le_mono; [reflexivity|exact Hz]. }
    exists (U mz ez / 2 ^ 149). split; [|exact Hq].
    unfold F32.LONG_MIN, F32.LONG_MAX.
    change (- 2 ^ 31) with (-2147483648). change (2 ^ 31 - 1) with 2147483647.
    destruct (Z.leb_spec (-2147483648) (U mz ez / 2 ^ 149));
      destruct (Z.leb_spec (U mz ez / 2 ^ 149) 2147483647); try lia.
    reflexivity.
Qed.

(** [round(max(0, min(y, UINT8_MAX)))] for every [y]. *)
Lemma clamp_tail (y : float) :
  F32.valid y = true ->
  exists z,
    Arduino.round (Arduino.max (F32.of_Z 0)
                     (Arduino.min y (F32.of_Z UINT8_MAX))) = Some z /\
    0 <= z <= 255 /\
    (F32.ltb y (F32.of_Z UINT8_MAX) = false -> z = 255) /\
    (F32.leb y F32.pzero = true -> z = 0).
Proof.
  intros Vy.
  destruct y as [s|s| |s m e].
  - exists 0. destruct s; repeat split; try lia; intros H; discriminate H.
  - destruct s.
    + exists 0. repeat split; try lia; intros H; discriminate H.
    + exists 255. repeat split; try lia; intros H; discriminate H.
  - exists 255. repeat split; try lia; intros H; discriminate H.
  - destruct s.
    + exists 0. repeat split; try lia; intros H; discriminate H.
    + unfold Arduino.min.
      destruct (F32.ltb (S754_finite false m e) (F32.of_Z UINT8_MAX)) eqn:Hlt.
      * assert (Hle : F32.leb (S754_finite false m e) (F32.of_Z UINT8_MAX) = true).
        { apply (ltb_U _ _ _ _ Vy valid_of_Z_255) in Hlt.
          apply (leb_U _ _ _ _ Vy valid_of_Z_255). lia. }
        destruct (to_long_add_half m e Vy Hle) as (z & Hz & Hr).
        exists z. split; [exact Hz|]. split; [exact Hr|].
        split; intros H; discriminate H.
      * exists 255. repeat split; try lia; intros H; discriminate H.
Qed.

(** The product by [to_byte] keeps the order with respect to 0 and to
    [MAX_A]. *)
Lemma mul_to_byte (x : float) :
  F32.valid x = true ->
  F32.valid (F32.mul x to_byte) = true /\
  (F32.leb MAX_A x = true ->
   F32.ltb (F32.mul x to_byte) (F32.of_Z UINT8_MAX) = false) /\
  (F32.leb x F32.pzero = true ->
   F32.leb (F32.mul x to_byte) F32.pzero = true).
Proof.
  intros Vx.
  destruct x as [s|s| |s m e].
  - destruct s; repeat split; intros H; try discriminate H; reflexivity.
  - destruct s; repeat split; intros H; try discriminate H; reflexivity.
  - repeat split; intros H; discriminate H.
  - change to_byte with (S754_finite false 16711680 (-17)).
    pose proof valid_to_byte as Vt.
    change to_byte with (S754_finite false 16711680 (-17)) in Vt.
    pose proof (valid_finite _ _ _ Vx) as (_ & _ & Px).
    assert (HA : 0 <= U m e * U 16711680 (-17)).
    { assert (0 < U 16711680 (-17)) by reflexivity. nia. }
    destruct s.
    + rewrite (mul_Round _ _ _ _ _ _ Vx Vt). cbn [xorb].
      destruct (Round_cases true _ 1 HA ltac:(lia))
        as [Ez|[Ei|(mz & ez & Ef & Vz)]]; [rewrite Ez|rewrite Ei|rewrite Ef];
        repeat split; try exact Vz; intros H; try discriminate H; reflexivity.
    + split; [|split].
      * rewrite (mul_Round _ _ _ _ _ _ Vx Vt). cbn [xorb].
        destruct (Round_cases false _ 1 HA ltac:(lia))
          as [Ez|[Ei|(mz & ez & Ef & Vz)]]; [rewrite Ez|rewrite Ei|rewrite Ef];
          try reflexivity. exact Vz.
      * intros H2.
        pose proof (mul_mono_l 8388608 (-22) m e 16711680 (-17)
                      valid_MAX_A Vx Vt H2) as Hm.
        change (F32.mul (S754_finite false 8388608 (-22))
                        (S754_finite false 16711680 (-17)))
          with (S754_finite false 16711680 (-16)) in Hm.
        rewrite (mul_Round _ _ _ _ _ _ Vx Vt) in *. cbn [xorb] in *.
        destruct (Round_cases false _ 1 HA ltac:(lia))
          as [Ez|[Ei|(mz & ez & Ef & Vz)]].
        -- rewrite Ez in Hm. discriminate Hm.
        -- rewrite Ei. reflexivity.
        -- rewrite Ef in *.
           apply (leb_U _ _ _ _ valid_of_Z_255 Vz) in Hm.
           destruct (F32.ltb (S754_finite false mz ez) (F32.of_Z UINT8_MAX))
             eqn:Hlt; [|reflexivity].
           apply (ltb_U _ _ _ _ Vz valid_of_Z_255) in Hlt. lia.
      * intros H. discriminate H.
Qed.

(** The quantization step of [update] and of [loop]. *)
Lemma clamp_round_range (x : float) :
  F32.valid x = true ->
  exists z,
    clamp_round x = Some z /\ 0 <= z <= 255 /\
    (F32.leb MAX_A x = true -> z = 255) /\
    (F32.leb x F32.pzero = true -> z = 0).
Proof.
  intros Vx. destruct (mul_to_byte x Vx) as (Vy & H2 & H0).
  destruct (clamp_tail _ Vy) as (z & Hz & Hr & T2 & T0).
  exists z. split; [exact Hz|]. split; [exact Hr|]. split.
  - intros H. apply T2, H2, H.
  - intros H. apply T0, H0, H.
Qed.

(** ** The calibration is monotone *)

Lemma nonneg_valid (x : float) : nonneg x -> F32.valid x = true.
Proof. intros [s|m e V|]; auto. Qed.

Lemma nonneg_leb_pzero (x : float) : nonneg x -> F32.leb F32.pzero x = true.
Proof. intros [s|m e V|]; reflexivity. Qed.

Lemma Round_nonneg (A B : Z) : 0 <= A -> 0 < B -> nonneg (Round false A B).
Proof.
  intros HA HB.
  destruct (Round_cases false A B HA HB) as [E|[E|(m & e & E & V)]];
    rewrite E; constructor. exact V.
Qed.

Lemma div_nonneg (m1 : positive) (e1 : Z) (m2 : positive) (e2 : Z) :
  F32.valid (S754_finite false m1 e1) = true ->
  F32.valid (S754_finite false m2 e2) = true ->
  nonneg (F32.div (S754_finite false m1 e1) (S754_finite false m2 e2)).
Proof.
  intros V1 V2. rewrite (div_Round _ _ _ _ _ _ V1 V2). cbn [xorb].
  apply valid_finite in V1 as (_ & _ & P1).
  apply valid_finite in V2 as (_ & _ & P2).
  assert (0 < 2 ^ K) by (apply Z.pow_pos_nonneg; unfold K; lia).
  apply Round_nonneg; nia.
Qed.

(** The clamped term [max(0, l / c)] for a finite [l] or an infinite one,
    [c] positive: never negative, and a zero when [l] is not positive. *)
Lemma clamp_div_nonneg (l : float) (mc : positive) (ec : Z) :
  F32.valid l = true -> F32.is_nan l = false ->
  F32.valid (S754_finite false mc ec) = true ->
  nonneg (Arduino.max (F32.of_Z 0) (F32.div l (S754_finite false mc ec))) /\
  (F32.leb l F32.pzero = true ->
   exists s, Arduino.max (F32.of_Z 0) (F32.div l (S754_finite false mc ec))
             = S754_zero s).
Proof.
  intros Vl Nl Vc.
  destruct l as [s|s| |s m e]; try discriminate Nl.
  - split; [destruct s; constructor|]. intros _. destruct s; eexists; reflexivity.
  - destruct s.
    + split; [constructor|]. intros _. eexists; reflexivity.
    + split; [constructor|]. intros H; discriminate H.
  - pose proof (valid_finite _ _ _ Vl) as (_ & _ & Pl).
    pose proof (valid_finite _ _ _ Vc) as (_ & _ & Pc).
    assert (HK : 0 < 2 ^ K) by (apply Z.pow_pos_nonneg; unfold K; lia).
    rewrite (div_Round _ _ _ _ _ _ Vl Vc).
    destruct s; cbn [xorb].
    + destruct (Round_cases true (U m e * 2 ^ K) (U mc ec) ltac:(nia) Pc)
        as [E|[E|(mz & ez & E & V)]]; rewrite E;
        (split; [constructor|intros _; eexists; reflexivity]).
    + destruct (Round_cases false (U m e * 2 ^ K) (U mc ec) ltac:(nia) Pc)
        as [E|[E|(mz & ez & E & V)]]; rewrite E;
        (split; [constructor; try exact V|intros H; discriminate H]).
Qed.

Lemma leb_zero_nonneg (s : bool) (x : float) :
  nonneg x -> F32.leb (S754_zero s) x = true.
Proof. intros [s'|m e V|]; reflexivity. Qed.

Lemma leb_nonneg_pinf (x : float) : nonneg x -> F32.leb x F32.pinf = true.
Proof. intros [s'|m e V|]; reflexivity. Qed.

(** [max(0, l / c)] preserves the order of [l]. *)
Lemma clamp_div_mono (l1 l2 : float) (mc : positive) (ec : Z) :
  F32.valid l1 = true -> F32.is_nan l1 = false ->
  F32.valid l2 = true -> F32.is_nan l2 = false ->
  F32.valid (S754_finite false mc ec) = true ->
  F32.leb l1 l2 = true ->
  F32.leb (Arduino.max (F32.of_Z 0) (F32.div l1 (S754_finite false mc ec)))
          (Arduino.max (F32.of_Z 0) (F32.div l2 (S754_finite false mc ec)))
    = true.
Proof.
  intros V1 N1 V2 N2 Vc H.
  destruct (clamp_div_nonneg l1 mc ec V1 N1 Vc) as [G1 Z1].
  destruct (clamp_div_nonneg l2 mc ec V2 N2 Vc) as [G2 Z2].
  destruct (F32.leb l1 F32.pzero) eqn:H1.
  - destruct (Z1 eq_refl) as [s ->]. now apply leb_zero_nonneg.
  - assert (M : forall t, nonneg t -> Arduino.max (F32.of_Z 0) t = t).
    { intros t [s|m e V|]; reflexivity. }
    destruct l1 as [s1|[|]| |[|] m1 e1]; try discriminate N1;
      try discriminate H1;
      destruct l2 as [s2|[|]| |[|] m2 e2]; try discriminate N2;
      try discriminate H.
    + reflexivity.
    + change (F32.div (S754_infinity false) (S754_finite false mc ec))
        with F32.pinf.
      change (Arduino.max (F32.of_Z 0) F32.pinf) with F32.pinf.
      now apply leb_nonneg_pinf.
    + pose proof (div_mono_l m1 e1 m2 e2 mc ec V1 V2 Vc H) as Hd.
      pose proof (div_nonneg m1 e1 mc ec V1 Vc) as D1.
      pose proof (div_nonneg m2 e2 mc ec V2 Vc) as D2.
      now rewrite !M.
Qed.

Lemma log10f_nonneg_ok (lm : Libm) (g : float) (r : float) :
  AnnexF lm -> LibmMonotone lm g -> nonneg r ->
  F32.valid (log10f lm r) = true /\ F32.is_nan (log10f lm r) = false.
Proof.
  intros HF HM [s|m e V|].
  - rewrite (log10f_zero lm HF). split; reflexivity.
  - destruct (log10f_finite lm g HM (S754_finite false m e)) as [Hf Hv].
    { exists m, e. split; [reflexivity|exact V]. }
    split; [exact Hv|]. destruct (log10f lm (S754_finite false m e));
      try discriminate Hf; reflexivity.
  - rewrite (log10f_pinf lm HF). split; reflexivity.
Qed.

Lemma log10f_nonneg_mono (lm : Libm) (g : float) (r1 r2 : float) :
  AnnexF lm -> LibmMonotone lm g -> nonneg r1 -> nonneg r2 ->
  F32.leb r1 r2 = true ->
  F32.leb (log10f lm r1) (log10f lm r2) = true.
Proof.
  intros HF HM G1 G2 H.
  destruct (log10f_nonneg_ok lm g r1 HF HM G1) as [V1 N1].
  destruct (log10f_nonneg_ok lm g r2 HF HM G2) as [V2 N2].
  destruct G1 as [s1|m1 e1 W1|].
  - rewrite (log10f_zero lm HF).
    destruct (log10f lm r2) as [s|[|]| |[|] m e]; try discriminate N2;
      reflexivity.
  - destruct G2 as [s2|m2 e2 W2|]; try discriminate H.
    + apply (log10f_mono lm g HM); try assumption.
      * exists m1, e1. split; [reflexivity|exact W1].
      * exists m2, e2. split; [reflexivity|exact W2].
    + rewrite (log10f_pinf lm HF).
      destruct (log10f lm (S754_finite false m1 e1)) as [s|[|]| |[|] m e];
        try discriminate N1; reflexivity.
  - destruct G2 as [s2|m2 e2 W2|]; try discriminate H.
    rewrite (log10f_pinf lm HF). reflexivity.
Qed.

(** ** The sample C library preserves the order *)

Lemma small_table_checked : small_table_ok = true.
Proof. vm_compute. reflexivity. Qed.

Lemma in_small_table (z : Z) :
  -47 <= z <= 39 -> In (z, F32.of_Z z) small_table.
Proof.
  intros H. unfold small_table. apply in_map_iff.
  exists (Z.to_nat (z + 47)). split.
  - replace (Z.of_nat (Z.to_nat (z + 47)) - 47) with z by lia. reflexivity.
  - apply in_seq. lia.
Qed.

Lemma of_Z_small (z : Z) :
  -47 <= z <= 39 ->
  F32.is_finite (F32.of_Z z) = true /\ F32.valid (F32.of_Z z) = true.
Proof.
  intros H. pose proof small_table_checked as T. unfold small_table_ok in T.
  rewrite forallb_forall in T. specialize (T _ (in_small_table z H)).
  cbn [fst snd] in T.
  apply andb_true_iff in T as [T _]. now apply andb_true_iff in T.
Qed.

Lemma of_Z_small_mono (z1 z2 : Z) :
  -47 <= z1 <= 39 -> -47 <= z2 <= 39 -> z1 <= z2 ->
  F32.leb (F32.of_Z z1) (F32.of_Z z2) = true.
Proof.
  intros H1 H2 H. pose proof small_table_checked as T.
  unfold small_table_ok in T.
  rewrite forallb_forall in T. specialize (T _ (in_small_table z1 H1)).
  cbn [fst snd] in T. apply andb_true_iff in T as [_ T].
  rewrite forallb_forall in T. specialize (T _ (in_small_table z2 H2)).
  cbn [fst snd] in T. apply orb_true_iff in T as [T|T]; [|exact T].
  apply negb_true_iff, Z.leb_gt in T. lia.
Qed.

Lemma filter_length_mono {A : Type} (p1 p2 : A -> bool) (l : list A) :
  (forall x, p1 x = true -> p2 x = true) ->
  (length (filter p1 l) <= length (filter p2 l))%nat.
Proof.
  intros H. induction l as [|x l IH]; cbn [filter]; [lia|].
  destruct (p1 x) eqn:E1.
  - rewrite (H x E1). cbn [length]. lia.
  - destruct (p2 x); cbn [length]; lia.
Qed.

Lemma floor_log10_range (m : positive) (e : Z) :
  -47 <= Sample.floor_log10 m e <= 39.
Proof.
  unfold Sample.floor_log10.
  pose proof (filter_length_le (fun k => Sample.le_pow10 k m e)
                (map (fun i => Z.of_nat i - 46) (seq 0 86))) as H.
  rewrite length_map, length_seq in H. lia.
Qed.

Lemma floor_log10_mono (m1 : positive) (e1 : Z) (m2 : positive) (e2 : Z) :
  U m1 e1 <= U m2 e2 ->
  Sample.floor_log10 m1 e1 <= Sample.floor_log10 m2 e2.
Proof.
  intros H. unfold Sample.floor_log10.
  pose proof (filter_length_mono
                (fun k => Sample.le_pow10 k m1 e1)
                (fun k => Sample.le_pow10 k m2 e2)
                (map (fun i => Z.of_nat i - 46) (seq 0 86))) as L.
  assert (Hp : forall k, Sample.le_pow10 k m1 e1 = true ->
                         Sample.le_pow10 k m2 e2 = true).
  { intros k. unfold Sample.le_pow10. fold (U m1 e1). fold (U m2 e2).
    intros Hk. apply Z.leb_le in Hk. apply Z.leb_le.
    assert (0 <= 10 ^ Z.max (- k) 0) by (apply Z.pow_nonneg; lia).
    nia. }
  specialize (L Hp). lia.
Qed.

Lemma eqb_one (m : positive) (e : Z) :
  F32.eqb (S754_finite false m e) Sample.one = true ->
  S754_finite false m e = Sample.one.
Proof.
  unfold F32.eqb, SFeqb. cbn [SFcompare Sample.one].
  change Sample.one with (S754_finite false 8388608 (-23)).
  cbn [SFcompare].
  destruct (Z.compare_spec e (-23)) as [E|E|E]; try discriminate.
  rewrite Pos.compare_cont_spec. cbn [Pos.switch_Eq].
  destruct (Pos.compare_spec m 8388608) as [E'|E'|E']; try discriminate.
  intros _. now subst.
Qed.

Lemma Sample_pow_gamma (b : float) :
  nonneg b ->
  Sample.pow b (POWER_LAW_CORRECTOR_GAMMA sketch) =
    match b with S754_zero _ => F32.pzero | _ => b end.
Proof.
  change (POWER_LAW_CORRECTOR_GAMMA sketch)
    with (S754_finite false 11173626 (-24)).
  intros [s|m e V|].
  - destruct s; reflexivity.
  - unfold Sample.pow, Sample.pos_pow.
    cbn [Sample.is_zero F32.is_nan orb].
    destruct (F32.eqb (S754_finite false m e) Sample.one) eqn:E1.
    + apply eqb_one in E1. now rewrite E1.
    + reflexivity.
  - reflexivity.
Qed.

Lemma nonneg_of_leb (b : float) :
  F32.valid b = true -> F32.leb F32.pzero b = true -> nonneg b.
Proof.
  intros V H. destruct b as [s|[|]| |[|] m e]; try discriminate H;
    constructor. exact V.
Qed.

Lemma Sample_Monotone :
  LibmMonotone Sample.libm (POWER_LAW_CORRECTOR_GAMMA sketch).
Proof.
  constructor; cbn [log10f pow Sample.libm].
  - intros r (m & e & -> & V). cbn [Sample.log10f].
    apply of_Z_small, floor_log10_range.
  - intros r1 r2 (m1 & e1 & -> & V1) (m2 & e2 & -> & V2) H.
    cbn [Sample.log10f].
    apply of_Z_small_mono; try apply floor_log10_range.
    apply floor_log10_mono. now apply (leb_U _ _ _ _ V1 V2).
  - intros b1 b2 V1 V2 H0 H.
    pose proof (nonneg_of_leb b1 V1 H0) as G1.
    assert (G2 : nonneg b2).
    { apply nonneg_of_leb; [exact V2|].
      destruct G1 as [s1|m1 e1 W1|];
        destruct b2 as [s2|[|]| |[|] m2 e2]; try discriminate H; reflexivity. }
    rewrite (Sample_pow_gamma b1 G1), (Sample_pow_gamma b2 G2).
    destruct G1 as [s1|m1 e1 W1|]; destruct G2 as [s2|m2 e2 W2|];
      try discriminate H; try reflexivity; exact H.
Qed.

(** ** Exact cases *)

(** Rounding a member of the format returns it. *)
Lemma Round_exact (s : bool) (m : positive) (e : Z) :
  F32.valid (S754_finite s m e) = true ->
  Round s (U m e * 2 ^ 149) 1 = S754_finite s m e.
Proof.
  intros V.
  assert (Hc : fexp (Zdigits2 (Z.pos m) + e) = e).
  { unfold F32.valid, valid_binary, bounded, canonical_mantissa in V.
    apply andb_true_iff in V as [V _]. now apply Z.eqb_eq in V. }
  pose proof (valid_finite _ _ _ V) as (Le & (E1 & M1 & _) & PU).
  cbn [fst snd] in *.
  assert (HA : U m e * 2 ^ 149 = Z.pos m * 2 ^ (e + K)).
  { unfold U, K. replace (e + 298) with ((e + 149) + 149) by lia.
    rewrite (Z.pow_add_r 2 (e + 149) 149) by lia. ring. }
  assert (PK : 0 < 2 ^ (e + K)) by (apply Z.pow_pos_nonneg; unfold K; lia).
  rewrite Round_of_key by nia. unfold key.
  rewrite Z.div_1_r, HA, Zdigits2_mul_pow by (unfold K; lia).
  replace (Zdigits2 (Z.pos m) + (e + K) - K) with (Zdigits2 (Z.pos m) + e)
    by lia.
  rewrite Hc, Z.mul_1_l.
  assert (HR : RNE (Z.pos m * 2 ^ (e + K)) (2 ^ (e + K)) = Z.pos m).
  { unfold RNE. rewrite Z.div_mul, Z.mod_mul by lia. reflexivity. }
  rewrite HR.
  destruct (Z.eqb_spec (Z.pos m) (2 ^ 24)) as [E|E]; [lia|].
  unfold of_key. cbn [fst snd]. change (F32.emax - F32.prec) with 104.
  destruct (Z.leb_spec e 104); [reflexivity|lia].
Qed.

Lemma div_one (s : bool) (m : positive) (e : Z) :
  F32.valid (S754_finite s m e) = true ->
  F32.div (S754_finite s m e) (F32.of_Z 1) = S754_finite s m e.
Proof.
  intros V. change (F32.of_Z 1) with (S754_finite false 8388608 (-23)).
  assert (V1 : F32.valid (S754_finite false 8388608 (-23)) = true)
    by reflexivity.
  rewrite (div_Round _ _ _ _ _ _ V V1).
  rewrite xorb_false_r.
  change (U 8388608 (-23)) with (1 * 2 ^ 149).
  change (2 ^ K) with (2 ^ 149 * 2 ^ 149). rewrite Z.mul_assoc.
  rewrite Round_scale by reflexivity.
  now apply Round_exact.
Qed.

(** ** The noise generator at amplitude 1 *)

Lemma Round_opp (A B : Z) :
  0 <= A -> 0 < B -> Round true A B = F32.opp (Round false A B).
Proof.
  intros HA HB. rewrite !Round_of_key by assumption.
  unfold of_key. destruct (snd (key A B)); try reflexivity.
  destruct (fst (key A B) <=? F32.emax - F32.prec); reflexivity.
Qed.

Lemma compare_neg (m1 : positive) (e1 : Z) (m2 : positive) (e2 : Z) :
  SFcompare (S754_finite true m1 e1) (S754_finite true m2 e2) =
  SFcompare (S754_finite false m2 e2) (S754_finite false m1 e1).
Proof.
  cbn [SFcompare]. f_equal.
  rewrite (Z.compare_antisym e1 e2).
  destruct (e1 ?= e2); cbn [CompOpp]; try reflexivity.
  rewrite Pos.compare_cont_antisym. reflexivity.
Qed.

Lemma leb_opp (x y : float) :
  nonneg x -> nonneg y -> F32.leb x y = true ->
  F32.leb (F32.opp y) (F32.opp x) = true.
Proof.
  intros [s1|m1 e1 V1|] [s2|m2 e2 V2|] H; try discriminate H;
    try reflexivity.
  unfold F32.leb, SFleb, F32.opp, SFopp. cbn [negb].
  rewrite compare_neg. exact H.
Qed.

Lemma sub_Round (m1 : positive) (e1 : Z) (m2 : positive) (e2 : Z) :
  -149 <= e1 -> -149 <= e2 ->
  F32.sub (S754_finite false m1 e1) (S754_finite false m2 e2) =
    match U m1 e1 ?= U m2 e2 with
    | Gt => Round false ((U m1 e1 - U m2 e2) * 2 ^ 149) 1
    | Eq => F32.pzero
    | Lt => Round true ((U m2 e2 - U m1 e1) * 2 ^ 149) 1
    end.
Proof.
  intros H1 H2. unfold F32.sub, SFsub. cbn [cond_Zopp].
  set (ez := Z.min e1 e2).
  assert (F1 : Z.pos (fst (shl_align m1 e1 ez)) = Z.pos m1 * 2 ^ (e1 - ez)).
  { destruct (shl_align_spec m1 e1 ez) as [(_ & _ & Hf)|(Hle & Heq)];
      [exact Hf|].
    rewrite Heq. cbn [fst]. replace (e1 - ez) with 0 by (subst ez; lia).
    lia. }
  assert (F2 : Z.pos (fst (shl_align m2 e2 ez)) = Z.pos m2 * 2 ^ (e2 - ez)).
  { destruct (shl_align_spec m2 e2 ez) as [(_ & _ & Hf)|(Hle & Heq)];
      [exact Hf|].
    rewrite Heq. cbn [fst]. replace (e2 - ez) with 0 by (subst ez; lia).
    lia. }
  rewrite F1, F2.
  assert (Pz : 0 < 2 ^ (ez + 149)) by (apply Z.pow_pos_nonneg; subst ez; lia).
  assert (EU1 : U m1 e1 = Z.pos m1 * 2 ^ (e1 - ez) * 2 ^ (ez + 149)).
  { unfold U. rewrite <- Z.mul_assoc, <- Z.pow_add_r by (subst ez; lia).
    do 2 f_equal. lia. }
  assert (EU2 : U m2 e2 = Z.pos m2 * 2 ^ (e2 - ez) * 2 ^ (ez + 149)).
  { unfold U. rewrite <- Z.mul_assoc, <- Z.pow_add_r by (subst ez; lia).
    do 2 f_equal. lia. }
  assert (EK : 2 ^ (ez + K) = 2 ^ (ez + 149) * 2 ^ 149).
  { unfold K. rewrite <- Z.pow_add_r by (subst ez; lia). f_equal. lia. }
  remember (Z.pos m1 * 2 ^ (e1 - ez)) as a1 eqn:Ea1.
  remember (Z.pos m2 * 2 ^ (e2 - ez)) as a2 eqn:Ea2.
  rewrite EU1, EU2.
  destruct (a1 - a2) as [|p|p] eqn:Ed; cbn [binary_normalize].
  - replace a1 with a2 by lia. now rewrite Z.compare_refl.
  - assert (Hc : (a1 * 2 ^ (ez + 149) ?= a2 * 2 ^ (ez + 149)) = Gt)
      by (apply Z.compare_gt_iff; nia).
    rewrite Hc, binary_round_Round by (subst ez; lia).
    f_equal. rewrite EK, <- Ed. ring.
  - assert (Hc : (a1 * 2 ^ (ez + 149) ?= a2 * 2 ^ (ez + 149)) = Lt)
      by (apply Z.compare_lt_iff; nia).
    rewrite Hc, binary_round_Round by (subst ez; lia).
    f_equal. rewrite EK. replace (Z.pos p) with (a2 - a1) by lia. ring.
Qed.

Lemma mul_one (s : bool) (m : positive) (e : Z) :
  F32.valid (S754_finite s m e) = true ->
  F32.mul (S754_finite s m e) (F32.of_Z 1) = S754_finite s m e.
Proof.
  intros V. change (F32.of_Z 1) with (S754_finite false 8388608 (-23)).
  assert (V1 : F32.valid (S754_finite false 8388608 (-23)) = true)
    by reflexivity.
  rewrite (mul_Round _ _ _ _ _ _ V V1), xorb_false_r.
  change (U 8388608 (-23)) with (2 ^ 149).
  now apply Round_exact.
Qed.

Lemma Round_le_exact (A : Z) (m : positive) (e : Z) :
  F32.valid (S754_finite false m e) = true ->
  0 <= A <= U m e ->
  nonneg (Round false (A * 2 ^ 149) 1) /\
  F32.leb (Round false (A * 2 ^ 149) 1) (S754_finite false m e) = true.
Proof.
  intros V [H0 H1].
  assert (P : 0 < 2 ^ 149) by (apply Z.pow_pos_nonneg; lia).
  split; [apply Round_nonneg; nia|].
  rewrite <- (Round_exact false m e V).
  pose proof (valid_finite _ _ _ V) as (_ & _ & PU).
  apply Round_mono; nia.
Qed.

Lemma uniform_of_one_range (r : Z) :
  0 <= r <= RAND_MAX ->
  within_half_of_one (uniform_of (F32.of_Z 1) r) = true.
Proof.
  intros Hr. unfold uniform_of.
  assert (Vh : F32.valid (S754_finite false 8388608 (-24)) = true)
    by reflexivity.
  assert (Vc : F32.valid (S754_finite false 16776704 (-9)) = true)
    by reflexivity.
  change (F32.of_Z RAND_MAX) with (S754_finite false 16776704 (-9)).
  change F32.half with (S754_finite false 8388608 (-24)).
  (* the quotient is between 0 and 1 *)
  assert (Hd : F32.of_Z r = F32.pzero \/
               (exists md ed,
                 F32.div (F32.of_Z r) (S754_finite false 16776704 (-9))
                   = S754_finite false md ed /\
                 F32.valid (S754_finite false md ed) = true /\
                 U md ed <= 2 * U 8388608 (-24)) \/
               exists s, F32.div (F32.of_Z r) (S754_finite false 16776704 (-9))
                 = S754_zero s).
  { destruct r as [|p|p]; [now left| |lia]. right.
    rewrite of_Z_Round.
    assert (PK : 0 < 2 ^ K) by (apply Z.pow_pos_nonneg; unfold K; lia).
    assert (Hle : F32.leb (Round false (Z.pos p * 2 ^ K) 1)
                          (S754_finite false 16776704 (-9)) = true).
    { change (S754_finite false 16776704 (-9)) with (F32.of_Z 32767).
      rewrite of_Z_Round. unfold RAND_MAX in Hr. apply Round_mono; nia. }
    destruct (Round_cases false (Z.pos p * 2 ^ K) 1 ltac:(nia) ltac:(lia))
      as [E|[E|(mr & er & E & Vr)]]; rewrite E in *.
    - right. exists false. reflexivity.
    - discriminate Hle.
    - pose proof (div_mono_l mr er 16776704 (-9) 16776704 (-9) Vr Vc Vc Hle)
        as Hq.
      change (F32.div (S754_finite false 16776704 (-9))
                      (S754_finite false 16776704 (-9)))
        with (S754_finite false 8388608 (-23)) in Hq.
      pose proof (div_nonneg mr er 16776704 (-9) Vr Vc) as G.
      remember (F32.div (S754_finite false mr er)
                        (S754_finite false 16776704 (-9))) as q eqn:Eq.
      destruct G as [s|md ed Vd|]; [| |discriminate Hq].
      + right. now exists s.
      + left. exists md, ed. split; [reflexivity|]. split; [exact Vd|].
        assert (V1 : F32.valid (S754_finite false 8388608 (-23)) = true)
          by reflexivity.
        apply (leb_U _ _ _ _ Vd V1) in Hq.
        change (2 * U 8388608 (-24)) with (U 8388608 (-23)). exact Hq. }
  destruct Hd as [E0|[(md & ed & Ed & Vd & Hu)|Ez]].
  - rewrite E0. reflexivity.
  - rewrite Ed.
    pose proof (valid_finite _ _ _ Vd) as (_ & (Eed & _) & Pd).
    cbn [fst] in Eed.
    rewrite sub_Round by lia.
    destruct (Z.compare_spec (U md ed) (U 8388608 (-24))) as [Ec|Ec|Ec].
    + reflexivity.
    + destruct (Round_le_exact (U 8388608 (-24) - U md ed) 8388608 (-24) Vh
                  ltac:(lia)) as [G Hle].
      assert (PA : 0 <= (U 8388608 (-24) - U md ed) * 2 ^ 149).
      { assert (0 < 2 ^ 149) by (apply Z.pow_pos_nonneg; lia). nia. }
      rewrite (Round_opp _ 1 PA ltac:(lia)).
      pose proof (leb_opp _ _ G (nonneg_finite _ _ Vh) Hle) as Ho.
      destruct G as [s|my ey Vy|]; [| |discriminate Hle].
      * destruct s; reflexivity.
      * cbn [F32.opp SFopp negb] in *.
        assert (Vn : F32.valid (S754_finite true my ey) = true) by exact Vy.
        rewrite (mul_one true my ey Vn).
        unfold within_half_of_one.
        change (F32.opp F32.half) with (S754_finite true 8388608 (-24)).
        rewrite Ho. reflexivity.
    + destruct (Round_le_exact (U md ed - U 8388608 (-24)) 8388608 (-24) Vh
                  ltac:(lia)) as [G Hle].
      destruct G as [s|my ey Vy|]; [| |discriminate Hle].
      * destruct s; reflexivity.
      * rewrite (mul_one false my ey Vy).
        unfold within_half_of_one.
        change F32.half with (S754_finite false 8388608 (-24)).
        rewrite Hle. reflexivity.
  - destruct Ez as [s Ez]. rewrite Ez. destruct s; reflexivity.
Qed.

(** * The claims *)

(** C5, amended.  The constructor sets [memory_size] to
    [min((size_t) round(response_time_ms / simulation_dt_ms), MAX_MEMORY_SIZE)],
    between 0 and 50; the cast to [size_t] changes nothing when the rounded
    quotient is in [0 .. 65535].  For a sensor so built, whatever its
    buffer holds, after any sequence of [update] calls the size is
    unchanged, the live history has no more than [memory_size] entries
    and the slots behind it were never written.  One more [update] returns the quantized sum of the floored,
    smoothed response and the noise, and, with [memory_size >= 1], drops
    the oldest entry of the history and puts that byte at the newest
    position, leaving the other slots of the buffer as they were. *)
Theorem history_bounded_fifo
    (lm : Libm) (rt bg al ga si : float) (s0 : SimulatedSensor) (m : list Z)
    (pre : list float) (w : World) (outs : list Z) (s1 : SimulatedSensor)
    (w1 : World) (a : float) (b : Z) (s2 : SimulatedSensor) (w2 : World) :
  SimulatedSensor_new rt bg al ga si = Some s0 ->
  length m = Z.to_nat MAX_MEMORY_SIZE ->
  update_many lm (set_memory s0 m) pre w = Some ((outs, s1), w1) ->
  update lm s1 a w1 = Some ((b, s2), w2) ->
  (exists r, Arduino.round (F32.div rt (F32.of_Z simulation_dt_ms)) = Some r /\
             memory_size s0 = Z.min (to_size_t r) MAX_MEMORY_SIZE /\
             (0 <= r < 65536 -> memory_size s0 = Z.min r MAX_MEMORY_SIZE)) /\
  0 <= memory_size s0 <= 50 /\
  memory_size s1 = memory_size s0 /\ memory_size s2 = memory_size s0 /\
  (length (history s1) <= Z.to_nat (memory_size s0))%nat /\
  (length (history s2) <= Z.to_nat (memory_size s0))%nat /\
  length outs = length pre /\
  length (memory s1) = Z.to_nat MAX_MEMORY_SIZE /\
  skipn (Z.to_nat (memory_size s0)) (memory s1)
    = skipn (Z.to_nat (memory_size s0)) m /\
  (exists (noise : float) (r : Z),
      abs_uniform (sigma s1) w1 = Some (noise, w2) /\
      clamp_round (pre_quantization lm s1 a noise) = Some r /\
      b = to_uint8 r) /\
  (1 <= memory_size s0 ->
   history s1 =
     skipn (length pre) (firstn (Z.to_nat (memory_size s0)) m ++ outs) /\
   history s2 = tl (history s1) ++ [b] /\
   memory s2 =
     tl (history s1) ++ b :: skipn (Z.to_nat (memory_size s0)) (memory s1)) /\
  (memory_size s0 = 0 -> memory s1 = m /\ memory s2 = m).
Proof.
  intros Hnew Hm Hpre Hupd.
  destruct (SimulatedSensor_new_ok _ _ _ _ _ _ Hnew) as (Hok0 & _ & Hr).
  pose proof (set_memory_ok s0 m Hok0 Hm) as Hok.
  destruct (update_many_steps _ _ _ _ _ _ _ Hok Hpre)
    as (Hok1 & Hms1 & Hlen & Hh1 & Hz1).
  destruct (update_step _ _ _ _ _ _ _ Hok1 Hupd) as (Hok2 & Hms2 & Hh2 & Hz2).
  destruct (update_quantizes _ _ _ _ _ _ _ Hupd) as (noise & r & Hn & Hq & Hb & Hs2).
  pose proof (history_length _ Hok1) as Hl1.
  pose proof (history_length _ Hok2) as Hl2.
  cbn [set_memory memory_size memory] in Hms1, Hh1, Hz1.
  split.
  { destruct Hr as (r0 & Hr1 & Hr2). exists r0. split; [exact Hr1|].
    split; [exact Hr2|]. intros Hb0. rewrite Hr2. unfold to_size_t.
    now rewrite Z.mod_small. }
  split; [apply Hok0|].
  split; [exact Hms1|].
  split; [congruence|].
  split; [rewrite Hl1, Hms1; lia|].
  split; [rewrite Hl2, Hms2, Hms1; lia|].
  split; [exact Hlen|].
  split; [apply Hok1|].
  split; [exact (update_many_tail _ _ _ _ _ _ _ Hok Hpre)|].
  split; [exists noise, r; repeat split; assumption|].
  split.
  - intros H1. split; [|split].
    + rewrite <- Hlen. now apply Hh1.
    + apply Hh2. lia.
    + rewrite Hs2. cbn [set_memory memory]. rewrite <- Hms1.
      apply push_memory_spec; [exact Hok1|lia].
  - intros H0. assert (E1 : memory s1 = m) by (apply Hz1; lia).
    split; [exact E1|]. rewrite <- E1. apply Hz2. lia.
Qed.

Lemma history_bounded_fifo_witness :
  let w := initial_world [1; 2; 3; 4; 5; 6] [] (F32.of_Z 900) [] in
  let one := F32.of_Z 1 in
  let m := map Z.of_nat (seq 1 50) in
  let s := set_memory slow_sensor m in
  let r1 := run (update_many Sample.libm s [one; one]) w ([], s) in
  let r2 := run (update Sample.libm (snd (fst r1)) one) (snd r1) (0, s) in
  memory_size slow_sensor = 16 /\
  history (snd (fst r1)) = map Z.of_nat (seq 3 14) ++ fst (fst r1) /\
  history (snd (fst r2)) =
    map Z.of_nat (seq 4 13) ++ fst (fst r1) ++ [fst (fst r2)] /\
  skipn 16 (memory (snd (fst r2))) = map Z.of_nat (seq 17 34).
Proof.
  intros w one m s r1 r2.
  destruct (history_bounded_fifo Sample.libm
              (F32.of_Z 400) (F32.lit 2 100) (F32.lit 75 100) (F32.of_Z 1)
              (F32.lit 3 100)
              slow_sensor m [one; one] w (fst (fst r1)) (snd (fst r1)) (snd r1)
              one (fst (fst r2)) (snd (fst r2)) (snd r2))
    as (_ & _ & _ & _ & _ & _ & _ & _ & _ & _ & H & _).
  - reflexivity.
  - reflexivity.
  - vm_compute. reflexivity.
  - vm_compute. reflexivity.
  - destruct H as (H1 & H2 & H3); [vm_compute; discriminate|].
    split; [reflexivity|]. split; [|split].
    + rewrite H1. vm_compute. reflexivity.
    + rewrite H2, H1. vm_compute. reflexivity.
    + rewrite H3. vm_compute. reflexivity.
Defined.

(** C5, as stated: [memory_size] is not always
    [min(round(response_time_ms / simulation_dt_ms), MAX_MEMORY_SIZE)].
    For a response time of 1638400 ms the rounded quotient is 65536, the
    cast to the 16-bit [size_t] makes it 0, and the sensor has no memory
    at all, where the formula gives 50. *)
Lemma memory_size_not_min_round :
  ~ (forall (rt bg al ga si : float) (s : SimulatedSensor) (r : Z),
        SimulatedSensor_new rt bg al ga si = Some s ->
        Arduino.round (F32.div rt (F32.of_Z simulation_dt_ms)) = Some r ->
        memory_size s = Z.min r MAX_MEMORY_SIZE).
Proof.
  intros H.
  specialize (H (F32.of_Z 1638400) F32.pzero F32.pzero F32.pzero F32.pzero
                {| memory_size := 0; background := F32.pzero;
                   alpha := F32.pzero; gamma := F32.pzero;
                   sigma := F32.pzero; memory := zero_memory |}
                65536).
  cbn [memory_size] in H.
  assert (E : 0 = Z.min 65536 MAX_MEMORY_SIZE).
  { apply H; vm_compute; reflexivity. }
  vm_compute in E. discriminate E.
Qed.

(** C10.  The constructor leaves the buffer filled with zeros, and the live
    history has exactly [memory_size = d] entries at all times.  The
    smoothing step of [update] sums exactly these [d] entries, whatever
    the buffer holds, and divides the sum plus the response by [d + 1];
    the byte [update] returns is the quantization of that value after the
    floor and the noise.  During the first [d] calls the history is the
    bytes returned so far behind the zeros that are left, so the sum is
    that of the bytes returned so far while the divisor is [d + 1] from
    the start; on the first call the sum is zero and the smoothed value is
    [(0 + raw_response) / (d + 1)], which is [raw_response / (d + 1)]
    unless [raw_response] is the negative zero. *)
Theorem first_update_blends_zeros
    (lm : Libm) (rt bg al ga si : float) (s : SimulatedSensor)
    (pre : list float) (w : World) (outs : list Z) (s1 : SimulatedSensor)
    (w1 : World) (a : float) (b : Z) (s2 : SimulatedSensor) (w2 : World) :
  SimulatedSensor_new rt bg al ga si = Some s ->
  update_many lm s pre w = Some ((outs, s1), w1) ->
  update lm s1 a w1 = Some ((b, s2), w2) ->
  1 <= memory_size s ->
  memory s = zero_memory /\
  history s = repeat 0 (Z.to_nat (memory_size s)) /\
  length (history s1) = Z.to_nat (memory_size s) /\
  length (history s2) = Z.to_nat (memory_size s) /\
  (forall (m : list Z) (x : float),
      length m = Z.to_nat MAX_MEMORY_SIZE ->
      smooth (set_memory s m) x =
        F32.div (F32.add (history_sum (firstn (Z.to_nat (memory_size s)) m)) x)
                (F32.of_Z (memory_size s + 1))) /\
  (exists (noise : float) (r : Z),
      abs_uniform (sigma s) w1 = Some (noise, w2) /\
      clamp_round
        (F32.add
           (floor_background s
              (F32.div (F32.add (history_sum (history s1))
                                (base_value lm s a))
                       (F32.of_Z (memory_size s + 1))))
           noise) = Some r /\
      b = to_uint8 r) /\
  ((length pre <= Z.to_nat (memory_size s))%nat ->
   history s1 =
     repeat 0 (Z.to_nat (memory_size s) - length pre) ++ outs /\
   history_sum (history s1) = history_sum outs) /\
  (pre = [] ->
   smooth s1 (base_value lm s a) =
     F32.div (F32.add F32.pzero (base_value lm s a))
             (F32.of_Z (memory_size s + 1)) /\
   (base_value lm s a <> F32.nzero ->
    smooth s1 (base_value lm s a) =
      F32.div (base_value lm s a) (F32.of_Z (memory_size s + 1)))).
Proof.
  intros Hnew Hpre Hupd H1.
  destruct (SimulatedSensor_new_ok _ _ _ _ _ _ Hnew) as (Hok & Hmem & _).
  destruct (update_many_steps _ _ _ _ _ _ _ Hok Hpre)
    as (Hok1 & Hms1 & Hlen & Hh1 & _).
  destruct (update_step _ _ _ _ _ _ _ Hok1 Hupd) as (Hok2 & Hms2 & _ & _).
  destruct (update_quantizes _ _ _ _ _ _ _ Hupd)
    as (noise & r & Hn & Hq & Hb & _).
  assert (Hh0 : history s = repeat 0 (Z.to_nat (memory_size s))).
  { unfold history. rewrite Hmem. unfold zero_memory.
    destruct Hok as [[_ Hle] _]. apply firstn_repeat_le. lia. }
  assert (Hcfg : background s1 = background s /\ alpha s1 = alpha s /\
                 gamma s1 = gamma s /\ sigma s1 = sigma s).
  { clear - Hpre. revert s w outs s1 w1 Hpre.
    induction pre as [|x tl IH]; intros s w outs s1 w1 H.
    - apply ret_Some in H. inversion H; subst. auto.
    - cbn [update_many] in H.
      apply bind_Some in H as ([b0 t] & w0 & Hu & H).
      apply bind_Some in H as ([o t'] & w0' & Hr & H).
      apply ret_Some in H. inversion H; subst; clear H. cbn [fst snd] in *.
      apply update_result in Hu as [-> _].
      destruct (IH _ _ _ _ _ Hr) as (A & B & C & D).
      cbn [set_memory background alpha gamma sigma] in *. auto. }
  destruct Hcfg as (Cb & Ca & Cg & Cs).
  assert (Hbase : base_value lm s1 a = base_value lm s a)
    by (unfold base_value; now rewrite Ca, Cg).
  assert (Hfl : forall x, floor_background s1 x = floor_background s x)
    by (intros x; unfold floor_background; now rewrite Cb).
  assert (Hsm1 : forall x, smooth s1 x =
            F32.div (F32.add (history_sum (history s1)) x)
                    (F32.of_Z (memory_size s + 1))).
  { intros x. rewrite (smooth_history_sum s1 x Hok1) by lia.
    now rewrite Hms1. }
  assert (Hstart : (length pre <= Z.to_nat (memory_size s))%nat ->
            history s1 =
              repeat 0 (Z.to_nat (memory_size s) - length pre) ++ outs).
  { intros Hk. rewrite Hh1 by exact H1. rewrite Hlen, Hh0.
    rewrite skipn_app, repeat_length.
    replace (length pre - Z.to_nat (memory_size s))%nat with 0%nat by lia.
    cbn [skipn]. f_equal.
    replace (Z.to_nat (memory_size s))
      with (length pre + (Z.to_nat (memory_size s) - length pre))%nat at 1
      by lia.
    rewrite repeat_app.
    rewrite <- (repeat_length 0 (length pre)) at 1.
    rewrite skipn_app, skipn_all, Nat.sub_diag. reflexivity. }
  split; [exact Hmem|].
  split; [exact Hh0|].
  split; [rewrite (history_length _ Hok1); now rewrite Hms1|].
  split; [rewrite (history_length _ Hok2); now rewrite Hms2, Hms1|].
  split.
  { intros m x Hm.
    pose proof (set_memory_ok s m Hok Hm) as Hokm.
    rewrite (smooth_history_sum _ x Hokm) by exact H1. reflexivity. }
  split.
  { exists noise, r. rewrite <- Cs. split; [exact Hn|]. split; [|exact Hb].
    rewrite <- Hq, Hsm1, Hbase, Hfl. reflexivity. }
  split.
  { intros Hk. split; [now apply Hstart|].
    rewrite (Hstart Hk). apply history_sum_zeros. }
  intros E. subst pre.
  assert (Hz : history_sum (history s1) = F32.pzero).
  { rewrite Hstart by (simpl; lia).
    apply ret_Some in Hpre. inversion Hpre; subst.
    rewrite app_nil_r. rewrite <- (app_nil_r (repeat 0 _)).
    rewrite history_sum_zeros. reflexivity. }
  split.
  - rewrite Hsm1, Hz. reflexivity.
  - intros Hnz. rewrite Hsm1, Hz. now rewrite add_pzero_l.
Qed.

Lemma first_update_blends_zeros_witness :
  let w := initial_world [1; 2; 3; 4] [] (F32.of_Z 900) [] in
  let one := F32.of_Z 1 in
  let r1 := run (update_many Sample.libm slow_sensor []) w ([], slow_sensor) in
  let r2 := run (update Sample.libm (snd (fst r1)) one) (snd r1)
              (0, slow_sensor) in
  history slow_sensor = repeat 0 16%nat /\
  length (history (snd (fst r2))) = 16%nat /\
  smooth slow_sensor (base_value Sample.libm slow_sensor one) =
    F32.div (F32.lit 75 100) (F32.of_Z 17) /\
  fst (fst r2) = 8.
Proof.
  intros w one r1 r2.
  destruct (first_update_blends_zeros Sample.libm
              (F32.of_Z 400) (F32.lit 2 100) (F32.lit 75 100) (F32.of_Z 1)
              (F32.lit 3 100)
              slow_sensor [] w (fst (fst r1)) (snd (fst r1)) (snd r1) one
              (fst (fst r2)) (snd (fst r2)) (snd r2))
    as (_ & H1 & _ & H2 & _ & _ & _ & H4).
  - reflexivity.
  - vm_compute. reflexivity.
  - vm_compute. reflexivity.
  - vm_compute. discriminate.
  - split; [exact H1|]. split; [exact H2|].
    destruct (H4 eq_refl) as [_ H5].
    split; [|vm_compute; reflexivity].
    change (snd (fst r1)) with slow_sensor in H5.
    rewrite H5; [vm_compute; reflexivity|vm_compute; discriminate].
Defined.

(** C8.  Starting from an empty accumulator, [n >= 1] calls of
    [accumulate_read_physical_sensor] followed by
    [get_and_reset_accumulated_reads] return the running sum of the [n]
    readings divided by [n], and leave the accumulator empty again, so the
    next cycle starts from the same state. *)
Theorem drain_returns_average (n : nat) (w : World) :
  1 <= Z.of_nat n <= 32767 ->
  accumulated_reads_value w = F32.of_Z 0 ->
  accumulated_reads_count w = 0 ->
  exists w',
    bind (accumulate_n n) (fun _ => get_and_reset_accumulated_reads) w =
      Some (F32.div (sum_reads (F32.of_Z 0) (next_reads w n))
                    (F32.of_Z (Z.of_nat n)), w') /\
    accumulated_reads_value w' = F32.of_Z 0 /\
    accumulated_reads_count w' = 0 /\
    adc_stream w' = adc_stream w /\
    adc_calls w' = (adc_calls w + n)%nat.
Proof.
  intros Hn Hv Hc.
  destruct (accumulate_n_spec n w) as (w1 & Hrun & Hv1 & Hc1 & Hs1 & Hk1);
    [lia|lia|].
  unfold bind at 1. rewrite Hrun.
  unfold get_and_reset_accumulated_reads, bind, get, set_accumulated, ret.
  rewrite Hv1, Hc1, Hv, Hc, Z.add_0_l.
  eexists. split; [reflexivity|].
  cbn [accumulated_reads_value accumulated_reads_count adc_stream adc_calls].
  auto.
Qed.

Lemma drain_returns_average_witness :
  let w := initial_world [] [2; 4; 6; 10] (F32.of_Z 900) [] in
  let cycle n := bind (accumulate_n n) (fun _ => get_and_reset_accumulated_reads) in
  let r1 := run (cycle 3%nat) w F32.nan in
  let r2 := run (cycle 1%nat) (snd r1) F32.nan in
  fst r1 = F32.of_Z 4 /\ fst r2 = F32.of_Z 10.
Proof.
  intros w cycle r1 r2.
  destruct (drain_returns_average 3 w) as (w1 & H1 & _);
    [lia|reflexivity|reflexivity|].
  destruct (drain_returns_average 1 (snd r1)) as (w2 & H2 & _);
    [lia|reflexivity|reflexivity|].
  split.
  - unfold r1, run, cycle. rewrite H1. vm_compute. reflexivity.
  - unfold r2, run, cycle. rewrite H2. vm_compute. reflexivity.
Defined.




(** C3.  With amplitude [1], whatever [rand] returns, [uniform] yields a
    value between [-0.5] and [+0.5], and these two bounds are what the
    smallest and the largest result of [rand] give: the noise spans
    [-sigma / 2, +sigma / 2], half the documented range, and the amplitude
    itself lies outside it. *)
Theorem uniform_spans_half_range :
  (forall w : World,
      exists (x : float) (w' : World),
        uniform (F32.of_Z 1) w = Some (x, w') /\
        within_half_of_one x = true) /\
  uniform_of (F32.of_Z 1) RAND_MAX = F32.half /\
  uniform_of (F32.of_Z 1) 0 = F32.opp F32.half /\
  within_half_of_one (F32.of_Z 1) = false.
Proof.
  split; [|split; [|split]]; [|vm_compute; reflexivity..].
  intros w. unfold uniform, bind, rand, ret.
  eexists. eexists. split; [reflexivity|].
  apply uniform_of_one_range. unfold RAND_MAX.
  pose proof (Z.mod_pos_bound (rand_stream w (rand_calls w)) (32767 + 1)
                ltac:(lia)). lia.
Qed.

(** C2.  The noise term of [update] is [abs(uniform(sigma))] with the macro
    [abs] of Arduino.h, which draws twice: when the first draw is positive
    the second draw is added as it is.  For the third sensor of the source
    (no memory) at absorbance [1], with [rand] returning [RAND_MAX] and then
    [0], the term added is negative and [update] returns 62, below the 64
    that the floored response alone quantizes to. *)
Theorem update_noise_can_subtract :
  let w := initial_world [RAND_MAX; 0] [] F32.pzero [] in
  let one := F32.of_Z 1 in
  let noise := fst (run (abs_uniform (sigma fast_sensor)) w F32.nan) in
  memory_size fast_sensor = 0 /\
  F32.ltb noise F32.pzero = true /\
  clamp_round (floor_background fast_sensor
                 (smooth fast_sensor (base_value Sample.libm fast_sensor one)))
    = Some 64 /\
  fst (fst (run (update Sample.libm fast_sensor one) w (0, fast_sensor))) = 62.
Proof.
  cbv zeta. repeat split; vm_compute; reflexivity.
Qed.

(** C7.  With [physical_full = 900], [POWER_LAW_CORRECTOR_GAMMA = 1] and
    [POWER_LAW_CORRECTOR_C = 1], and a C library whose [log10f] is exact at
    1 and 10 and whose [pow] is exact for the exponent 1 at 0 and 1,
    [physical_to_A(900)] returns 0 and [physical_to_A(90)] returns 1.  The
    result depends on the state through [physical_full] only, so
    [physical_dark] plays no part. *)
Theorem calibrate_end_to_end (lm : Libm) (cfg : Config) (w : World) :
  POWER_LAW_CORRECTOR_GAMMA cfg = F32.of_Z 1 ->
  POWER_LAW_CORRECTOR_C cfg = F32.of_Z 1 ->
  physical_full w = F32.of_Z 900 ->
  log10f lm (F32.of_Z 1) = F32.pzero ->
  log10f lm (F32.of_Z 10) = F32.of_Z 1 ->
  pow lm F32.pzero (F32.of_Z 1) = F32.pzero ->
  pow lm (F32.of_Z 1) (F32.of_Z 1) = F32.of_Z 1 ->
  physical_to_A lm cfg (F32.of_Z 900) w = Some (F32.pzero, w) /\
  physical_to_A lm cfg (F32.of_Z 90) w = Some (F32.of_Z 1, w) /\
  (forall (w2 : World) (x : float),
      physical_full w2 = physical_full w ->
      option_map fst (physical_to_A lm cfg x w2) =
      option_map fst (physical_to_A lm cfg x w)).
Proof.
  intros Hg Hc Hf L1 L10 P0 P1.
  unfold physical_to_A, physical_to_A_of, bind, get, ret.
  rewrite Hg, Hc, Hf.
  change (F32.div (F32.of_Z 900) (F32.of_Z 900)) with (F32.of_Z 1).
  change (F32.div (F32.of_Z 900) (F32.of_Z 90)) with (F32.of_Z 10).
  rewrite L1, L10.
  change (Arduino.max (F32.of_Z 0) (F32.div F32.pzero (F32.of_Z 1)))
    with F32.pzero.
  change (Arduino.max (F32.of_Z 0) (F32.div (F32.of_Z 1) (F32.of_Z 1)))
    with (F32.of_Z 1).
  rewrite P0, P1.
  split; [reflexivity|]. split; [reflexivity|].
  intros w2 x E. cbn [option_map fst]. now rewrite E.
Qed.

Lemma calibrate_end_to_end_witness :
  let cfg := {| POWER_LAW_CORRECTOR_GAMMA := F32.of_Z 1;
                POWER_LAW_CORRECTOR_C := F32.of_Z 1;
                OUTPUT_CALIBRATED_A := false |} in
  let w := running_world [] in
  physical_dark w = F32.of_Z 100 /\
  physical_to_A Sample.libm cfg (F32.of_Z 900) w = Some (F32.pzero, w) /\
  physical_to_A Sample.libm cfg (F32.of_Z 90) w = Some (F32.of_Z 1, w).
Proof.
  intros cfg w.
  destruct (calibrate_end_to_end Sample.libm cfg w) as (H1 & H2 & _);
    try reflexivity.
  split; [reflexivity|]. split; [exact H1|exact H2].
Defined.

(** C1, as stated: over the C libraries that follow Annex F, it is not
    true that [physical_to_A] returns a finite value that is not negative
    for every reading.  A reading of 0 against a full level of 900 gives
    [+inf], and a reading of -5 gives NaN. *)
Lemma calibrate_not_always_finite :
  ~ (forall (lm : Libm) (full x : float),
        AnnexF lm ->
        F32.finite_nonneg (physical_to_A_of lm sketch full x) = true).
Proof.
  intros H.
  specialize (H Sample.libm (F32.of_Z 900) (F32.of_Z 0) Sample_AnnexF).
  vm_compute in H. discriminate H.
Qed.

(** C4.  [update] always draws its noise term; when the value it then
    quantizes is a binary32 number (finite, infinite or NaN), the call
    returns a byte between 0 and 255, which is 255 when that value is at
    least [MAX_A] and 0 when it is at most 0.  The cast to [long] inside
    [round] is always defined and the narrowing to [uint8_t] never wraps. *)
Theorem quantization_saturates
    (lm : Libm) (s : SimulatedSensor) (real_A : float) (w : World) :
  exists (noise : float) (w1 : World),
    abs_uniform (sigma s) w = Some (noise, w1) /\
    (F32.valid (pre_quantization lm s real_A noise) = true ->
     exists b : Z,
       clamp_round (pre_quantization lm s real_A noise) = Some b /\
       update lm s real_A w = Some ((b, set_memory s (push_memory s b)), w1) /\
       0 <= b <= UINT8_MAX /\
       (F32.leb MAX_A (pre_quantization lm s real_A noise) = true ->
        b = UINT8_MAX) /\
       (F32.leb (pre_quantization lm s real_A noise) F32.pzero = true ->
        b = 0)).
Proof.
  destruct (abs_uniform_total (sigma s) w) as (noise & w1 & Hn).
  exists noise, w1. split; [exact Hn|]. intros Hv.
  destruct (clamp_round_range _ Hv) as (z & Hz & Hr & H2 & H0).
  exists z. split; [exact Hz|]. split; [|split; [exact Hr|split; assumption]].
  unfold update, bind. rewrite Hn.
  fold (pre_quantization lm s real_A noise).
  unfold lift. rewrite Hz. unfold ret.
  rewrite (to_uint8_small z) by exact Hr. reflexivity.
Qed.

Lemma quantization_saturates_witness :
  let w := initial_world [5; 6] [] F32.pzero [] in
  fst (fst (run (update Sample.libm fast_sensor (F32.of_Z 7)) w (0, fast_sensor)))
    = 255.
Proof.
  intros w.
  destruct (quantization_saturates Sample.libm fast_sensor (F32.of_Z 7) w)
    as (noise & w1 & Hn & H).
  assert (En : noise = fst (run (abs_uniform (sigma fast_sensor)) w F32.nan)).
  { unfold run. rewrite Hn. reflexivity. }
  destruct H as (b & _ & Hu & _ & H2 & _).
  - rewrite En. vm_compute. reflexivity.
  - unfold run. rewrite Hu. cbn [fst]. apply H2.
    rewrite En. vm_compute. reflexivity.
Defined.

(** C6.  For a positive full level and a positive scale corrector, and a C
    library that follows Annex F and whose [log10f] and [pow] preserve the
    order, [physical_to_A] does not increase: of two positive readings the
    larger one gives the smaller or equal absorbance. *)
Theorem calibrate_monotone
    (lm : Libm) (cfg : Config) (full x1 x2 : float) :
  AnnexF lm ->
  LibmMonotone lm (POWER_LAW_CORRECTOR_GAMMA cfg) ->
  positive_finite (POWER_LAW_CORRECTOR_C cfg) ->
  positive_finite full ->
  positive_finite x1 ->
  positive_finite x2 ->
  F32.leb x1 x2 = true ->
  F32.leb (physical_to_A_of lm cfg full x2)
          (physical_to_A_of lm cfg full x1) = true.
Proof.
  intros HF HM (mc & ec & Ec & Vc) (mf & ef & Ef & Vf)
         (m1 & e1 & E1 & V1) (m2 & e2 & E2 & V2) H.
  unfold physical_to_A_of. rewrite Ec, Ef, E1, E2 in *.
  pose proof (div_nonneg mf ef m1 e1 Vf V1) as R1.
  pose proof (div_nonneg mf ef m2 e2 Vf V2) as R2.
  pose proof (div_mono_r mf ef m1 e1 m2 e2 Vf V1 V2 H) as Hr.
  set (g := POWER_LAW_CORRECTOR_GAMMA cfg) in *.
  destruct (log10f_nonneg_ok lm g _ HF HM R1) as [L1 N1].
  destruct (log10f_nonneg_ok lm g _ HF HM R2) as [L2 N2].
  pose proof (log10f_nonneg_mono lm g _ _ HF HM R2 R1 Hr) as Hl.
  destruct (clamp_div_nonneg _ mc ec L2 N2 Vc) as [G2 _].
  destruct (clamp_div_nonneg _ mc ec L1 N1 Vc) as [G1 _].
  apply (pow_mono lm g HM).
  - now apply nonneg_valid.
  - now apply nonneg_valid.
  - now apply nonneg_leb_pzero.
  - now apply clamp_div_mono.
Qed.

Lemma calibrate_monotone_witness :
  F32.leb (physical_to_A_of Sample.libm sketch (F32.of_Z 900) (F32.of_Z 450))
          (physical_to_A_of Sample.libm sketch (F32.of_Z 900) (F32.of_Z 90))
    = true.
Proof.
  apply calibrate_monotone.
  - exact Sample_AnnexF.
  - exact Sample_Monotone.
  - eexists; eexists; split; [vm_compute; reflexivity|reflexivity].
  - eexists; eexists; split; [vm_compute; reflexivity|reflexivity].
  - eexists; eexists; split; [vm_compute; reflexivity|reflexivity].
  - eexists; eexists; split; [vm_compute; reflexivity|reflexivity].
  - vm_compute. reflexivity.
Defined.

(** C1, amended.  With [POWER_LAW_CORRECTOR_C = 1], a positive full level
    and a positive reading whose ratio [physical_full / physical_value] does
    not overflow, [physical_to_A] returns a finite value that is not
    negative, provided [log10f] is finite on positive numbers and [pow]
    keeps finite non-negative bases finite and non-negative; when the
    logarithm is not positive the clamp makes the base of [pow] a zero.  A
    reading of 0 is not clamped: the ratio is [+inf] and so is the result. *)
Theorem calibrate_finite_in_range
    (lm : Libm) (cfg : Config) (full x : float) :
  AnnexF lm ->
  (forall r : float, positive_finite r ->
     F32.is_finite (log10f lm r) = true /\ F32.valid (log10f lm r) = true) ->
  (forall b : float, F32.valid b = true -> F32.finite_nonneg b = true ->
     F32.finite_nonneg (pow lm b (POWER_LAW_CORRECTOR_GAMMA cfg)) = true) ->
  POWER_LAW_CORRECTOR_C cfg = F32.of_Z 1 ->
  F32.ltb F32.pzero (POWER_LAW_CORRECTOR_GAMMA cfg) = true ->
  positive_finite full ->
  positive_finite x ->
  F32.div full x <> F32.pinf ->
  F32.finite_nonneg (physical_to_A_of lm cfg full x) = true /\
  (F32.leb (log10f lm (F32.div full x)) F32.pzero = true ->
   exists s : bool,
     physical_to_A_of lm cfg full x =
       pow lm (S754_zero s) (POWER_LAW_CORRECTOR_GAMMA cfg)) /\
  physical_to_A_of lm cfg full F32.pzero = F32.pinf.
Proof.
  intros HF Hlog Hpow Hc Hg (mf & ef & Ef & Vf) (mx & ex & Ex & Vx) Hov.
  unfold physical_to_A_of. rewrite Hc. subst full x.
  set (g := POWER_LAW_CORRECTOR_GAMMA cfg) in *.
  assert (Vone : F32.valid (S754_finite false 8388608 (-23)) = true)
    by reflexivity.
  change (F32.of_Z 1) with (S754_finite false 8388608 (-23)).
  split; [|split].
  - pose proof (div_nonneg mf ef mx ex Vf Vx) as R.
    destruct R as [s|m e V|]; [| |contradiction Hov; reflexivity].
    + rewrite (log10f_zero lm HF). apply Hpow; reflexivity.
    + destruct (Hlog (S754_finite false m e)) as [Lf Lv].
      { exists m, e. split; [reflexivity|exact V]. }
      destruct (log10f lm (S754_finite false m e)) as [s|s| |s ml el];
        try discriminate Lf.
      * apply Hpow; destruct s; reflexivity.
      * change (S754_finite false 8388608 (-23)) with (F32.of_Z 1).
        rewrite (div_one s ml el Lv).
        destruct s; apply Hpow; try reflexivity. exact Lv.
  - intros Hle.
    assert (Vl : F32.valid (log10f lm (F32.div (S754_finite false mf ef)
                                               (S754_finite false mx ex)))
                 = true /\
                 F32.is_nan (log10f lm (F32.div (S754_finite false mf ef)
                                                (S754_finite false mx ex)))
                 = false).
    { pose proof (div_nonneg mf ef mx ex Vf Vx) as R.
      destruct R as [s|m e V|]; [| |contradiction Hov; reflexivity].
      - rewrite (log10f_zero lm HF). split; reflexivity.
      - destruct (Hlog (S754_finite false m e)) as [Lf Lv].
        { exists m, e. split; [reflexivity|exact V]. }
        split; [exact Lv|].
        destruct (log10f lm (S754_finite false m e));
          try discriminate Lf; reflexivity. }
    destruct Vl as [Vl Nl].
    destruct (clamp_div_nonneg _ 8388608 (-23) Vl Nl Vone) as [_ Hz].
    destruct (Hz Hle) as [s Es]. exists s. now rewrite Es.
  - change (F32.div (S754_finite false mf ef) F32.pzero) with F32.pinf.
    rewrite (log10f_pinf lm HF).
    change (Arduino.max (F32.of_Z 0)
              (F32.div F32.pinf (S754_finite false 8388608 (-23))))
      with F32.pinf.
    apply (pow_pinf lm HF). exact Hg.
Qed.

Lemma calibrate_finite_in_range_witness :
  F32.finite_nonneg
    (physical_to_A_of Sample.libm sketch (F32.of_Z 900) (F32.of_Z 1000)) = true /\
  physical_to_A_of Sample.libm sketch (F32.of_Z 900) (F32.of_Z 1000) = F32.pzero /\
  physical_to_A_of Sample.libm sketch (F32.of_Z 900) F32.pzero = F32.pinf.
Proof.
  destruct (calibrate_finite_in_range Sample.libm sketch
              (F32.of_Z 900) (F32.of_Z 1000)) as (H1 & H2 & H3).
  - exact Sample_AnnexF.
  - exact (log10f_finite _ _ Sample_Monotone).
  - intros b Vb Hb. cbn [pow Sample.libm].
    assert (G : nonneg b).
    { apply nonneg_of_leb; [exact Vb|].
      unfold F32.finite_nonneg in Hb. now apply andb_true_iff in Hb. }
    rewrite (Sample_pow_gamma b G).
    destruct G; [reflexivity|exact Hb|discriminate Hb].
  - reflexivity.
  - vm_compute. reflexivity.
  - eexists; eexists; split; [vm_compute; reflexivity|reflexivity].
  - eexists; eexists; split; [vm_compute; reflexivity|reflexivity].
  - vm_compute. discriminate.
  - split; [exact H1|]. split; [|exact H3].
    destruct H2 as [s Hs]; [vm_compute; reflexivity|].
    rewrite Hs. destruct s; reflexivity.
Defined.

(** * Further properties *)

(** ** What each call does to the state *)

Lemma uniform_world (sg : float) (w : World) (r : float * World) :
  uniform sg w = Some r -> snd r = after_rand_serial w 1 [].
Proof.
  unfold uniform, bind, rand, ret. intros H; inversion H; subst.
  unfold after_rand_serial. cbn [snd]. now rewrite app_nil_r.
Qed.

Lemma after_rand_serial_twice (w : World) (k1 k2 : nat) (l1 l2 : list Z) :
  after_rand_serial (after_rand_serial w k1 l1) k2 l2 =
  after_rand_serial w (k2 + k1) (l1 ++ l2).
Proof.
  unfold after_rand_serial. cbn. f_equal; [lia|now rewrite app_assoc].
Qed.

Lemma after_rand_serial_zero (w : World) : after_rand_serial w 0 [] = w.
Proof.
  destruct w. unfold after_rand_serial. cbn. now rewrite app_nil_r.
Qed.

(** [abs(uniform(sigma))] calls [rand] twice and does nothing else. *)
Lemma abs_uniform_world (sg : float) (w : World) (r : float * World) :
  abs_uniform sg w = Some r -> snd r = after_rand_serial w 2 [].
Proof.
  unfold abs_uniform. intros H.
  apply bind_Some in H as (x & w1 & H1 & H).
  apply uniform_world in H1. cbn [snd] in H1. subst w1.
  destruct (F32.gtb x (F32.of_Z 0)).
  - apply uniform_world in H. rewrite H.
    now rewrite after_rand_serial_twice.
  - apply bind_Some in H as (y & w2 & H2 & H).
    apply uniform_world in H2. cbn [snd] in H2. subst w2.
    apply ret_Some in H. subst r. cbn [snd].
    now rewrite after_rand_serial_twice.
Qed.

Lemma update_world (lm : Libm) (s : SimulatedSensor) (a : float) (w : World)
    (r : Z * SimulatedSensor * World) :
  update lm s a w = Some r -> snd r = after_rand_serial w 2 [].
Proof.
  unfold update. intros H.
  apply bind_Some in H as (noise & w1 & H1 & H).
  apply abs_uniform_world in H1. cbn [snd] in H1. subst w1.
  apply bind_Some in H as (z & w2 & H2 & H).
  apply lift_Some in H2 as [_ E]. cbn [snd] in E. subst w2.
  apply ret_Some in H. now subst r.
Qed.

Lemma update_sensors_world (lm : Libm) (a : float) (ss : list SimulatedSensor) :
  forall (w : World) (ss' : list SimulatedSensor) (w' : World),
    update_sensors lm a ss w = Some (ss', w') ->
    exists outs,
      w' = after_rand_serial w (2 * length ss) outs /\
      length outs = length ss /\ Forall is_byte outs /\
      each_updated lm a ss outs ss'.
Proof.
  induction ss as [|s ss IH]; intros w ss' w' H.
  - apply ret_Some in H. inversion H; subst.
    exists []. rewrite after_rand_serial_zero.
    repeat split; constructor.
  - cbn [update_sensors] in H.
    apply bind_Some in H as ([b s1] & w1 & Hu & H).
    apply bind_Some in H as ([] & w2 & Hw & H).
    apply bind_Some in H as (tl' & w3 & Hrec & H).
    apply ret_Some in H. inversion H; subst; clear H. cbn [fst snd] in *.
    pose proof (update_world _ _ _ _ _ Hu) as Ew. cbn [snd] in Ew.
    pose proof (update_result _ _ _ _ _ _ _ Hu) as [_ Hb].
    unfold Serial_write in Hw. inversion Hw; subst w2; clear Hw.
    destruct (IH _ _ _ Hrec) as (outs & E1 & E2 & E3 & E4).
    exists (b :: outs). split; [|split; [|split]].
    + rewrite E1, Ew, (to_uint8_small b Hb).
      unfold after_rand_serial. cbn.
      f_equal; [lia|]. rewrite app_nil_r, <- app_assoc. reflexivity.
    + cbn. now rewrite E2.
    + constructor; [exact Hb|exact E3].
    + constructor; [now exists w, w1|exact E4].
Qed.

Lemma each_updated_length (lm : Libm) (a : float)
    (ss : list SimulatedSensor) (bs : list Z) (ss' : list SimulatedSensor) :
  each_updated lm a ss bs ss' -> length ss' = length ss.
Proof. induction 1; cbn; congruence. Qed.

(** The state after one sampling tick, field by field. *)
Lemma tick_world (lm : Libm) (cfg : Config) (w w' : World) :
  tick lm cfg w = Some (tt, w') ->
  exists (cal outs : list Z) (ss' : list SimulatedSensor),
    let real_A :=
      physical_to_A_of lm cfg (physical_full w)
        (F32.div (accumulated_reads_value w)
                 (F32.of_Z (accumulated_reads_count w))) in
    w' = {| rand_stream := rand_stream w;
            rand_calls := (2 * length (sensors w) + rand_calls w)%nat;
            adc_stream := adc_stream w;
            adc_calls := adc_calls w;
            physical_dark := physical_dark w;
            physical_full := physical_full w;
            accumulated_reads_value := F32.of_Z 0;
            accumulated_reads_count := 0;
            sensors := ss';
            nextTick := (nextTick w + simulation_dt_ms) mod 2 ^ 32;
            serial := serial w ++ cal ++ outs ++
                      [to_uint8 (b2z (OUTPUT_CALIBRATED_A cfg)
                                 + Z.of_nat (length (sensors w))); 10] |} /\
    (if OUTPUT_CALIBRATED_A cfg
     then exists z, clamp_round real_A = Some z /\ cal = [to_uint8 z]
     else cal = []) /\
    length outs = length (sensors w) /\ Forall is_byte outs /\
    each_updated lm real_A (sensors w) outs ss'.
Proof.
  intros H. unfold tick in H.
  apply bind_Some in H as (t & w1 & H1 & H).
  unfold get in H1. inversion H1; subst t w1; clear H1.
  apply bind_Some in H as ([] & w2 & H2 & H).
  unfold set_nextTick in H2. inversion H2; subst w2; clear H2.
  apply bind_Some in H as (avg & w3 & H3 & H).
  unfold get_and_reset_accumulated_reads, bind, get, set_accumulated, ret in H3.
  inversion H3; subst avg w3; clear H3.
  apply bind_Some in H as (real_A & w4 & H4 & H).
  unfold physical_to_A, bind, get, ret in H4.
  inversion H4; subst real_A w4; clear H4.
  cbn [rand_stream rand_calls adc_stream adc_calls physical_dark
       physical_full accumulated_reads_value accumulated_reads_count
       sensors nextTick serial] in H.
  apply bind_Some in H as ([] & w5 & H5 & H).
  apply bind_Some in H as (ss & w6 & H6 & H).
  unfold get in H6. inversion H6; subst ss w6; clear H6.
  apply bind_Some in H as (ss' & w7 & H7 & H).
  apply bind_Some in H as ([] & w8 & H8 & H).
  unfold set_sensors in H8. inversion H8; subst w8; clear H8.
  apply bind_Some in H as ([] & w9 & H9 & H).
  unfold Serial_write in H9, H. inversion H9; subst w9; clear H9.
  inversion H; subst w'; clear H.
  destruct (update_sensors_world _ _ _ _ _ _ H7) as (outs & E1 & E2 & E3 & E4).
  subst w7.
  destruct (OUTPUT_CALIBRATED_A cfg) eqn:Ec.
  - apply bind_Some in H5 as (r & wa & Ha & Hb).
    apply lift_Some in Ha as [Ha Ea]. cbn [fst snd] in Ha, Ea. subst wa.
    unfold Serial_write in Hb. inversion Hb; subst w5; clear Hb.
    cbn [rand_stream rand_calls adc_stream adc_calls physical_dark
         physical_full accumulated_reads_value accumulated_reads_count
         sensors nextTick serial after_rand_serial] in *.
    exists [to_uint8 r], outs, ss'. cbv zeta.
    split; [|split; [exists r; split; [exact Ha|reflexivity]|
                     split; [exact E2|split; [exact E3|exact E4]]]].
    f_equal. rewrite <- !app_assoc. reflexivity.
  - apply ret_Some in H5. inversion H5; subst w5; clear H5.
    cbn [rand_stream rand_calls adc_stream adc_calls physical_dark
         physical_full accumulated_reads_value accumulated_reads_count
         sensors nextTick serial after_rand_serial] in *.
    exists [], outs, ss'. cbv zeta.
    split; [|split; [reflexivity|
                     split; [exact E2|split; [exact E3|exact E4]]]].
    f_equal. rewrite <- !app_assoc. reflexivity.
Qed.

(** The state after a call of [loop] before [nextTick]. *)
Lemma loop_accumulate_world (lm : Libm) (cfg : Config) (now : Z) (w : World) :
  now < nextTick w ->
  loop lm cfg now w =
    Some (tt,
          {| rand_stream := rand_stream w;
             rand_calls := rand_calls w;
             adc_stream := adc_stream w;
             adc_calls := S (adc_calls w);
             physical_dark := physical_dark w;
             physical_full := physical_full w;
             accumulated_reads_value :=
               F32.add (accumulated_reads_value w)
                       (F32.of_Z (adc_stream w (adc_calls w) mod 1024));
             accumulated_reads_count :=
               to_int16 (accumulated_reads_count w + 1);
             sensors := sensors w;
             nextTick := nextTick w;
             serial := serial w |}).
Proof.
  intros H. unfold loop, bind, get.
  destruct (Z.ltb_spec now (nextTick w)) as [_|Hge]; [|lia].
  reflexivity.
Qed.

(** X1.  What one call of [loop] does to the state.  It never changes the
    calibration levels or the number of sensors.  Before [nextTick] it reads
    one ADC sample, draws no random number and sends nothing; at or after
    [nextTick] it reads no ADC sample, calls [rand] twice per sensor, empties
    the accumulator and moves [nextTick] on by [simulation_dt_ms] modulo
    [2 ^ 32]. *)
Theorem loop_effects (lm : Libm) (cfg : Config) (now : Z) (w w' : World) :
  loop lm cfg now w = Some (tt, w') ->
  physical_dark w' = physical_dark w /\
  physical_full w' = physical_full w /\
  length (sensors w') = length (sensors w) /\
  (now < nextTick w ->
   serial w' = serial w /\ sensors w' = sensors w /\
   nextTick w' = nextTick w /\
   adc_calls w' = S (adc_calls w) /\ rand_calls w' = rand_calls w) /\
  (nextTick w <= now ->
   rand_calls w' = (2 * length (sensors w) + rand_calls w)%nat /\
   adc_calls w' = adc_calls w /\
   accumulated_reads_value w' = F32.of_Z 0 /\
   accumulated_reads_count w' = 0 /\
   nextTick w' = (nextTick w + simulation_dt_ms) mod 2 ^ 32).
Proof.
  intros H.
  destruct (Z.lt_ge_cases now (nextTick w)) as [Hlt|Hge].
  - rewrite (loop_accumulate_world lm cfg now w Hlt) in H.
    inversion H; subst w'; clear H.
    cbn [rand_stream rand_calls adc_stream adc_calls physical_dark
         physical_full accumulated_reads_value accumulated_reads_count
         sensors nextTick serial].
    repeat split; try reflexivity; intros; lia.
  - assert (Ht : tick lm cfg w = Some (tt, w')).
    { unfold loop, bind, get in H.
      destruct (Z.ltb_spec now (nextTick w)); [lia|exact H]. }
    destruct (tick_world lm cfg w w' Ht) as (cal & outs & ss' & E & _ & _ & _ & Hu).
    cbv zeta in E, Hu. rewrite E.
    cbn [rand_stream rand_calls adc_stream adc_calls physical_dark
         physical_full accumulated_reads_value accumulated_reads_count
         sensors nextTick serial].
    split; [reflexivity|]. split; [reflexivity|].
    split; [exact (each_updated_length _ _ _ _ _ Hu)|].
    split; [intros; lia|]. intros _. repeat split; reflexivity.
Qed.

Lemma loop_effects_witness :
  let w := running_world [7; 8; 9; 10; 11; 12; 13; 14] in
  let r := run (loop Sample.libm sketch 25) w tt in
  rand_calls (snd r) = 8%nat /\ adc_calls (snd r) = 3%nat /\
  nextTick (snd r) = 50 /\ accumulated_reads_count (snd r) = 0.
Proof.
  intros w r.
  destruct (loop_effects Sample.libm sketch 25 w (snd r))
    as (_ & _ & _ & _ & H).
  - vm_compute. reflexivity.
  - destruct H as (H1 & H2 & _ & H4 & H5); [vm_compute; discriminate|].
    rewrite H1, H2, H4, H5. repeat split; reflexivity.
Defined.

Lemma framed_app_frame (k : nat) (l body : list Z) :
  framed k l -> length body = k -> Forall is_byte body ->
  framed k (l ++ body ++ [Z.of_nat k; 10]).
Proof. intros. now constructor. Qed.

(** X2.  Over any sequence of calls of [loop] the serial stream stays a
    sequence of whole frames: each has [OUTPUT_CALIBRATED_A + n_sensors]
    value bytes between 0 and 255, then that count, then the newline.  No
    partial frame is ever left in the stream. *)
Theorem loops_framed (lm : Libm) (cfg : Config) (times : list Z) :
  forall (w w' : World),
    loops lm cfg times w = Some (tt, w') ->
    b2z (OUTPUT_CALIBRATED_A cfg) + Z.of_nat (length (sensors w)) < 256 ->
    framed (Z.to_nat (b2z (OUTPUT_CALIBRATED_A cfg)
                      + Z.of_nat (length (sensors w)))) (serial w) ->
    framed (Z.to_nat (b2z (OUTPUT_CALIBRATED_A cfg)
                      + Z.of_nat (length (sensors w)))) (serial w') /\
    length (sensors w') = length (sensors w).
Proof.
  induction times as [|t tl IH]; intros w w' H Hk Hf.
  - apply ret_Some in H. inversion H; subst. auto.
  - cbn [loops] in H.
    apply bind_Some in H as ([] & w1 & H1 & H).
    assert (Hstep :
      framed (Z.to_nat (b2z (OUTPUT_CALIBRATED_A cfg)
                        + Z.of_nat (length (sensors w)))) (serial w1) /\
      length (sensors w1) = length (sensors w)).
    { destruct (Z.lt_ge_cases t (nextTick w)) as [Hlt|Hge].
      - rewrite (loop_accumulate_world lm cfg t w Hlt) in H1.
        inversion H1; subst w1. cbn [serial sensors]. auto.
      - assert (Ht : tick lm cfg w = Some (tt, w1)).
        { unfold loop, bind, get in H1.
          destruct (Z.ltb_spec t (nextTick w)); [lia|exact H1]. }
        destruct (tick_world lm cfg w w1 Ht)
          as (cal & outs & ss' & E & Hc & Hl & Hb & Hu).
        cbv zeta in E, Hc, Hu. rewrite E. cbn [serial sensors].
        split; [|exact (each_updated_length _ _ _ _ _ Hu)].
        assert (Hcal : length cal
                       = Z.to_nat (b2z (OUTPUT_CALIBRATED_A cfg)) /\
                       Forall is_byte cal).
        { destruct (OUTPUT_CALIBRATED_A cfg).
          - destruct Hc as (z & _ & ->). split; [reflexivity|].
            constructor; [apply to_uint8_range|constructor].
          - subst cal. split; [reflexivity|constructor]. }
        destruct Hcal as [Lc Fc].
        assert (B : 0 <= b2z (OUTPUT_CALIBRATED_A cfg))
          by (destruct (OUTPUT_CALIBRATED_A cfg); cbn; lia).
        rewrite to_uint8_small by (unfold UINT8_MAX; lia).
        replace (b2z (OUTPUT_CALIBRATED_A cfg) + Z.of_nat (length (sensors w)))
          with (Z.of_nat (Z.to_nat (b2z (OUTPUT_CALIBRATED_A cfg)
                                    + Z.of_nat (length (sensors w)))))
          at 2 by lia.
        rewrite (app_assoc cal outs).
        apply framed_app_frame; [exact Hf| |].
        + rewrite length_app, Lc, Hl. lia.
        + apply Forall_app. split; assumption. }
    destruct Hstep as [Hf1 Hl1].
    rewrite <- Hl1 in *. 
    destruct (IH w1 w' H Hk Hf1) as [Hf' Hl']. split; [exact Hf'|].
    exact Hl'.
Qed.

Lemma loops_framed_witness :
  let w := running_world [7; 8; 9; 10; 11; 12; 13; 14] in
  let r := run (loops Sample.libm sketch [10; 25; 30; 49]) w tt in
  framed 4 (serial (snd r)) /\ length (serial (snd r)) = 6%nat.
Proof.
  intros w r.
  destruct (loops_framed Sample.libm sketch [10; 25; 30; 49] w (snd r))
    as [H _].
  - vm_compute. reflexivity.
  - vm_compute. reflexivity.
  - constructor.
  - split; [exact H|vm_compute; reflexivity].
Defined.

(** ** Integers the format holds exactly *)

Lemma of_Z_exact (z : Z) :
  0 < z <= 2 ^ 24 ->
  exists m e, F32.of_Z z = S754_finite false m e /\
              F32.valid (S754_finite false m e) = true /\
              U m e = z * 2 ^ 149.
Proof.
  intros [Hz Hle].
  destruct (Z.eq_dec z (2 ^ 24)) as [->|Hne].
  { exists 8388608%positive, 1. repeat split; vm_compute; reflexivity. }
  assert (Hlt : z < 2 ^ 24) by lia.
  pose proof (Zdigits2_bounds z Hz) as [B1 B2].
  pose proof (Zdigits2_lt_pow z 24 ltac:(lia) ltac:(lia)) as Hd.
  assert (Hd1 : 1 <= Zdigits2 z).
  { pose proof (Zdigits2_ge_pow z 0 ltac:(cbn; lia) ltac:(lia)). lia. }
  set (d := Zdigits2 z) in *.
  assert (P0 : 0 < 2 ^ (24 - d)) by (apply Z.pow_pos_nonneg; lia).
  assert (P1 : 2 ^ (d - 1) * 2 ^ (24 - d) = 2 ^ 23).
  { rewrite <- (Z.pow_add_r 2 (d - 1) (24 - d)) by lia. f_equal. lia. }
  assert (P2 : 2 ^ d * 2 ^ (24 - d) = 2 ^ 24).
  { rewrite <- (Z.pow_add_r 2 d (24 - d)) by lia. f_equal. lia. }
  assert (Hm : 2 ^ 23 <= z * 2 ^ (24 - d) < 2 ^ 24).
  { rewrite <- P1, <- P2. split.
    - apply Z.mul_le_mono_nonneg_r; lia.
    - apply Z.mul_lt_mono_pos_r; lia. }
  destruct (z * 2 ^ (24 - d)) as [|m|m] eqn:Em;
    [change (2 ^ 23) with 8388608 in Hm; lia| |lia].
  assert (Hk : key_ok (d - 24, Z.pos m)).
  { unfold key_ok. cbn [fst snd]. split; [lia|]. split; [lia|]. intros _. lia. }
  assert (Hv : F32.valid (S754_finite false m (d - 24)) = true)
    by (apply key_ok_valid; [exact Hk|lia]).
  assert (HU : U m (d - 24) = z * 2 ^ 149).
  { unfold U. rewrite <- Em.
    replace (d - 24 + 149) with (d + 125) by lia.
    rewrite <- Z.mul_assoc.
    rewrite <- (Z.pow_add_r 2 (24 - d) (d + 125)) by lia.
    do 2 f_equal. lia. }
  exists m, (d - 24). split; [|split; assumption].
  destruct z as [|p|p]; try lia.
  rewrite of_Z_Round. unfold K.
  rewrite <- (Round_exact false m (d - 24) Hv). rewrite HU.
  f_equal. rewrite <- Z.mul_assoc.
  rewrite <- (Z.pow_add_r 2 149 149) by lia. reflexivity.
Qed.

Lemma add_pzero_r (s : bool) (m : positive) (e : Z) :
  F32.add (S754_finite s m e) F32.pzero = S754_finite s m e.
Proof. reflexivity. Qed.

Lemma add_of_Z_exact (a b : Z) :
  0 <= a -> 0 <= b -> a + b <= 2 ^ 24 ->
  F32.add (F32.of_Z a) (F32.of_Z b) = F32.of_Z (a + b).
Proof.
  intros Ha Hb Hs.
  destruct (Z.eq_dec b 0) as [->|Hb0].
  { rewrite Z.add_0_r. destruct (Z.eq_dec a 0) as [->|Ha0]; [reflexivity|].
    destruct (of_Z_exact a ltac:(lia)) as (m & e & -> & _).
    apply add_pzero_r. }
  destruct (of_Z_exact b ltac:(lia)) as (m2 & e2 & E2 & V2 & U2).
  destruct (Z.eq_dec a 0) as [->|Ha0].
  { rewrite Z.add_0_l, E2. reflexivity. }
  destruct (of_Z_exact a ltac:(lia)) as (m1 & e1 & E1 & V1 & U1).
  rewrite E1, E2.
  destruct (valid_finite _ _ _ V1) as (_ & (K1 & _) & _).
  destruct (valid_finite _ _ _ V2) as (_ & (K2 & _) & _).
  cbn [fst] in K1, K2.
  rewrite add_Round by assumption. rewrite U1, U2.
  destruct (a + b) as [|p|p] eqn:Ep; try lia.
  rewrite of_Z_Round. unfold K. f_equal.
  rewrite <- Z.mul_add_distr_r, Ep, <- Z.mul_assoc.
  rewrite <- (Z.pow_add_r 2 149 149) by lia. reflexivity.
Qed.

Lemma total_nonneg (l : list Z) :
  Forall (fun r => 0 <= r <= 1023) l -> 0 <= total l <= 1023 * Z.of_nat (length l).
Proof.
  induction 1 as [|r l Hr _ IH]; cbn [total fold_right length]; [lia|].
  fold (total l). lia.
Qed.

Lemma sum_reads_exact (l : list Z) :
  forall v : Z,
    0 <= v -> Forall (fun r => 0 <= r <= 1023) l ->
    v + total l <= 2 ^ 24 ->
    sum_reads (F32.of_Z v) l = F32.of_Z (v + total l).
Proof.
  induction l as [|r l IH]; intros v Hv Hl Hs.
  - cbn. now rewrite Z.add_0_r.
  - inversion Hl as [|? ? Hr Hl']; subst.
    cbn [sum_reads fold_left total fold_right] in *. fold (total l) in *.
    pose proof (total_nonneg l Hl') as [T0 _].
    rewrite add_of_Z_exact by lia.
    fold (sum_reads (F32.of_Z (v + r)) l).
    rewrite IH by (try assumption; lia). f_equal. lia.
Qed.

Lemma next_reads_range (w : World) (n : nat) :
  Forall (fun r => 0 <= r <= 1023) (next_reads w n).
Proof.
  unfold next_reads. apply Forall_forall. intros r Hin.
  apply in_map_iff in Hin as (i & <- & _).
  pose proof (Z.mod_pos_bound (adc_stream w (adc_calls w + i)) 1024 ltac:(lia)).
  lia.
Qed.

Lemma next_reads_length (w : World) (n : nat) : length (next_reads w n) = n.
Proof. unfold next_reads. now rewrite length_map, length_seq. Qed.

(** X3.  The running sum of the accumulator has no rounding error: from an
    empty accumulator, up to 16400 calls of
    [accumulate_read_physical_sensor] leave in [accumulated_reads_value]
    the conversion of the integer sum of the readings, because that sum
    stays within the 24 bits of the mantissa. *)
Theorem accumulator_exact (n : nat) (w : World) :
  Z.of_nat n <= 16400 ->
  accumulated_reads_value w = F32.of_Z 0 ->
  accumulated_reads_count w = 0 ->
  exists w',
    accumulate_n n w = Some (tt, w') /\
    accumulated_reads_value w' = F32.of_Z (total (next_reads w n)) /\
    accumulated_reads_count w' = Z.of_nat n.
Proof.
  intros Hn Hv Hc.
  destruct (accumulate_n_spec n w) as (w' & Hrun & Hv' & Hc' & _); [lia|lia|].
  exists w'. split; [exact Hrun|]. split; [|lia].
  rewrite Hv', Hv.
  pose proof (total_nonneg _ (next_reads_range w n)) as [_ T].
  rewrite next_reads_length in T.
  rewrite sum_reads_exact; [reflexivity|lia|apply next_reads_range|].
  change (2 ^ 24) with 16777216. lia.
Qed.

Lemma accumulator_exact_witness :
  let w := initial_world [] [1023; 1023; 7; 1] (F32.of_Z 900) [] in
  accumulated_reads_value (snd (run (accumulate_n 4) w tt)) = F32.of_Z 2054.
Proof.
  intros w.
  destruct (accumulator_exact 4 w) as (w' & Hrun & Hv & _);
    [lia|reflexivity|reflexivity|].
  unfold run. rewrite Hrun. cbn [snd]. rewrite Hv. reflexivity.
Defined.

(** ** Calibration at start-up *)

Lemma accumulate_n_world (n : nat) :
  forall w : World,
    0 <= accumulated_reads_count w ->
    accumulated_reads_count w + Z.of_nat n <= 32767 ->
    accumulate_n n w =
      Some (tt, after_reads w n
                  (sum_reads (accumulated_reads_value w) (next_reads w n))
                  (accumulated_reads_count w + Z.of_nat n)).
Proof.
  induction n as [|n IH]; intros w H0 Hn.
  - cbn [accumulate_n next_reads seq map sum_reads fold_left]. unfold ret.
    destruct w; unfold after_reads; cbn. do 3 f_equal. lia.
  - cbn [accumulate_n].
    unfold bind at 1.
    unfold accumulate_read_physical_sensor, read_physical_sensor, bind,
      analogRead, get, set_accumulated, ret.
    cbn [rand_stream rand_calls adc_stream adc_calls physical_dark
         physical_full accumulated_reads_value accumulated_reads_count
         sensors nextTick serial].
    match goal with
    | |- accumulate_n n ?x = _ => set (w1 := x)
    end.
    rewrite (IH w1).
    + rewrite (next_reads_S w w1 n) by reflexivity.
      subst w1. unfold after_reads.
      cbn [rand_stream rand_calls adc_stream adc_calls physical_dark
           physical_full accumulated_reads_value accumulated_reads_count
           sensors nextTick serial sum_reads fold_left].
      rewrite to_int16_small by lia.
      do 3 f_equal; lia.
    + subst w1. cbn [accumulated_reads_count]. rewrite to_int16_small; lia.
    + subst w1. cbn [accumulated_reads_count]. rewrite to_int16_small; lia.
Qed.

Lemma reads_from_next (w w1 : World) (k n : nat) :
  adc_stream w1 = adc_stream w -> adc_calls w1 = (k + adc_calls w)%nat ->
  next_reads w1 n = reads_from w k n.
Proof.
  intros Hs Hc. unfold next_reads, reads_from. apply map_ext. intros i.
  rewrite Hs, Hc. do 2 f_equal. lia.
Qed.

Lemma reads_from_range (w : World) (k n : nat) :
  Forall (fun r => 0 <= r <= 1023) (reads_from w k n).
Proof.
  unfold reads_from. apply Forall_forall. intros r Hin.
  apply in_map_iff in Hin as (i & <- & _).
  pose proof (Z.mod_pos_bound (adc_stream w (adc_calls w + k + i)) 1024
                ltac:(lia)).
  lia.
Qed.

Lemma reads_from_length (w : World) (k n : nat) :
  length (reads_from w k n) = n.
Proof. unfold reads_from. now rewrite length_map, length_seq. Qed.

Lemma sum_reads_from (w : World) (k n : nat) :
  Z.of_nat n <= 16400 ->
  sum_reads (F32.of_Z 0) (reads_from w k n) =
    F32.of_Z (total (reads_from w k n)).
Proof.
  intros Hn.
  pose proof (total_nonneg _ (reads_from_range w k n)) as [_ T].
  rewrite reads_from_length in T.
  rewrite sum_reads_exact; [reflexivity|lia|apply reads_from_range|].
  change (2 ^ 24) with 16777216. lia.
Qed.

(** The state [setup] leaves, field by field. *)
Lemma setup_world (now : Z) (w : World) :
  accumulated_reads_value w = F32.of_Z 0 ->
  accumulated_reads_count w = 0 ->
  setup now w =
    Some (tt,
          {| rand_stream := rand_stream w; rand_calls := rand_calls w;
             adc_stream := adc_stream w;
             adc_calls := (513 + adc_calls w)%nat;
             physical_dark :=
               F32.div (F32.of_Z (total (reads_from w 1 256))) (F32.of_Z 256);
             physical_full :=
               F32.div (F32.of_Z (total (reads_from w 257 256)))
                       (F32.of_Z 256);
             accumulated_reads_value := F32.of_Z 0;
             accumulated_reads_count := 0;
             sensors := sensors w; nextTick := now; serial := serial w |}).
Proof.
  intros Hv Hc. unfold setup.
  unfold bind at 1. unfold analogRead at 1.
  match goal with
  | |- bind _ _ ?x = _ => set (w1 := x)
  end.
  unfold bind at 1.
  rewrite (accumulate_n_world 256 w1)
    by (subst w1; cbn [accumulated_reads_count]; lia).
  rewrite (reads_from_next w w1 1 256) by reflexivity.
  replace (accumulated_reads_value w1) with (F32.of_Z 0) by (symmetry; exact Hv).
  replace (accumulated_reads_count w1) with 0 by (symmetry; exact Hc).
  rewrite sum_reads_from by lia.
  unfold bind at 1.
  unfold get_and_reset_accumulated_reads at 1, bind, get, set_accumulated,
    ret, set_physical_dark.
  unfold after_reads at 1 2 3 4 5 6 7 8 9 10 11 12 13.
  cbn [rand_stream rand_calls adc_stream adc_calls physical_dark
       physical_full accumulated_reads_value accumulated_reads_count
       sensors nextTick serial].
  match goal with
  | |- match accumulate_n 256 ?x with _ => _ end = _ => set (w2 := x)
  end.
  rewrite (accumulate_n_world 256 w2)
    by (subst w2; cbn [accumulated_reads_count]; lia).
  rewrite (reads_from_next w w2 257 256)
    by (subst w2 w1; cbn [adc_stream adc_calls]; reflexivity || lia).
  replace (accumulated_reads_value w2) with (F32.of_Z 0) by reflexivity.
  replace (accumulated_reads_count w2) with 0 by reflexivity.
  rewrite sum_reads_from by lia.
  unfold get_and_reset_accumulated_reads, bind, get, set_accumulated,
    ret, set_physical_full, set_nextTick, after_reads.
  subst w2 w1.
  cbn [rand_stream rand_calls adc_stream adc_calls physical_dark
       physical_full accumulated_reads_value accumulated_reads_count
       sensors nextTick serial].
  reflexivity.
Qed.

(** X4.  [setup], entered with an empty accumulator, takes 513 readings of
    the ADC: the first seeds the random generator and enters no average,
    the next 256 give [physical_dark] and the 256 after them
    [physical_full], each the integer sum of its readings divided by 256
    in one rounding.  It leaves the accumulator empty, sets [nextTick] to
    the current time, and touches neither the sensors nor the serial stream
    nor the sequence of [rand]. *)
Theorem setup_calibrates (now : Z) (w : World) :
  accumulated_reads_value w = F32.of_Z 0 ->
  accumulated_reads_count w = 0 ->
  exists w',
    setup now w = Some (tt, w') /\
    adc_calls w' = (513 + adc_calls w)%nat /\
    physical_dark w' =
      F32.div (F32.of_Z (total (reads_from w 1 256))) (F32.of_Z 256) /\
    physical_full w' =
      F32.div (F32.of_Z (total (reads_from w 257 256))) (F32.of_Z 256) /\
    accumulated_reads_value w' = F32.of_Z 0 /\
    accumulated_reads_count w' = 0 /\
    nextTick w' = now /\
    sensors w' = sensors w /\ serial w' = serial w /\
    rand_calls w' = rand_calls w.
Proof.
  intros Hv Hc. eexists. split; [apply (setup_world now w Hv Hc)|].
  cbn [rand_stream rand_calls adc_stream adc_calls physical_dark
       physical_full accumulated_reads_value accumulated_reads_count
       sensors nextTick serial].
  repeat split; reflexivity.
Qed.

Lemma setup_calibrates_witness :
  let w := initial_world [] (5 :: repeat 100 256 ++ repeat 900 256)
             (F32.of_Z 0) [] in
  let r := run (setup 1234) w tt in
  physical_dark (snd r) = F32.of_Z 100 /\
  physical_full (snd r) = F32.of_Z 900 /\
  nextTick (snd r) = 1234 /\ adc_calls (snd r) = 513%nat.
Proof.
  intros w r.
  destruct (setup_calibrates 1234 w)
    as (w' & Hrun & Ha & Hd & Hf & _ & _ & Ht & _); [reflexivity..|].
  unfold r, run. rewrite Hrun. cbn [snd]. rewrite Ha, Hd, Hf, Ht.
  repeat split; vm_compute; reflexivity.
Defined.

(** ** A tick with nothing accumulated *)

Lemma add_nan_r (x : float) : F32.add x F32.nan = F32.nan.
Proof. destruct x as [?|?| |? ? ?]; reflexivity. Qed.

Lemma mul_nan_l (x : float) : F32.mul F32.nan x = F32.nan.
Proof. reflexivity. Qed.

Lemma div_nan_l (x : float) : F32.div F32.nan x = F32.nan.
Proof. reflexivity. Qed.

Lemma div_nan_r (x : float) : F32.div x F32.nan = F32.nan.
Proof. destruct x as [?|?| |? ? ?]; reflexivity. Qed.

Lemma pre_quantization_nan (lm : Libm) (s : SimulatedSensor) (noise : float) :
  pow lm F32.nan (gamma s) = F32.nan ->
  pre_quantization lm s F32.nan noise = F32.nan.
Proof.
  intros Hp. unfold pre_quantization, base_value. rewrite Hp, mul_nan_l.
  assert (E : smooth s F32.nan = F32.nan).
  { unfold smooth. destruct (1 <=? memory_size s); [|reflexivity].
    now rewrite add_nan_r, div_nan_l. }
  rewrite E. reflexivity.
Qed.

Lemma update_nan (lm : Libm) (s : SimulatedSensor) (w : World) :
  pow lm F32.nan (gamma s) = F32.nan ->
  update lm s F32.nan w =
    Some ((255, set_memory s (push_memory s 255)), after_rand_serial w 2 []).
Proof.
  intros Hp.
  destruct (abs_uniform_total (sigma s) w) as (noise & w1 & Hn).
  pose proof (abs_uniform_world _ _ _ Hn) as Ew. cbn [snd] in Ew. subst w1.
  unfold update. fold (pre_quantization lm s F32.nan).
  unfold bind at 1. rewrite Hn.
  change (F32.add (floor_background s (smooth s (base_value lm s F32.nan))) noise)
    with (pre_quantization lm s F32.nan noise).
  rewrite (pre_quantization_nan lm s noise Hp).
  reflexivity.
Qed.

Lemma update_sensors_nan (lm : Libm) (ss : list SimulatedSensor) :
  forall w : World,
    Forall (fun s => pow lm F32.nan (gamma s) = F32.nan) ss ->
    update_sensors lm F32.nan ss w =
      Some (map (fun s => set_memory s (push_memory s 255)) ss,
            after_rand_serial w (2 * length ss) (repeat 255 (length ss))).
Proof.
  induction ss as [|s ss IH]; intros w Hs.
  - cbn. unfold ret. now rewrite after_rand_serial_zero.
  - inversion Hs as [|? ? H1 H2]; subst.
    cbn [update_sensors]. unfold bind at 1. rewrite (update_nan lm s w H1).
    cbn [fst snd]. unfold bind at 1. unfold Serial_write at 1.
    unfold bind at 1. rewrite (IH _ H2). unfold ret.
    cbn [map length repeat]. do 2 f_equal.
    unfold after_rand_serial. cbn. f_equal; [lia|].
    now rewrite app_nil_r, <- app_assoc.
Qed.

Lemma physical_to_A_nan (lm : Libm) (cfg : Config) (full : float) :
  AnnexF lm ->
  F32.ltb F32.pzero (POWER_LAW_CORRECTOR_GAMMA cfg) = true ->
  physical_to_A_of lm cfg full F32.nan = F32.nan.
Proof.
  intros Hl Hg. unfold physical_to_A_of.
  rewrite div_nan_r, (log10f_nan lm Hl), div_nan_l.
  change (Arduino.max (F32.of_Z 0) F32.nan) with F32.nan.
  apply (pow_nan lm Hl). exact Hg.
Qed.

Lemma tick_empty (lm : Libm) (cfg : Config) (w : World) :
  AnnexF lm ->
  F32.ltb F32.pzero (POWER_LAW_CORRECTOR_GAMMA cfg) = true ->
  Forall (fun s => F32.ltb F32.pzero (gamma s) = true) (sensors w) ->
  accumulated_reads_value w = F32.of_Z 0 ->
  accumulated_reads_count w = 0 ->
  b2z (OUTPUT_CALIBRATED_A cfg) + Z.of_nat (length (sensors w)) < 256 ->
  exists w',
    tick lm cfg w = Some (tt, w') /\
    serial w' =
      serial w ++
      repeat 255 (Z.to_nat (b2z (OUTPUT_CALIBRATED_A cfg)
                            + Z.of_nat (length (sensors w)))) ++
      [b2z (OUTPUT_CALIBRATED_A cfg) + Z.of_nat (length (sensors w)); 10] /\
    sensors w' = map (fun s => set_memory s (push_memory s 255)) (sensors w).
Proof.
  intros Hl Hg Hs Hv Hc Hk.
  assert (Hs' : Forall (fun s => pow lm F32.nan (gamma s) = F32.nan) (sensors w)).
  { eapply Forall_impl; [|exact Hs]. intros s. apply (pow_nan lm Hl). }
  assert (B : 0 <= b2z (OUTPUT_CALIBRATED_A cfg))
    by (destruct (OUTPUT_CALIBRATED_A cfg); cbn; lia).
  unfold tick.
  unfold bind at 1. unfold get at 1.
  unfold bind at 1. unfold set_nextTick at 1.
  unfold bind at 1.
  unfold get_and_reset_accumulated_reads, bind at 1 2 3, get at 1 2,
    set_accumulated, ret at 1.
  cbn [rand_stream rand_calls adc_stream adc_calls physical_dark
       physical_full accumulated_reads_value accumulated_reads_count
       sensors nextTick serial].
  rewrite Hv, Hc. change (F32.div (F32.of_Z 0) (F32.of_Z 0)) with F32.nan.
  unfold bind at 1. unfold physical_to_A, bind at 1, get at 1, ret at 1.
  cbn [rand_stream rand_calls adc_stream adc_calls physical_dark
       physical_full accumulated_reads_value accumulated_reads_count
       sensors nextTick serial].
  rewrite (physical_to_A_nan lm cfg _ Hl Hg).
  destruct (OUTPUT_CALIBRATED_A cfg) eqn:Ec.
  - unfold bind at 1.
    change (clamp_round F32.nan) with (Some 255).
    unfold lift, bind at 1, Serial_write at 1.
    unfold bind at 1, get at 1.
    cbn [rand_stream rand_calls adc_stream adc_calls physical_dark
         physical_full accumulated_reads_value accumulated_reads_count
         sensors nextTick serial].
    unfold bind at 1. rewrite update_sensors_nan by exact Hs'.
    unfold bind, set_sensors, Serial_write, after_rand_serial.
    cbn [rand_stream rand_calls adc_stream adc_calls physical_dark
         physical_full accumulated_reads_value accumulated_reads_count
         sensors nextTick serial].
    eexists. split; [reflexivity|].
    cbn [serial sensors]. split; [|reflexivity].
    change (to_uint8 255) with 255. change (to_uint8 10) with 10.
    cbn [b2z] in *.
    rewrite (to_uint8_small (1 + Z.of_nat (length (sensors w))))
      by (unfold UINT8_MAX; lia).
    replace (Z.to_nat (1 + Z.of_nat (length (sensors w))))
      with (S (length (sensors w))) by lia.
    cbn [repeat]. rewrite <- !app_assoc. reflexivity.
  - unfold bind at 1. unfold ret at 1.
    unfold bind at 1, get at 1.
    cbn [rand_stream rand_calls adc_stream adc_calls physical_dark
         physical_full accumulated_reads_value accumulated_reads_count
         sensors nextTick serial].
    unfold bind at 1. rewrite update_sensors_nan by exact Hs'.
    unfold bind, set_sensors, Serial_write, after_rand_serial.
    cbn [rand_stream rand_calls adc_stream adc_calls physical_dark
         physical_full accumulated_reads_value accumulated_reads_count
         sensors nextTick serial].
    eexists. split; [reflexivity|].
    cbn [serial sensors]. split; [|reflexivity].
    change (to_uint8 10) with 10.
    cbn [b2z] in *. rewrite Z.add_0_l in *.
    rewrite (to_uint8_small (Z.of_nat (length (sensors w))))
      by (unfold UINT8_MAX; lia).
    rewrite Nat2Z.id, <- !app_assoc. reflexivity.
Qed.

(** X5.  A sampling tick with nothing accumulated divides zero by zero:
    the average is NaN, the calibration keeps it NaN, and every comparison
    of the quantization fails on it, so the frame sent has 255 in every
    value byte and every sensor stores 255 in its history.  This is what
    [loop] does when it is entered at or after [nextTick] before any
    reading was accumulated, for a C library that follows Annex F and
    exponents above zero. *)
Theorem empty_tick_saturates (lm : Libm) (cfg : Config) (now : Z) (w : World) :
  AnnexF lm ->
  F32.ltb F32.pzero (POWER_LAW_CORRECTOR_GAMMA cfg) = true ->
  Forall (fun s => F32.ltb F32.pzero (gamma s) = true) (sensors w) ->
  accumulated_reads_value w = F32.of_Z 0 ->
  accumulated_reads_count w = 0 ->
  b2z (OUTPUT_CALIBRATED_A cfg) + Z.of_nat (length (sensors w)) < 256 ->
  nextTick w <= now ->
  exists w',
    loop lm cfg now w = Some (tt, w') /\
    serial w' =
      serial w ++
      repeat 255 (Z.to_nat (b2z (OUTPUT_CALIBRATED_A cfg)
                            + Z.of_nat (length (sensors w)))) ++
      [b2z (OUTPUT_CALIBRATED_A cfg) + Z.of_nat (length (sensors w)); 10] /\
    sensors w' = map (fun s => set_memory s (push_memory s 255)) (sensors w).
Proof.
  intros Hl Hg Hs Hv Hc Hk Ht.
  destruct (tick_empty lm cfg w Hl Hg Hs Hv Hc Hk) as (w' & Hrun & H).
  exists w'. split; [|exact H].
  unfold loop, bind, get.
  destruct (Z.ltb_spec now (nextTick w)); [lia|exact Hrun].
Qed.

Lemma sketch_gammas_positive :
  Forall (fun s => F32.ltb F32.pzero (gamma s) = true) sketch_sensor_list.
Proof. repeat constructor. Qed.

Lemma empty_tick_saturates_witness :
  let w := initial_world [3; 1; 4; 1; 5; 9; 2; 6] [] (F32.of_Z 900)
             sketch_sensor_list in
  serial (snd (run (loop Sample.libm sketch 0) w tt)) =
    [255; 255; 255; 255; 4; 10].
Proof.
  intros w.
  destruct (empty_tick_saturates Sample.libm sketch 0 w)
    as (w' & Hrun & Hser & _).
  - exact Sample_AnnexF.
  - reflexivity.
  - exact sketch_gammas_positive.
  - reflexivity.
  - reflexivity.
  - vm_compute. reflexivity.
  - vm_compute. discriminate.
  - unfold run. rewrite Hrun. cbn [snd]. rewrite Hser. reflexivity.
Defined.

(** X6.  The first frame after start-up is saturated.  [setup] leaves the
    accumulator empty and [nextTick] at the current time, so the first call
    of [loop] samples at once, with no reading to average: whatever the
    ADC returned during calibration, the first frame carries 255 in every
    value byte. *)
Theorem first_frame_saturated (lm : Libm) (cfg : Config) (now now' : Z)
    (w : World) :
  AnnexF lm ->
  F32.ltb F32.pzero (POWER_LAW_CORRECTOR_GAMMA cfg) = true ->
  Forall (fun s => F32.ltb F32.pzero (gamma s) = true) (sensors w) ->
  accumulated_reads_value w = F32.of_Z 0 ->
  accumulated_reads_count w = 0 ->
  b2z (OUTPUT_CALIBRATED_A cfg) + Z.of_nat (length (sensors w)) < 256 ->
  now <= now' ->
  exists w',
    (setup now ;;; loop lm cfg now') w = Some (tt, w') /\
    serial w' =
      serial w ++
      repeat 255 (Z.to_nat (b2z (OUTPUT_CALIBRATED_A cfg)
                            + Z.of_nat (length (sensors w)))) ++
      [b2z (OUTPUT_CALIBRATED_A cfg) + Z.of_nat (length (sensors w)); 10].
Proof.
  intros Hl Hg Hs Hv Hc Hk Ht.
  unfold bind at 1. rewrite (setup_world now w Hv Hc).
  match goal with
  | |- exists w', loop lm cfg now' ?x = _ /\ _ => set (w1 := x)
  end.
  destruct (tick_empty lm cfg w1 Hl Hg Hs) as (w' & Hrun & Hser & _);
    [reflexivity|reflexivity|exact Hk|].
  exists w'. split; [|exact Hser].
  unfold loop, bind, get.
  destruct (Z.ltb_spec now' (nextTick w1)) as [Hlt|]; [|exact Hrun].
  subst w1. cbn [nextTick] in Hlt. lia.
Qed.

Lemma first_frame_saturated_witness :
  let w := initial_world [3; 1; 4; 1; 5; 9; 2; 6]
             (5 :: repeat 100 256 ++ repeat 900 256) (F32.of_Z 0)
             sketch_sensor_list in
  exists w',
    (setup 1000 ;;; loop Sample.libm sketch 1000) w = Some (tt, w') /\
    serial w' = [255; 255; 255; 255; 4; 10].
Proof.
  intros w.
  destruct (first_frame_saturated Sample.libm sketch 1000 1000 w)
    as (w' & Hrun & Hser).
  - exact Sample_AnnexF.
  - reflexivity.
  - exact sketch_gammas_positive.
  - reflexivity.
  - reflexivity.
  - vm_compute. reflexivity.
  - lia.
  - exists w'. split; [exact Hrun|]. rewrite Hser. reflexivity.
Defined.

(** ** Runs of NaN inputs *)

Lemma skipn_app_repeat {A : Type} (x : A) (h : list A) (n : nat) :
  (length h <= n)%nat ->
  skipn n (h ++ repeat x n) = repeat x (length h).
Proof.
  intros Hle. rewrite skipn_app.
  rewrite (skipn_all2 h) by lia. cbn [app].
  replace n with ((n - length h) + length h)%nat at 2 by lia.
  rewrite repeat_app.
  rewrite <- (repeat_length x (n - length h)) at 1.
  rewrite skipn_app, skipn_all, Nat.sub_diag. reflexivity.
Qed.

Lemma update_many_nan (lm : Libm) (n : nat) :
  forall (s : SimulatedSensor) (w : World),
    pow lm F32.nan (gamma s) = F32.nan ->
    exists s',
      update_many lm s (repeat F32.nan n) w =
        Some ((repeat 255 n, s'), after_rand_serial w (2 * n) []).
Proof.
  induction n as [|n IH]; intros s w Hp.
  - exists s. cbn. unfold ret. now rewrite after_rand_serial_zero.
  - cbn [repeat update_many]. unfold bind at 1.
    rewrite (update_nan lm s w Hp). cbn [fst snd].
    destruct (IH (set_memory s (push_memory s 255))
                 (after_rand_serial w 2 [])) as (s' & E); [exact Hp|].
    exists s'. unfold bind at 1. rewrite E. unfold ret. cbn [fst snd].
    rewrite after_rand_serial_twice. do 3 f_equal. lia.
Qed.

(** X7.  NaN in, 255 out.  When [pow] returns NaN for a NaN base, every
    call of [update] with a NaN absorbance returns the byte 255, whatever
    the history and the noise: a run of [n] such calls returns [n] times
    255 and calls [rand] [2 * n] times, and once [n] reaches the length of
    the history, the history holds nothing but 255. *)
Theorem nan_inputs_saturate (lm : Libm) (n : nat) (s : SimulatedSensor)
    (w : World) :
  pow lm F32.nan (gamma s) = F32.nan ->
  exists s',
    update_many lm s (repeat F32.nan n) w =
      Some ((repeat 255 n, s'), after_rand_serial w (2 * n) []) /\
    (sensor_ok s -> 1 <= memory_size s <= Z.of_nat n ->
     history s' = repeat 255 (Z.to_nat (memory_size s))).
Proof.
  intros Hp.
  destruct (update_many_nan lm n s w Hp) as (s' & E).
  exists s'. split; [exact E|]. intros Hok Hm.
  destruct (update_many_steps _ _ _ _ _ _ _ Hok E) as (_ & _ & _ & Hh & _).
  rewrite Hh by lia. rewrite repeat_length.
  pose proof (history_length s Hok) as Hl.
  rewrite skipn_app_repeat by lia. now rewrite Hl.
Qed.

Lemma nan_inputs_saturate_witness :
  let w := initial_world [5; 6] [] F32.pzero [] in
  let r := run (update_many Sample.libm slow_sensor (repeat F32.nan 16)) w
             ([], slow_sensor) in
  fst (fst r) = repeat 255 16 /\ history (snd (fst r)) = repeat 255 16 /\
  rand_calls (snd r) = 32%nat.
Proof.
  intros w r.
  destruct (nan_inputs_saturate Sample.libm 16 slow_sensor w)
    as (s' & E & Hh); [reflexivity|].
  unfold r, run. rewrite E. cbn [fst snd].
  split; [reflexivity|]. split; [|reflexivity].
  apply Hh; [|vm_compute; split; discriminate].
  split; [vm_compute; split; discriminate|reflexivity].
Defined.

(** ** Two ticks in a row *)

Lemma each_updated_gamma (lm : Libm) (a : float) (P : float -> Prop)
    (ss : list SimulatedSensor) (bs : list Z) (ss' : list SimulatedSensor) :
  each_updated lm a ss bs ss' ->
  Forall (fun s => P (gamma s)) ss -> Forall (fun s => P (gamma s)) ss'.
Proof.
  induction 1 as [|s b s' ss bs ss' (w & w' & Hu) _ IH]; intros HF;
    [constructor|].
  inversion HF; subst. constructor; [|now apply IH].
  apply update_result in Hu as [-> _]. assumption.
Qed.

(** X8.  [loop] does not catch up with readings.  When a call of [loop]
    comes a whole period late, [nextTick] moves on by one period only, so
    the next call samples again at once, with an empty accumulator: the
    frame of that second call carries 255 in every value byte, whatever
    the light level was. *)
Theorem late_loop_sends_saturated_frame (lm : Libm) (cfg : Config)
    (now1 now2 : Z) (w w1 : World) :
  AnnexF lm ->
  F32.ltb F32.pzero (POWER_LAW_CORRECTOR_GAMMA cfg) = true ->
  Forall (fun s => F32.ltb F32.pzero (gamma s) = true) (sensors w) ->
  b2z (OUTPUT_CALIBRATED_A cfg) + Z.of_nat (length (sensors w)) < 256 ->
  0 <= nextTick w -> nextTick w + simulation_dt_ms <= now1 ->
  now1 <= now2 -> now2 < 2 ^ 32 ->
  loop lm cfg now1 w = Some (tt, w1) ->
  exists w2,
    loop lm cfg now2 w1 = Some (tt, w2) /\
    serial w2 =
      serial w1 ++
      repeat 255 (Z.to_nat (b2z (OUTPUT_CALIBRATED_A cfg)
                            + Z.of_nat (length (sensors w)))) ++
      [b2z (OUTPUT_CALIBRATED_A cfg) + Z.of_nat (length (sensors w)); 10].
Proof.
  intros Hl Hg Hs Hk H0 Hlate H12 H2 Hrun.
  assert (Hd : 0 < simulation_dt_ms) by reflexivity.
  assert (Ht : tick lm cfg w = Some (tt, w1)).
  { unfold loop, bind, get in Hrun.
    destruct (Z.ltb_spec now1 (nextTick w)); [lia|exact Hrun]. }
  destruct (tick_world lm cfg w w1 Ht) as (cal & outs & ss' & E & _ & _ & _ & Hu).
  cbv zeta in E, Hu.
  assert (Hlen : length (sensors w1) = length (sensors w)).
  { rewrite E. cbn [sensors]. exact (each_updated_length _ _ _ _ _ Hu). }
  assert (Hs1 : Forall (fun s => F32.ltb F32.pzero (gamma s) = true) (sensors w1)).
  { rewrite E. cbn [sensors].
    exact (each_updated_gamma lm _ (fun g => F32.ltb F32.pzero g = true)
             _ _ _ Hu Hs). }
  assert (Hn1 : nextTick w1 <= now2).
  { rewrite E. cbn [nextTick].
    rewrite Z.mod_small by lia. lia. }
  destruct (tick_empty lm cfg w1 Hl Hg Hs1) as (w2 & Hrun2 & Hser & _).
  - rewrite E. reflexivity.
  - rewrite E. reflexivity.
  - rewrite Hlen. exact Hk.
  - exists w2. split.
    + unfold loop, bind, get.
      destruct (Z.ltb_spec now2 (nextTick w1)); [lia|exact Hrun2].
    + rewrite Hser, Hlen. reflexivity.
Qed.

Lemma late_loop_sends_saturated_frame_witness :
  let w := running_world [7; 8; 9; 10; 11; 12; 13; 14] in
  let w1 := snd (run (loop Sample.libm sketch 60) w tt) in
  exists w2,
    loop Sample.libm sketch 61 w1 = Some (tt, w2) /\
    skipn 6 (serial w2) = [255; 255; 255; 255; 4; 10].
Proof.
  intros w w1.
  destruct (late_loop_sends_saturated_frame Sample.libm sketch 60 61 w w1)
    as (w2 & Hrun & Hser).
  - exact Sample_AnnexF.
  - reflexivity.
  - exact sketch_gammas_positive.
  - vm_compute. reflexivity.
  - vm_compute. discriminate.
  - vm_compute. discriminate.
  - lia.
  - reflexivity.
  - vm_compute. reflexivity.
  - exists w2. split; [exact Hrun|]. rewrite Hser.
    vm_compute. reflexivity.
Defined.

(** ** What [update] reads and writes of the buffer *)

Lemma accumulate_memory_ext (m1 m2 : list Z) (n : nat) :
  forall (i : nat) (acc : float),
    (forall j : nat, (i <= j < i + n)%nat -> nth j m1 0 = nth j m2 0) ->
    accumulate_memory m1 i n acc = accumulate_memory m2 i n acc.
Proof.
  induction n as [|n IH]; intros i acc H; [reflexivity|].
  cbn [accumulate_memory]. rewrite (H i) by lia.
  apply IH. intros j Hj. apply H. lia.
Qed.

Lemma nth_history (s : SimulatedSensor) (j : nat) :
  (j < Z.to_nat (memory_size s))%nat ->
  nth j (memory s) 0 = nth j (history s) 0.
Proof.
  intros Hj. unfold history. rewrite nth_firstn.
  destruct (Nat.ltb_spec j (Z.to_nat (memory_size s))); [reflexivity|lia].
Qed.

Lemma smooth_history (s1 s2 : SimulatedSensor) (x : float) :
  memory_size s1 = memory_size s2 -> history s1 = history s2 ->
  smooth s1 x = smooth s2 x.
Proof.
  intros Hm Hh. unfold smooth. rewrite <- Hm.
  destruct (1 <=? memory_size s1); [|reflexivity].
  rewrite (accumulate_memory_ext (memory s1) (memory s2)); [reflexivity|].
  intros j Hj. rewrite nth_history by lia.
  rewrite (nth_history s2) by lia. now rewrite Hh.
Qed.

(** X9.  [update] reads the buffer through its first [memory_size] slots
    only.  Two sensors with the same parameters and the same live history
    return the same byte from the same state, leave the same state, and
    have the same live history afterwards, whatever the other slots of
    their buffers hold. *)
Theorem update_reads_history_only (lm : Libm) (s1 s2 : SimulatedSensor)
    (a : float) (w : World) (b : Z) (s1' : SimulatedSensor) (w' : World) :
  same_config s1 s2 -> sensor_ok s1 -> sensor_ok s2 ->
  history s1 = history s2 ->
  update lm s1 a w = Some ((b, s1'), w') ->
  exists s2',
    update lm s2 a w = Some ((b, s2'), w') /\
    history s2' = history s1' /\ same_config s1' s2'.
Proof.
  intros (Hm & Hb & Ha & Hg & Hsg) Hok1 Hok2 Hh Hu.
  assert (Hu2 : update lm s2 a w
                = Some ((b, set_memory s2 (push_memory s2 b)), w')).
  { pose proof (update_result _ _ _ _ _ _ _ Hu) as [E _].
    unfold update in *.
    unfold base_value, floor_background in *.
    rewrite <- Hb, <- Ha, <- Hg, <- Hsg.
    rewrite <- (smooth_history s1 s2 _ Hm Hh).
    apply bind_Some in Hu as (noise & w1 & Hn & Hu).
    unfold bind at 1. rewrite Hn.
    apply bind_Some in Hu as (r & w2 & Hr & Hu).
    unfold bind at 1. rewrite Hr.
    apply ret_Some in Hu. inversion Hu; subst. reflexivity. }
  exists (set_memory s2 (push_memory s2 b)). split; [exact Hu2|].
  destruct (update_step _ _ _ _ _ _ _ Hok1 Hu) as (_ & Hm1 & Hh1 & _).
  destruct (update_step _ _ _ _ _ _ _ Hok2 Hu2) as (_ & Hm2 & Hh2 & _).
  split.
  - destruct (Z.le_gt_cases 1 (memory_size s1)) as [H1|H1].
    + rewrite Hh2 by lia. rewrite Hh1 by lia. now rewrite Hh.
    + unfold history. rewrite Hm1, Hm2, <- Hm.
      replace (Z.to_nat (memory_size s1)) with 0%nat by lia. reflexivity.
  - pose proof (update_result _ _ _ _ _ _ _ Hu) as [-> _].
    unfold same_config. cbn [set_memory memory_size background alpha gamma sigma].
    auto.
Qed.

Lemma update_reads_history_only_witness :
  let w := initial_world [5; 6] [] F32.pzero [] in
  let s1 := set_memory fast_sensor (repeat 0 50) in
  let s2 := set_memory fast_sensor (repeat 9 50) in
  let r1 := run (update Sample.libm s1 (F32.of_Z 1)) w (0, s1) in
  exists s2',
    update Sample.libm s2 (F32.of_Z 1) w = Some ((fst (fst r1), s2'), snd r1).
Proof.
  intros w s1 s2 r1.
  destruct (update_reads_history_only Sample.libm s1 s2 (F32.of_Z 1) w
              (fst (fst r1)) (snd (fst r1)) (snd r1))
    as (s2' & H & _).
  - repeat split.
  - split; [vm_compute; split; discriminate|reflexivity].
  - split; [vm_compute; split; discriminate|reflexivity].
  - reflexivity.
  - vm_compute. reflexivity.
  - exists s2'. exact H.
Defined.

(** X10.  [update] writes the buffer in its first [memory_size] slots only:
    after a call the slots from [memory_size] on hold what they held
    before and the buffer has its [MAX_MEMORY_SIZE] slots; a sensor without
    memory keeps its whole buffer. *)
Theorem update_keeps_other_slots (lm : Libm) (s : SimulatedSensor)
    (a : float) (w : World) (b : Z) (s' : SimulatedSensor) (w' : World) :
  sensor_ok s ->
  update lm s a w = Some ((b, s'), w') ->
  skipn (Z.to_nat (memory_size s)) (memory s')
    = skipn (Z.to_nat (memory_size s)) (memory s) /\
  length (memory s') = Z.to_nat MAX_MEMORY_SIZE /\
  (memory_size s = 0 -> memory s' = memory s).
Proof.
  intros Hok Hu.
  destruct (update_step _ _ _ _ _ _ _ Hok Hu) as ((_ & Hlen) & _ & _ & Hz).
  split; [|split; [exact Hlen|intros H0; apply Hz; lia]].
  destruct (Z.le_gt_cases 1 (memory_size s)) as [H1|H1].
  - pose proof (update_result _ _ _ _ _ _ _ Hu) as [-> _].
    cbn [set_memory memory].
    rewrite (push_memory_spec s b Hok H1).
    pose proof (history_length s Hok) as Hl.
    assert (Ht : Z.to_nat (memory_size s) = length (tl (history s) ++ [b])).
    { rewrite length_app. destruct (history s); simpl in *; lia. }
    change (tl (history s) ++ b :: skipn (Z.to_nat (memory_size s)) (memory s))
      with (tl (history s) ++ [b] ++ skipn (Z.to_nat (memory_size s)) (memory s)).
    rewrite app_assoc, Ht at 1.
    rewrite skipn_app, skipn_all, Nat.sub_diag. reflexivity.
  - now rewrite Hz by lia.
Qed.

Lemma update_keeps_other_slots_witness :
  let w := initial_world [5; 6] [] F32.pzero [] in
  let s := set_memory slow_sensor (seq_bytes 50) in
  let r := run (update Sample.libm s (F32.of_Z 1)) w (0, s) in
  skipn 16 (memory (snd (fst r))) = skipn 16 (seq_bytes 50).
Proof.
  intros w s r.
  destruct (update_keeps_other_slots Sample.libm s (F32.of_Z 1) w
              (fst (fst r)) (snd (fst r)) (snd r)) as (H & _).
  - split; [vm_compute; split; discriminate|reflexivity].
  - vm_compute. reflexivity.
  - exact H.
Defined.

(** ** The quantization keeps the order *)

Lemma tail_below_255 (m : positive) (e : Z) :
  F32.ltb (S754_finite false m e) (F32.of_Z UINT8_MAX) = true ->
  Arduino.round (Arduino.max (F32.of_Z 0)
                   (Arduino.min (S754_finite false m e) (F32.of_Z UINT8_MAX)))
  = F32.to_long (F32.add (S754_finite false m e) F32.half).
Proof.
  intros Hlt. unfold Arduino.min. rewrite Hlt. reflexivity.
Qed.

Lemma to_long_nonneg_mono (a b : float) (za zb : Z) :
  nonneg a -> nonneg b -> F32.leb a b = true ->
  F32.to_long a = Some za -> F32.to_long b = Some zb -> za <= zb.
Proof.
  intros Na Nb Hle Ha Hb.
  assert (T : forall m e, F32.valid (S754_finite false m e) = true ->
                          forall z, F32.to_long (S754_finite false m e) = Some z ->
                                    z = U m e / 2 ^ 149 /\ 0 <= z).
  { intros m e V z Hz.
    apply valid_finite in V as (_ & (E & _) & P). cbn [fst] in E.
    unfold F32.to_long in Hz. cbn [F32.is_finite] in Hz.
    rewrite trunc_U in Hz by exact E.
    destruct (_ && _) in Hz; [|discriminate Hz].
    inversion Hz; subst. split; [reflexivity|].
    apply Z.div_pos; [lia|reflexivity]. }
  destruct Na as [sa|ma ea Va|]; destruct Nb as [sb|mb eb Vb|];
    try discriminate Ha; try discriminate Hb; try discriminate Hle.
  - inversion Ha; inversion Hb; subst. lia.
  - inversion Ha; subst. destruct (T _ _ Vb _ Hb). lia.
  - destruct (T _ _ Va _ Ha) as [-> _]. destruct (T _ _ Vb _ Hb) as [-> _].
    apply (leb_U _ _ _ _ Va Vb) in Hle.
    apply Z.div_le_mono; [reflexivity|exact Hle].
Qed.

Lemma add_half_nonneg (m : positive) (e : Z) :
  F32.valid (S754_finite false m e) = true ->
  nonneg (F32.add (S754_finite false m e) F32.half).
Proof.
  intros V. change F32.half with (S754_finite false 8388608 (-24)).
  apply valid_finite in V as (_ & (E & _) & P). cbn [fst] in E.
  rewrite add_Round by lia. apply Round_nonneg; [|lia].
  assert (0 < 2 ^ 149) by (apply Z.pow_pos_nonneg; lia).
  assert (0 < U 8388608 (-24)) by reflexivity. nia.
Qed.

Lemma clamp_tail_mono (y1 y2 : float) (z1 z2 : Z) :
  F32.valid y1 = true -> F32.valid y2 = true ->
  F32.leb y1 y2 = true ->
  Arduino.round (Arduino.max (F32.of_Z 0)
                   (Arduino.min y1 (F32.of_Z UINT8_MAX))) = Some z1 ->
  Arduino.round (Arduino.max (F32.of_Z 0)
                   (Arduino.min y2 (F32.of_Z UINT8_MAX))) = Some z2 ->
  z1 <= z2.
Proof.
  intros V1 V2 Hle H1 H2.
  destruct (clamp_tail y1 V1) as (a1 & E1 & R1 & T1 & Z1).
  destruct (clamp_tail y2 V2) as (a2 & E2 & R2 & T2 & Z2).
  rewrite E1 in H1. rewrite E2 in H2.
  inversion H1; inversion H2; subst a1 a2; clear H1 H2.
  destruct (F32.leb y1 F32.pzero) eqn:L1; [rewrite Z1 by reflexivity; lia|].
  destruct (F32.ltb y2 (F32.of_Z UINT8_MAX)) eqn:L2;
    [|rewrite (T2 eq_refl); lia].
  clear T1 Z1 T2 Z2.
  destruct y1 as [s1|[|]| |[|] m1 e1]; try discriminate L1;
    try discriminate Hle.
  - destruct y2 as [s2|[|]| |[|] m2 e2]; try discriminate Hle;
      discriminate L2.
  - destruct y2 as [s2|[|]| |[|] m2 e2]; try discriminate Hle;
      try discriminate L2.
    pose proof Hle as HU. apply (leb_U _ _ _ _ V1 V2) in HU.
    pose proof L2 as LU. apply (ltb_U _ _ _ _ V2 valid_of_Z_255) in LU.
    assert (L1' : F32.ltb (S754_finite false m1 e1) (F32.of_Z UINT8_MAX) = true)
      by (apply (ltb_U _ _ _ _ V1 valid_of_Z_255); lia).
    rewrite tail_below_255 in E1 by exact L1'.
    rewrite tail_below_255 in E2 by exact L2.
    refine (to_long_nonneg_mono _ _ _ _ (add_half_nonneg _ _ V1)
              (add_half_nonneg _ _ V2) _ E1 E2).
    exact (add_mono_l _ _ _ _ 8388608 (-24) V1 V2 valid_half Hle).
Qed.

(** X11.  The quantization keeps the order: of two binary32 values the
    larger one never quantizes to the smaller byte.  With [clamp_round]
    standing for [round(max(0, min(x * to_byte, UINT8_MAX)))], both casts
    are defined and [x1 <= x2] gives [clamp_round x1 <= clamp_round x2]. *)
Theorem quantization_monotone (x1 x2 : float) :
  F32.valid x1 = true -> F32.valid x2 = true ->
  F32.leb x1 x2 = true ->
  exists z1 z2,
    clamp_round x1 = Some z1 /\ clamp_round x2 = Some z2 /\ z1 <= z2.
Proof.
  intros V1 V2 Hle.
  destruct (clamp_round_range x1 V1) as (z1 & E1 & R1 & _ & Z1).
  destruct (clamp_round_range x2 V2) as (z2 & E2 & R2 & T2 & _).
  exists z1, z2. split; [exact E1|]. split; [exact E2|].
  destruct (F32.leb x1 F32.pzero) eqn:L1; [rewrite Z1 by reflexivity; lia|].
  destruct (F32.leb MAX_A x2) eqn:L2; [rewrite T2 by reflexivity; lia|].
  clear Z1 T2.
  destruct x1 as [s1|[|]| |[|] m1 e1]; try discriminate L1;
    try discriminate Hle.
  - destruct x2 as [s2|[|]| |[|] m2 e2]; try discriminate Hle;
      discriminate L2.
  - destruct x2 as [s2|[|]| |[|] m2 e2]; try discriminate Hle;
      try discriminate L2.
    destruct (mul_to_byte _ V1) as (W1 & _).
    destruct (mul_to_byte _ V2) as (W2 & _).
    refine (clamp_tail_mono _ _ _ _ W1 W2 _ E1 E2).
    exact (mul_mono_l _ _ _ _ 16711680 (-17) V1 V2 valid_to_byte Hle).
Qed.

Lemma quantization_monotone_witness :
  exists z1 z2,
    clamp_round (F32.lit 1 4) = Some z1 /\
    clamp_round (F32.lit 1 3) = Some z2 /\ z1 <= z2.
Proof.
  apply (quantization_monotone (F32.lit 1 4) (F32.lit 1 3));
    vm_compute; reflexivity.
Defined.

(** ** Readings at or above the full level *)

Lemma div_self (m : positive) (e : Z) :
  F32.valid (S754_finite false m e) = true ->
  F32.div (S754_finite false m e) (S754_finite false m e) = F32.of_Z 1.
Proof.
  intros V. rewrite (div_Round _ _ _ _ _ _ V V). cbn [xorb].
  pose proof (valid_finite _ _ _ V) as (_ & _ & P).
  rewrite (of_Z_Round 1).
  rewrite (Z.mul_comm (U m e) (2 ^ K)).
  replace (U m e) with (1 * U m e) at 2 by lia.
  rewrite Round_scale by lia.
  now rewrite Z.mul_1_l.
Qed.

(** X12.  A reading at or above the full level gives the absorbance [+0]
    exactly.  The ratio [physical_full / physical_value] is then at most 1,
    its logarithm is at most [log10f(1) = 0], the maximum with 0 returns a
    zero, and [pow] of a zero is [+0] for an exponent between 0 and 1: the
    sketch never reports a negative absorbance for a sample brighter than
    the calibration. *)
Theorem bright_sample_reads_zero (lm : Libm) (cfg : Config) (full x : float) :
  AnnexF lm ->
  LibmMonotone lm (POWER_LAW_CORRECTOR_GAMMA cfg) ->
  positive_finite (POWER_LAW_CORRECTOR_C cfg) ->
  positive_finite full ->
  positive_finite x ->
  F32.leb full x = true ->
  F32.ltb F32.pzero (POWER_LAW_CORRECTOR_GAMMA cfg) = true ->
  F32.ltb (POWER_LAW_CORRECTOR_GAMMA cfg) (F32.of_Z 1) = true ->
  physical_to_A_of lm cfg full x = F32.pzero.
Proof.
  intros HF HM (mc & ec & Ec & Vc) (mf & ef & Ef & Vf)
         (mx & ex & Ex & Vx) Hle Hg0 Hg1.
  unfold physical_to_A_of. rewrite Ec, Ef, Ex in *.
  set (g := POWER_LAW_CORRECTOR_GAMMA cfg) in *.
  pose proof (div_nonneg mf ef mx ex Vf Vx) as R.
  pose proof (div_mono_l mf ef mx ex mx ex Vf Vx Vx Hle) as Hr.
  rewrite (div_self mx ex Vx) in Hr.
  assert (N1 : nonneg (F32.of_Z 1)) by (constructor; reflexivity).
  pose proof (log10f_nonneg_mono lm g _ _ HF HM R N1 Hr) as Hl.
  rewrite (log10f_one lm HF) in Hl.
  destruct (log10f_nonneg_ok lm g _ HF HM R) as [VL NL].
  destruct (clamp_div_nonneg _ mc ec VL NL Vc) as [_ Z0].
  destruct (Z0 Hl) as [s ->].
  apply (pow_zero lm HF); assumption.
Qed.

Lemma bright_sample_reads_zero_witness :
  physical_to_A_of Sample.libm sketch (F32.of_Z 900) (F32.of_Z 1023)
  = F32.pzero.
Proof.
  apply bright_sample_reads_zero.
  - exact Sample_AnnexF.
  - exact Sample_Monotone.
  - eexists; eexists; split; [vm_compute; reflexivity|reflexivity].
  - eexists; eexists; split; [vm_compute; reflexivity|reflexivity].
  - eexists; eexists; split; [vm_compute; reflexivity|reflexivity].
  - vm_compute. reflexivity.
  - vm_compute. reflexivity.
  - vm_compute. reflexivity.
Defined.

(** ** The average of the readings *)

Lemma of_Z_nonneg (z : Z) : 0 <= z -> nonneg (F32.of_Z z).
Proof.
  intros Hz. destruct z as [|p|p]; [constructor| |lia].
  rewrite of_Z_Round. apply Round_nonneg; [|lia].
  assert (0 < 2 ^ K) by (apply Z.pow_pos_nonneg; unfold K; lia). lia.
Qed.

Lemma div_of_Z_Round (a n : Z) :
  0 < a <= 2 ^ 24 -> 0 < n <= 2 ^ 24 ->
  F32.div (F32.of_Z a) (F32.of_Z n) = Round false (a * 2 ^ K) n.
Proof.
  intros Ha Hn.
  destruct (of_Z_exact a Ha) as (ma & ea & -> & Va & Ua).
  destruct (of_Z_exact n Hn) as (mn & en & -> & Vn & Un).
  rewrite (div_Round _ _ _ _ _ _ Va Vn). cbn [xorb]. rewrite Ua, Un.
  replace (a * 2 ^ 149 * 2 ^ K) with (a * 2 ^ K * 2 ^ 149) by ring.
  apply Round_scale; [lia|]. apply Z.pow_pos_nonneg; lia.
Qed.

Lemma of_Z_Round_over (z n : Z) :
  0 < z -> 0 < n -> F32.of_Z z = Round false (z * n * 2 ^ K) n.
Proof.
  intros Hz Hn. destruct z as [|p|p]; try lia.
  rewrite of_Z_Round.
  replace (Z.pos p * n * 2 ^ K) with (Z.pos p * 2 ^ K * n) by ring.
  replace n with (1 * n) at 2 by lia.
  now rewrite Round_scale by lia.
Qed.

Lemma div_pzero_of_Z (n : Z) :
  0 < n <= 2 ^ 24 -> F32.div F32.pzero (F32.of_Z n) = F32.pzero.
Proof.
  intros Hn. destruct (of_Z_exact n Hn) as (m & e & -> & _). reflexivity.
Qed.

Lemma total_bounds (lo hi : Z) (l : list Z) :
  Forall (fun r => lo <= r <= hi) l ->
  lo * Z.of_nat (length l) <= total l <= hi * Z.of_nat (length l).
Proof.
  induction 1 as [|r l Hr _ IH]; cbn [total fold_right length]; [lia|].
  fold (total l). lia.
Qed.

Lemma average_bounds (lo hi s n : Z) :
  0 <= lo -> 0 < n <= 2 ^ 24 -> 0 <= s <= 2 ^ 24 ->
  lo * n <= s <= hi * n ->
  F32.leb (F32.of_Z lo) (F32.div (F32.of_Z s) (F32.of_Z n)) = true /\
  F32.leb (F32.div (F32.of_Z s) (F32.of_Z n)) (F32.of_Z hi) = true /\
  (lo = hi -> F32.div (F32.of_Z s) (F32.of_Z n) = F32.of_Z lo).
Proof.
  intros Hlo Hn Hs Hb.
  assert (PK : 0 < 2 ^ K) by (apply Z.pow_pos_nonneg; unfold K; lia).
  destruct (Z.eq_dec s 0) as [->|Hs0].
  - change (F32.of_Z 0) with F32.pzero. rewrite div_pzero_of_Z by lia.
    assert (lo = 0) by nia. subst lo.
    split; [reflexivity|]. split.
    + apply nonneg_leb_pzero, of_Z_nonneg. nia.
    + intros _. reflexivity.
  - rewrite div_of_Z_Round by lia.
    assert (Hhi : 0 < hi) by nia.
    split; [|split].
    + destruct (Z.eq_dec lo 0) as [->|Hl0].
      * apply nonneg_leb_pzero, Round_nonneg; nia.
      * rewrite (of_Z_Round_over lo n) by lia. apply Round_mono; nia.
    + rewrite (of_Z_Round_over hi n) by lia. apply Round_mono; nia.
    + intros <-. assert (s = lo * n) by lia. subst s.
      symmetry. apply of_Z_Round_over; nia.
Qed.

(** X13.  The average [get_and_reset_accumulated_reads] returns stays
    within the readings it averages: after [n] readings, [1 <= n <= 16400],
    all between [lo] and [hi], the result lies between [lo] and [hi] as
    binary32 numbers, and it is exactly the common value when all readings
    are equal.  A steady signal is averaged without any rounding error. *)
Theorem average_within_readings (n : nat) (lo hi : Z) (w : World) :
  1 <= Z.of_nat n <= 16400 ->
  accumulated_reads_value w = F32.of_Z 0 ->
  accumulated_reads_count w = 0 ->
  Forall (fun r => lo <= r <= hi) (next_reads w n) ->
  exists avg w',
    (accumulate_n n ;;; get_and_reset_accumulated_reads) w = Some (avg, w') /\
    F32.leb (F32.of_Z (Z.max 0 lo)) avg = true /\
    F32.leb avg (F32.of_Z hi) = true /\
    (lo = hi -> avg = F32.of_Z lo).
Proof.
  intros Hn Hv Hc Hr.
  unfold bind at 1.
  rewrite (accumulate_n_world n w) by lia.
  unfold get_and_reset_accumulated_reads, bind, get, set_accumulated, ret,
    after_reads.
  cbn [accumulated_reads_value accumulated_reads_count].
  rewrite Hv, Hc, Z.add_0_l.
  pose proof (total_nonneg _ (next_reads_range w n)) as [T0 T1].
  pose proof (total_bounds lo hi _ Hr) as [B0 B1].
  rewrite next_reads_length in T1, B0, B1.
  rewrite sum_reads_exact;
    [|lia|apply next_reads_range|change (2 ^ 24) with 16777216; lia].
  rewrite Z.add_0_l.
  assert (N24 : Z.of_nat n <= 2 ^ 24) by (change (2 ^ 24) with 16777216; lia).
  assert (S24 : total (next_reads w n) <= 2 ^ 24)
    by (change (2 ^ 24) with 16777216; lia).
  destruct (average_bounds (Z.max 0 lo) hi (total (next_reads w n))
              (Z.of_nat n)) as (A1 & A2 & A3); [lia|lia|lia|nia|].
  eexists; eexists. split; [reflexivity|].
  split; [exact A1|]. split; [exact A2|].
  intros E. subst hi.
  assert (0 <= lo) by nia.
  rewrite Z.max_r in A3 by lia. now apply A3.
Qed.

Lemma average_within_readings_witness :
  let w := initial_world [] [7; 7; 7] (F32.of_Z 900) [] in
  fst (run (accumulate_n 3 ;;; get_and_reset_accumulated_reads) w F32.nan)
  = F32.of_Z 7.
Proof.
  intros w.
  destruct (average_within_readings 3 7 7 w)
    as (avg & w' & Hrun & _ & _ & He).
  - lia.
  - reflexivity.
  - reflexivity.
  - change (Forall (fun r => 7 <= r <= 7) [7; 7; 7]).
    repeat (constructor; [lia|]). constructor.
  - unfold run. rewrite Hrun. cbn [fst]. now apply He.
Defined.

(** ** The number of slots the constructor allots *)

Lemma round_nonneg (a : float) :
  nonneg a -> Arduino.round a = F32.to_long (F32.add a F32.half).
Proof.
  intros Na. unfold Arduino.round, F32.geb.
  now rewrite (nonneg_leb_pzero a Na).
Qed.

Lemma add_half_nonneg_all (a : float) :
  nonneg a -> nonneg (F32.add a F32.half).
Proof.
  intros [s|m e V|].
  - destruct s; constructor; reflexivity.
  - now apply add_half_nonneg.
  - constructor.
Qed.

Lemma leb_half_add_half (m : positive) (e : Z) :
  F32.valid (S754_finite false m e) = true ->
  F32.leb F32.half (F32.add (S754_finite false m e) F32.half) = true.
Proof.
  intros V. change F32.half with (S754_finite false 8388608 (-24)).
  pose proof (valid_finite _ _ _ V) as (_ & (E & _) & P). cbn [fst] in E.
  rewrite add_Round by lia.
  rewrite <- (Round_exact false 8388608 (-24) valid_half) at 1.
  assert (0 < 2 ^ 149) by (apply Z.pow_pos_nonneg; lia).
  assert (0 < U 8388608 (-24)) by reflexivity.
  apply Round_mono; nia.
Qed.

Lemma add_half_mono (a b : float) :
  nonneg a -> nonneg b -> F32.leb a b = true ->
  F32.leb (F32.add a F32.half) (F32.add b F32.half) = true.
Proof.
  intros Na Nb H.
  destruct Na as [sa|ma ea Va|]; destruct Nb as [sb|mb eb Vb|];
    try discriminate H.
  - destruct sa, sb; reflexivity.
  - replace (F32.add (S754_zero sa) F32.half) with F32.half
      by (destruct sa; reflexivity).
    now apply leb_half_add_half.
  - destruct sa; reflexivity.
  - now apply add_mono_l; try apply valid_half.
  - apply leb_nonneg_pinf. now apply add_half_nonneg.
  - reflexivity.
Qed.

Lemma round_nonneg_mono (a b : float) (za zb : Z) :
  nonneg a -> nonneg b -> F32.leb a b = true ->
  Arduino.round a = Some za -> Arduino.round b = Some zb -> za <= zb.
Proof.
  intros Na Nb H Ha Hb.
  rewrite round_nonneg in Ha, Hb by assumption.
  exact (to_long_nonneg_mono _ _ _ _ (add_half_nonneg_all a Na)
           (add_half_nonneg_all b Nb) (add_half_mono a b Na Nb H) Ha Hb).
Qed.

Lemma to_long_below (x c : float) (zc : Z) :
  nonneg x -> nonneg c -> F32.leb x c = true ->
  F32.to_long c = Some zc ->
  exists z, F32.to_long x = Some z /\ 0 <= z <= zc.
Proof.
  intros Nx Nc H Hc.
  assert (Hzc : zc <= F32.LONG_MAX).
  { unfold F32.to_long in Hc. destruct (F32.is_finite c); [|discriminate Hc].
    destruct (F32.LONG_MIN <=? F32.trunc c) eqn:E1; [|discriminate Hc].
    destruct (Z.leb_spec (F32.trunc c) F32.LONG_MAX) as [E2|];
      [|discriminate Hc].
    cbn in Hc. inversion Hc; subst. exact E2. }
  destruct Nx as [sx|mx ex Vx|].
  - exists 0. split; [reflexivity|].
    assert (H0 : F32.to_long (S754_zero sx) = Some 0) by reflexivity.
    pose proof (to_long_nonneg_mono _ _ _ _ (nonneg_zero sx) Nc H H0 Hc). lia.
  - destruct Nc as [sc|mc ec Vc|]; try discriminate H; try discriminate Hc.
    pose proof Hc as Hc'.
    pose proof (valid_finite _ _ _ Vx) as (_ & (Ex & _) & Px).
    pose proof (valid_finite _ _ _ Vc) as (_ & (Ec & _) & Pc).
    cbn [fst] in Ex, Ec.
    apply (leb_U _ _ _ _ Vx Vc) in H.
    unfold F32.to_long in *. cbn [F32.is_finite] in *.
    rewrite trunc_U in * by assumption.
    destruct (_ && _) in Hc; [|discriminate Hc]. inversion Hc; subst zc.
    assert (P149 : 0 < 2 ^ 149) by (apply Z.pow_pos_nonneg; lia).
    assert (Q : 0 <= U mx ex / 2 ^ 149 <= U mc ec / 2 ^ 149).
    { split; [apply Z.div_pos; lia|apply Z.div_le_mono; lia]. }
    exists (U mx ex / 2 ^ 149). split; [|exact Q].
    assert (L : F32.LONG_MIN <= 0) by (vm_compute; discriminate).
    destruct (Z.leb_spec F32.LONG_MIN (U mx ex / 2 ^ 149)); [|lia].
    destruct (Z.leb_spec (U mx ex / 2 ^ 149) F32.LONG_MAX); [|lia].
    reflexivity.
  - destruct Nc as [sc|mc ec Vc|]; try discriminate H; discriminate Hc.
Qed.

Lemma of_Z_leb (t1 t2 : Z) :
  0 <= t1 <= t2 -> t2 <= 2 ^ 24 ->
  nonneg (F32.div (F32.of_Z t1) (F32.of_Z simulation_dt_ms)) /\
  nonneg (F32.div (F32.of_Z t2) (F32.of_Z simulation_dt_ms)) /\
  F32.leb (F32.div (F32.of_Z t1) (F32.of_Z simulation_dt_ms))
          (F32.div (F32.of_Z t2) (F32.of_Z simulation_dt_ms)) = true.
Proof.
  intros H12 H2.
  destruct (of_Z_exact simulation_dt_ms ltac:(vm_compute; split; [reflexivity|discriminate]))
    as (md & ed & Ed & Vd & _).
  rewrite Ed.
  assert (D0 : F32.div (F32.of_Z 0) (S754_finite false md ed) = F32.pzero)
    by reflexivity.
  assert (N : forall t, 0 < t <= 2 ^ 24 ->
                        nonneg (F32.div (F32.of_Z t) (S754_finite false md ed))).
  { intros t Ht. destruct (of_Z_exact t Ht) as (m & e & -> & V & _).
    now apply div_nonneg. }
  destruct (Z.eq_dec t1 0) as [->|H1].
  - rewrite D0. split; [constructor|].
    destruct (Z.eq_dec t2 0) as [->|H2'].
    + rewrite D0. split; [constructor|reflexivity].
    + split; [apply N; lia|]. apply nonneg_leb_pzero, N. lia.
  - split; [apply N; lia|]. split; [apply N; lia|].
    destruct (of_Z_exact t1 ltac:(lia)) as (m1 & e1 & -> & V1 & U1).
    destruct (of_Z_exact t2 ltac:(lia)) as (m2 & e2 & -> & V2 & U2).
    apply div_mono_l; try assumption.
    apply (leb_U _ _ _ _ V1 V2). rewrite U1, U2.
    assert (0 < 2 ^ 149) by (apply Z.pow_pos_nonneg; lia). nia.
Qed.

Lemma slots_of_mono (t1 t2 a b : Z) :
  0 <= t1 <= t2 -> t2 <= 2 ^ 24 ->
  slots_of t1 = Some a -> slots_of t2 = Some b -> a <= b.
Proof.
  intros H12 H2 Ha Hb.
  destruct (of_Z_leb t1 t2 H12 H2) as (N1 & N2 & L).
  exact (round_nonneg_mono _ _ _ _ N1 N2 L Ha Hb).
Qed.

Lemma slots_of_defined (t : Z) :
  0 <= t <= 1638387 -> exists r, slots_of t = Some r /\ 0 <= r <= 65535.
Proof.
  intros Ht.
  destruct (of_Z_leb t 1638387 Ht ltac:(vm_compute; discriminate))
    as (N1 & N2 & L).
  unfold slots_of. rewrite round_nonneg by exact N1.
  apply (to_long_below _ (F32.add (F32.div (F32.of_Z 1638387)
                                      (F32.of_Z simulation_dt_ms)) F32.half)).
  - now apply add_half_nonneg_all.
  - now apply add_half_nonneg_all.
  - now apply add_half_mono.
  - vm_compute. reflexivity.
Qed.

Lemma slots_table_checked : slots_table_ok = true.
Proof. vm_compute. reflexivity. Qed.

Lemma slots_ends (k : Z) :
  0 <= k < 50 ->
  slots_of (Z.max 0 (simulation_dt_ms * k - 12)) = Some k /\
  slots_of (simulation_dt_ms * k + 12) = Some k.
Proof.
  intros Hk. pose proof slots_table_checked as T.
  unfold slots_table_ok in T. rewrite forallb_forall in T.
  specialize (T k). unfold slots_ends_ok in T.
  destruct (slots_of (Z.max 0 (simulation_dt_ms * k - 12))) as [a|];
    destruct (slots_of (simulation_dt_ms * k + 12)) as [b|];
    try (discriminate T; apply in_map_iff; exists (Z.to_nat k);
         split; [lia|apply in_seq; lia]).
  assert (E : (a =? k) && (b =? k) = true).
  { apply T. apply in_map_iff. exists (Z.to_nat k).
    split; [lia|apply in_seq; lia]. }
  apply andb_true_iff in E as [E1 E2].
  apply Z.eqb_eq in E1, E2. now subst.
Qed.

(** X14.  The constructor allots the number of sampling periods nearest to
    the response time, at most [MAX_MEMORY_SIZE].  For a response time of
    [t] milliseconds, [t] an integer from 0 to 1638387, the two roundings
    of the division and of [round] never move the result to another
    integer: [memory_size] is [t / 25] rounded half up, capped at 50.  The
    bound on [t] is where the rounded quotient reaches [2 ^ 16], the size
    of [size_t] on the target. *)
Theorem constructor_memory_size (t : Z) (bg al ga si : float) :
  0 <= t <= 1638387 ->
  exists s,
    SimulatedSensor_new (F32.of_Z t) bg al ga si = Some s /\
    memory_size s = Z.min MAX_MEMORY_SIZE ((2 * t + 25) / 50) /\
    memory s = zero_memory /\
    background s = bg /\ alpha s = al /\ gamma s = ga /\ sigma s = si.
Proof.
  intros Ht.
  destruct (slots_of_defined t Ht) as (r & Hr & Rr).
  unfold SimulatedSensor_new. fold (slots_of t). rewrite Hr.
  eexists. split; [reflexivity|].
  cbn [memory_size memory background alpha gamma sigma].
  split; [|repeat split].
  unfold to_size_t. rewrite Z.mod_small by (cbn; lia).
  unfold Arduino.min_size, MAX_MEMORY_SIZE.
  set (k := (2 * t + 25) / 50).
  assert (Hk : 50 * k <= 2 * t + 25 < 50 * k + 50).
  { subst k. pose proof (Z.div_mod (2 * t + 25) 50 ltac:(lia)).
    pose proof (Z.mod_pos_bound (2 * t + 25) 50 ltac:(lia)). lia. }
  clearbody k.
  assert (T24 : t <= 2 ^ 24) by (change (2 ^ 24) with 16777216; lia).
  destruct (Z.lt_ge_cases k 50) as [Hlt|Hge].
  - destruct (slots_ends k ltac:(lia)) as [Elo Ehi].
    unfold simulation_dt_ms in Elo, Ehi.
    assert (B1 : 0 <= Z.max 0 (25 * k - 12) <= t) by lia.
    assert (B2 : 0 <= t <= 25 * k + 12) by lia.
    assert (B3 : 25 * k + 12 <= 2 ^ 24)
      by (change (2 ^ 24) with 16777216; lia).
    pose proof (slots_of_mono _ _ _ _ B1 T24 Elo Hr).
    pose proof (slots_of_mono _ _ _ _ B2 B3 Hr Ehi).
    destruct (Z.ltb_spec r 50); lia.
  - assert (E : slots_of 1238 = Some 50) by (vm_compute; reflexivity).
    assert (B1 : 0 <= 1238 <= t) by lia.
    pose proof (slots_of_mono _ _ _ _ B1 T24 E Hr).
    destruct (Z.ltb_spec r 50); lia.
Qed.

Lemma constructor_memory_size_witness :
  exists s,
    SimulatedSensor_new (F32.of_Z 400) (F32.lit 2 100) (F32.lit 75 100)
      (F32.of_Z 1) (F32.lit 3 100) = Some s /\
    memory_size s = 16.
Proof.
  destruct (constructor_memory_size 400 (F32.lit 2 100) (F32.lit 75 100)
              (F32.of_Z 1) (F32.lit 3 100)) as (s & E & M & _); [lia|].
  exists s. split; [exact E|]. rewrite M. reflexivity.
Defined.

(** ** The noise for every amplitude *)

Lemma valid_RAND_MAX : F32.valid (F32.of_Z RAND_MAX) = true.
Proof. reflexivity. Qed.

Lemma small_Round (b : float) (s : bool) (A : Z) (m : positive) (e : Z) :
  b = S754_finite false m e -> F32.valid b = true ->
  0 <= A <= U m e ->
  small b (Round s (A * 2 ^ 149) 1).
Proof.
  intros -> V HA.
  destruct (Round_le_exact A m e V HA) as [G Hle].
  assert (PA : 0 <= A * 2 ^ 149).
  { assert (0 < 2 ^ 149) by (apply Z.pow_pos_nonneg; lia). nia. }
  destruct s.
  - rewrite (Round_opp _ 1 PA ltac:(lia)).
    destruct G as [z|my ey Vy|]; [constructor| |discriminate Hle].
    cbn [F32.opp SFopp negb]. now constructor.
  - destruct G as [z|my ey Vy|]; [constructor| |discriminate Hle].
    now constructor.
Qed.

(** [(float) r / RAND_MAX - 0.5] is a zero or at most a half in magnitude. *)
Lemma uniform_fraction (r : Z) :
  0 <= r <= RAND_MAX ->
  small F32.half
    (F32.sub (F32.div (F32.of_Z r) (F32.of_Z RAND_MAX)) F32.half).
Proof.
  intros Hr.
  assert (Vh : F32.valid (S754_finite false 8388608 (-24)) = true)
    by reflexivity.
  assert (Vc : F32.valid (S754_finite false 16776704 (-9)) = true)
    by reflexivity.
  assert (Sh : small F32.half (S754_finite true 8388608 (-24)))
    by (constructor; reflexivity).
  destruct r as [|p|p]; [exact Sh| |lia].
  change (F32.of_Z RAND_MAX) with (S754_finite false 16776704 (-9)).
  rewrite of_Z_Round.
  assert (PK : 0 < 2 ^ K) by (apply Z.pow_pos_nonneg; unfold K; lia).
  assert (Hle : F32.leb (Round false (Z.pos p * 2 ^ K) 1)
                        (S754_finite false 16776704 (-9)) = true).
  { change (S754_finite false 16776704 (-9)) with (F32.of_Z 32767).
    rewrite of_Z_Round. unfold RAND_MAX in Hr. apply Round_mono; nia. }
  destruct (Round_cases false (Z.pos p * 2 ^ K) 1 ltac:(nia) ltac:(lia))
    as [E|[E|(mr & er & E & Vr)]]; rewrite E in *.
  - exact Sh.
  - discriminate Hle.
  - pose proof (div_mono_l mr er 16776704 (-9) 16776704 (-9) Vr Vc Vc Hle)
      as Hq.
    change (F32.div (S754_finite false 16776704 (-9))
                    (S754_finite false 16776704 (-9)))
      with (S754_finite false 8388608 (-23)) in Hq.
    pose proof (div_nonneg mr er 16776704 (-9) Vr Vc) as G.
    remember (F32.div (S754_finite false mr er)
                      (S754_finite false 16776704 (-9))) as q eqn:Eq.
    destruct G as [s|md ed Vd|]; [destruct s; exact Sh| |discriminate Hq].
    assert (V1 : F32.valid (S754_finite false 8388608 (-23)) = true)
      by reflexivity.
    apply (leb_U _ _ _ _ Vd V1) in Hq.
    change (U 8388608 (-23)) with (2 * U 8388608 (-24)) in Hq.
    pose proof (valid_finite _ _ _ Vd) as (_ & (Eed & _) & Pd).
    cbn [fst] in Eed.
    change F32.half with (S754_finite false 8388608 (-24)).
    rewrite sub_Round by lia.
    destruct (Z.compare_spec (U md ed) (U 8388608 (-24))) as [Ec|Ec|Ec].
    + constructor.
    + apply (small_Round _ true _ 8388608 (-24)); [reflexivity|exact Vh|lia].
    + apply (small_Round _ false _ 8388608 (-24)); [reflexivity|exact Vh|lia].
Qed.

Lemma leb_opp_nonneg (a b : float) :
  nonneg a -> nonneg b -> F32.leb (F32.opp a) b = true.
Proof. intros [sa|ma ea Va|] [sb|mb eb Vb|]; reflexivity. Qed.

Lemma small_mul (t : float) (ms : positive) (es : Z) :
  F32.valid (S754_finite false ms es) = true ->
  small F32.half t ->
  small (F32.mul F32.half (S754_finite false ms es))
        (F32.mul t (S754_finite false ms es)) \/
  F32.mul F32.half (S754_finite false ms es) = F32.pinf.
Proof.
  intros Vs St.
  assert (Vh : F32.valid (S754_finite false 8388608 (-24)) = true)
    by reflexivity.
  pose proof (valid_finite _ _ _ Vs) as (_ & _ & Ps).
  change F32.half with (S754_finite false 8388608 (-24)) in *.
  rewrite (mul_Round _ _ _ _ _ _ Vh Vs). cbn [xorb].
  assert (Ph : 0 < U 8388608 (-24)) by reflexivity.
  destruct (Round_cases false (U 8388608 (-24) * U ms es) 1 ltac:(nia)
              ltac:(lia)) as [E|[E|(mb & eb & E & Vb)]].
  - left. rewrite E.
    destruct St as [s|s m e V Hle]; [destruct s; constructor|].
    assert (Vt : F32.valid (S754_finite s m e) = true) by exact V.
    rewrite (mul_Round _ _ _ _ _ _ Vt Vs), xorb_false_r.
    apply (leb_U _ _ _ _ V Vh) in Hle.
    pose proof (valid_finite _ _ _ V) as (_ & _ & Pm).
    assert (H0 : F32.leb (Round false (U m e * U ms es) 1) (S754_zero false)
                 = true).
    { rewrite <- E. apply Round_mono; nia. }
    destruct (Round_cases false (U m e * U ms es) 1 ltac:(nia) ltac:(lia))
      as [E'|[E'|(mz & ez & E' & Vz)]]; rewrite E' in H0;
      try discriminate H0.
    destruct s.
    + rewrite (Round_opp (U m e * U ms es) 1 ltac:(nia) ltac:(lia)), E'. constructor.
    + rewrite E'. constructor.
  - right. exact E.
  - left. rewrite E.
    destruct St as [s|s m e V Hle]; [destruct s; constructor|].
    assert (Vt : F32.valid (S754_finite s m e) = true) by exact V.
    rewrite (mul_Round _ _ _ _ _ _ Vt Vs), xorb_false_r.
    apply (leb_U _ _ _ _ V Vh) in Hle.
    pose proof (valid_finite _ _ _ V) as (_ & _ & Pm).
    assert (H0 : F32.leb (Round false (U m e * U ms es) 1)
                         (S754_finite false mb eb) = true).
    { rewrite <- E. apply Round_mono; nia. }
    destruct (Round_cases false (U m e * U ms es) 1 ltac:(nia) ltac:(lia))
      as [E'|[E'|(mz & ez & E' & Vz)]]; rewrite E' in H0;
      try discriminate H0.
    + destruct s.
      * rewrite (Round_opp (U m e * U ms es) 1 ltac:(nia) ltac:(lia)), E'. constructor.
      * rewrite E'. constructor.
    + destruct s.
      * rewrite (Round_opp (U m e * U ms es) 1 ltac:(nia) ltac:(lia)), E'.
        cbn [F32.opp SFopp negb]. now constructor.
      * rewrite E'. now constructor.
Qed.

Lemma small_opp (b x : float) : small b x -> small b (F32.opp x).
Proof. intros [s|s m e V H]; cbn [F32.opp SFopp]; now constructor. Qed.

Lemma small_within (sg x : float) :
  nonneg (F32.mul F32.half sg) ->
  small (F32.mul F32.half sg) x -> within_half_sigma sg x = true.
Proof.
  intros N S. unfold within_half_sigma.
  destruct S as [s|s m e V H].
  - rewrite (leb_opp_nonneg _ _ N (nonneg_zero s)).
    now rewrite (leb_zero_nonneg s _ N).
  - destruct s.
    + pose proof (leb_opp _ _ (nonneg_finite _ _ V) N H) as Ho.
      cbn [F32.opp SFopp negb] in Ho |- *. rewrite Ho.
      change (S754_finite true m e) with (F32.opp (S754_finite false m e)).
      now rewrite (leb_opp_nonneg _ _ (nonneg_finite _ _ V) N).
    + rewrite (leb_opp_nonneg _ _ N (nonneg_finite _ _ V)).
      now rewrite H.
Qed.

Lemma half_sigma_nonneg (ms : positive) (es : Z) :
  F32.valid (S754_finite false ms es) = true ->
  nonneg (F32.mul F32.half (S754_finite false ms es)).
Proof.
  intros Vs. change F32.half with (S754_finite false 8388608 (-24)).
  rewrite (mul_Round _ _ _ _ _ _ valid_half Vs). cbn [xorb].
  pose proof (valid_finite _ _ _ Vs) as (_ & _ & Ps).
  assert (Ph : 0 < U 8388608 (-24)) by reflexivity.
  apply Round_nonneg; nia.
Qed.

(** Both [uniform(sigma)] and [abs(uniform(sigma))] return a zero or a
    finite number of magnitude at most [0.5 * sigma]. *)
Lemma noise_small (sg : float) (w : World) :
  positive_finite sg ->
  F32.mul F32.half sg <> F32.pinf ->
  (exists x w', uniform sg w = Some (x, w') /\
                small (F32.mul F32.half sg) x) /\
  (exists n w', abs_uniform sg w = Some (n, w') /\
                small (F32.mul F32.half sg) n).
Proof.
  intros (ms & es & -> & Vs) Hov.
  assert (HS : forall z,
    small (F32.mul F32.half (S754_finite false ms es))
          (uniform_of (S754_finite false ms es) (z mod (RAND_MAX + 1)))).
  { intros z. unfold uniform_of.
    assert (Hr : 0 <= z mod (RAND_MAX + 1) <= RAND_MAX).
    { pose proof (Z.mod_pos_bound z (RAND_MAX + 1)
                    ltac:(unfold RAND_MAX; lia)). lia. }
    destruct (small_mul _ ms es Vs (uniform_fraction _ Hr)) as [H|H];
      [exact H|contradiction]. }
  split.
  - unfold uniform, bind, rand, ret. eexists; eexists.
    split; [reflexivity|apply HS].
  - unfold abs_uniform, uniform, bind, rand, ret.
    destruct (F32.gtb _ _); cbn beta; cbn [rand_stream rand_calls];
      eexists; eexists; (split; [reflexivity|]).
    + apply HS.
    + apply small_opp, HS.
Qed.

Lemma small_finite_value (b x : float) : small b x -> F32.is_finite x = true.
Proof. intros [s|s m e V H]; reflexivity. Qed.

(** X15.  For every positive amplitude [sigma] whose half does not
    overflow, whatever [rand] returns, [uniform(sigma)] lies between
    [- 0.5 * sigma] and [0.5 * sigma], and so does the noise term
    [abs(uniform(sigma))] of [update]: the noise is bounded by half of
    [sigma], and both are always finite. *)
Theorem noise_within_half_sigma (sg : float) (w : World) :
  positive_finite sg ->
  F32.mul F32.half sg <> F32.pinf ->
  (exists x w', uniform sg w = Some (x, w') /\
                within_half_sigma sg x = true /\ F32.is_finite x = true) /\
  (exists n w', abs_uniform sg w = Some (n, w') /\
                within_half_sigma sg n = true /\ F32.is_finite n = true).
Proof.
  intros Hp Hov.
  destruct (noise_small sg w Hp Hov)
    as [(x & w1 & Hx & Sx) (n & w2 & Hn & Sn)].
  destruct Hp as (ms & es & -> & Vs).
  pose proof (half_sigma_nonneg ms es Vs) as N.
  split.
  - exists x, w1. split; [exact Hx|].
    split; [now apply small_within|exact (small_finite_value _ _ Sx)].
  - exists n, w2. split; [exact Hn|].
    split; [now apply small_within|exact (small_finite_value _ _ Sn)].
Qed.

Lemma noise_within_half_sigma_witness :
  let w := initial_world [RAND_MAX; 0] [] F32.pzero [] in
  exists n w', abs_uniform (F32.lit 3 100) w = Some (n, w') /\
               within_half_sigma (F32.lit 3 100) n = true.
Proof.
  intros w.
  destruct (noise_within_half_sigma (F32.lit 3 100) w)
    as (_ & n & w' & H & Hw & _).
  - eexists; eexists; split; [vm_compute; reflexivity|reflexivity].
  - vm_compute. discriminate.
  - exists n, w'. split; assumption.
Defined.

(** ** A sample in total darkness *)

Lemma add_nonneg (a b : float) : nonneg a -> nonneg b -> nonneg (F32.add a b).
Proof.
  intros [sa|ma ea Va|] [sb|mb eb Vb|]; try constructor; try assumption.
  - destruct sa, sb; constructor.
  - pose proof (valid_finite _ _ _ Va) as (_ & (Ea & _) & Pa).
    pose proof (valid_finite _ _ _ Vb) as (_ & (Eb & _) & Pb).
    cbn [fst] in Ea, Eb. rewrite add_Round by lia.
    assert (0 < 2 ^ 149) by (apply Z.pow_pos_nonneg; lia).
    apply Round_nonneg; nia.
Qed.

Lemma byte_over_to_byte_nonneg (b : Z) :
  is_byte b -> nonneg (F32.div (F32.of_Z b) to_byte).
Proof.
  intros [H0 H1]. unfold UINT8_MAX in H1.
  destruct (Z.eq_dec b 0) as [->|Hb]; [constructor|].
  destruct (of_Z_exact b ltac:(change (2 ^ 24) with 16777216; lia))
    as (m & e & -> & V & _).
  change to_byte with (S754_finite false 16711680 (-17)).
  apply div_nonneg; [exact V|reflexivity].
Qed.

Lemma accumulate_memory_nonneg (m : list Z) (n : nat) :
  forall (i : nat) (acc : float),
    nonneg acc ->
    (forall j : nat, (i <= j < i + n)%nat -> is_byte (nth j m 0)) ->
    nonneg (accumulate_memory m i n acc).
Proof.
  induction n as [|n IH]; intros i acc Na H; [exact Na|].
  cbn [accumulate_memory]. apply IH.
  - apply add_nonneg; [exact Na|].
    apply byte_over_to_byte_nonneg, H. lia.
  - intros j Hj. apply H. lia.
Qed.

Lemma add_nonneg_pinf (a : float) : nonneg a -> F32.add a F32.pinf = F32.pinf.
Proof. intros [s|m e V|]; reflexivity. Qed.

Lemma Forall_nth_byte (l : list Z) (j : nat) :
  Forall is_byte l -> is_byte (nth j l 0).
Proof.
  intros H. destruct (Nat.lt_ge_cases j (length l)) as [Hj|Hj].
  - rewrite Forall_forall in H. apply H. now apply nth_In.
  - rewrite nth_overflow by exact Hj. unfold is_byte, UINT8_MAX. lia.
Qed.

Lemma pre_quantization_pinf (lm : Libm) (s : SimulatedSensor) (noise : float) :
  pow lm F32.pinf (gamma s) = F32.pinf ->
  positive_finite (alpha s) ->
  0 <= memory_size s <= MAX_MEMORY_SIZE ->
  Forall is_byte (memory s) ->
  F32.is_finite noise = true ->
  pre_quantization lm s F32.pinf noise = F32.pinf.
Proof.
  intros Hp (ma & ea & Ea & Va) Hm Hb Hn.
  unfold pre_quantization, base_value. rewrite Hp, Ea.
  change (F32.mul F32.pinf (S754_finite false ma ea)) with F32.pinf.
  assert (E : smooth s F32.pinf = F32.pinf).
  { unfold smooth. destruct (Z.leb_spec 1 (memory_size s)); [|reflexivity].
    rewrite add_nonneg_pinf.
    - unfold to_size_t, MAX_MEMORY_SIZE in *.
      rewrite Z.mod_small by lia.
      destruct (of_Z_exact (memory_size s + 1)
                  ltac:(change (2 ^ 24) with 16777216; lia))
        as (m & e & -> & _).
      reflexivity.
    - apply accumulate_memory_nonneg; [constructor|].
      intros j _. now apply Forall_nth_byte. }
  rewrite E.
  assert (Fb : floor_background s F32.pinf = F32.pinf).
  { unfold floor_background.
    destruct (background s) as [?|[|]| |[|] ? ?]; reflexivity. }
  rewrite Fb.
  destruct noise as [?|?| |? ? ?]; try discriminate Hn; reflexivity.
Qed.

(** X16.  [update] with an infinite absorbance, as [physical_to_A] returns
    for an average reading of 0, returns 255: for a sensor with a positive
    sensitivity and a positive noise amplitude whose buffer holds bytes,
    the response is [+inf], the smoothing, the floor and the noise leave
    it [+inf], and the quantization saturates. *)
Theorem dark_sample_saturates (lm : Libm) (s : SimulatedSensor) (w : World) :
  pow lm F32.pinf (gamma s) = F32.pinf ->
  positive_finite (alpha s) ->
  positive_finite (sigma s) ->
  F32.mul F32.half (sigma s) <> F32.pinf ->
  0 <= memory_size s <= MAX_MEMORY_SIZE ->
  Forall is_byte (memory s) ->
  update lm s F32.pinf w =
    Some ((255, set_memory s (push_memory s 255)), after_rand_serial w 2 []).
Proof.
  intros Hp Ha Hs Hov Hm Hb.
  destruct (noise_small (sigma s) w Hs Hov) as [_ (n & w1 & Hn & Sn)].
  pose proof (abs_uniform_world _ _ _ Hn) as Ew. cbn [snd] in Ew. subst w1.
  unfold update. unfold bind at 1. rewrite Hn.
  change (F32.add (floor_background s (smooth s (base_value lm s F32.pinf))) n)
    with (pre_quantization lm s F32.pinf n).
  rewrite (pre_quantization_pinf lm s n Hp Ha Hm Hb
             (small_finite_value _ _ Sn)).
  reflexivity.
Qed.

Lemma dark_sample_saturates_witness :
  let w := initial_world [5; 6] [] (F32.of_Z 900) [] in
  fst (fst (run (update Sample.libm slow_sensor F32.pinf) w (0, slow_sensor)))
  = 255.
Proof.
  intros w. unfold run.
  rewrite (dark_sample_saturates Sample.libm slow_sensor w).
  - reflexivity.
  - reflexivity.
  - eexists; eexists; split; [vm_compute; reflexivity|reflexivity].
  - eexists; eexists; split; [vm_compute; reflexivity|reflexivity].
  - vm_compute. discriminate.
  - vm_compute. split; discriminate.
  - change (Forall is_byte (repeat 0 50)). apply Forall_forall.
    intros x Hx. apply repeat_spec in Hx. subst x.
    unfold is_byte, UINT8_MAX. lia.
Defined.

(** ** The buffer holds bytes *)

Lemma store_bytes (m : list Z) :
  forall (i : nat) (v : Z),
    Forall is_byte m -> is_byte v -> Forall is_byte (store m i v).
Proof.
  induction m as [|x m IH]; intros i v Hm Hv; [constructor|].
  inversion Hm; subst.
  destruct i; cbn [store]; constructor; auto.
Qed.

Lemma shift_memory_bytes (n : nat) :
  forall (m : list Z) (i : nat),
    Forall is_byte m -> Forall is_byte (shift_memory m i n).
Proof.
  induction n as [|n IH]; intros m i Hm; [exact Hm|].
  cbn [shift_memory]. apply IH, store_bytes; [exact Hm|].
  now apply Forall_nth_byte.
Qed.

Lemma push_memory_bytes (s : SimulatedSensor) (b : Z) :
  Forall is_byte (memory s) -> is_byte b -> Forall is_byte (push_memory s b).
Proof.
  intros Hm Hb. unfold push_memory.
  destruct (1 <=? memory_size s); [|exact Hm].
  apply store_bytes; [|exact Hb]. now apply shift_memory_bytes.
Qed.

Lemma update_many_bytes (lm : Libm) (inputs : list float) :
  forall (s : SimulatedSensor) (w : World) (outs : list Z)
         (s' : SimulatedSensor) (w' : World),
    Forall is_byte (memory s) ->
    update_many lm s inputs w = Some ((outs, s'), w') ->
    Forall is_byte (memory s') /\ Forall is_byte outs.
Proof.
  induction inputs as [|a tl IH]; intros s w outs s' w' Hm H.
  - apply ret_Some in H. inversion H; subst. split; [exact Hm|constructor].
  - cbn [update_many] in H.
    apply bind_Some in H as ([b s1] & w1 & Hu & H).
    apply bind_Some in H as ([outs1 s2] & w2 & Hr & H).
    apply ret_Some in H. inversion H; subst; clear H. cbn [fst snd] in *.
    pose proof (update_result _ _ _ _ _ _ _ Hu) as [-> Hb].
    destruct (IH (set_memory s (push_memory s b)) _ _ _ _
                (push_memory_bytes s b Hm Hb) Hr) as [H1 H2].
    split; [exact H1|constructor; assumption].
Qed.

(** X17.  The buffer of a sensor never holds anything but bytes: from the
    constructor on, after any sequence of [update] calls, every slot of
    [memory] and every value returned is between 0 and 255, so the
    conversions [(float) memory[i]] of the smoothing are all exact and not
    negative. *)
Theorem memory_holds_bytes (lm : Libm) (rt bg al ga si : float)
    (s : SimulatedSensor) (inputs : list float) (w : World) (outs : list Z)
    (s' : SimulatedSensor) (w' : World) :
  SimulatedSensor_new rt bg al ga si = Some s ->
  update_many lm s inputs w = Some ((outs, s'), w') ->
  Forall is_byte (memory s') /\ Forall is_byte outs /\
  nonneg (accumulate_memory (memory s') 0 (Z.to_nat (memory_size s'))
            (F32.of_Z 0)).
Proof.
  intros Hnew Hrun.
  assert (H0 : Forall is_byte (memory s)).
  { unfold SimulatedSensor_new in Hnew.
    destruct (Arduino.round _); [|discriminate Hnew].
    inversion Hnew; subst. cbn [memory]. unfold zero_memory.
    apply Forall_forall. intros x Hx. apply repeat_spec in Hx. subst x.
    unfold is_byte, UINT8_MAX. lia. }
  destruct (update_many_bytes lm inputs _ _ _ _ _ H0 Hrun) as [H1 H2].
  split; [exact H1|]. split; [exact H2|].
  apply accumulate_memory_nonneg; [constructor|].
  intros j _. now apply Forall_nth_byte.
Qed.

Lemma memory_holds_bytes_witness :
  let w := initial_world [5; 6; 7; 8] [] F32.pzero [] in
  let r := run (update_many Sample.libm slow_sensor [F32.of_Z 1; F32.of_Z 2])
             w ([], slow_sensor) in
  Forall is_byte (memory (snd (fst r))) /\ Forall is_byte (fst (fst r)).
Proof.
  intros w r.
  destruct (memory_holds_bytes Sample.libm (F32.of_Z 400) (F32.lit 2 100)
              (F32.lit 75 100) (F32.of_Z 1) (F32.lit 3 100) slow_sensor
              [F32.of_Z 1; F32.of_Z 2] w (fst (fst r)) (snd (fst r)) (snd r))
    as (H1 & H2 & _).
  - vm_compute. reflexivity.
  - vm_compute. reflexivity.
  - split; assumption.
Defined.
